(** * AffectLearn: quiz route, quiz page, chat store and voice sidebar

    A shallow embedding of the TypeScript sources of the AffectLearn
    front end, and the properties of its specification that concern them.

    - [JS]         the fragment of the JavaScript runtime the sources use
    - [JSNumber]   numbers as text ([toString], [padStart]) and the remainder [%]
    - [JSDouble]   the rounding of a number to a double
    - [QuizRoute]  the quiz generation API route ([POST], [generateQuizWithGroq])
    - [QuizPage]   app/quiz/page.tsx ([handleSubmitQuiz])
    - [ChatStore]  store/chatStore.ts ([addMessage]) and the ChatMessage view
    - [VoiceSidebar] components/Chat/ChatHeader.tsx ([generateVoiceExplanation])
    - [QuizPageNav] app/quiz/page.tsx, the handlers of a quiz being taken
    - [QuizPageInit] app/quiz/page.tsx ([initializeQuiz]) and the table of quizzes
    - [QuizRouteShape] the replies the quiz route accepts, and its responses
    - [ChatStoreActions] store/chatStore.ts, the other actions, and
                   components/Chat/ExplanationToggle.tsx
    - [MessageView] the ChatMessage view ([handleCopy])
    - [VoicePlayback] components/Chat/ChatHeader.tsx, the effects and the
                   player of the voice sidebar

    Numbers.  A JavaScript number is modelled by its value in [Q], and
    [NaN] is [None] where an operation can produce it.  Where the sources
    divide, multiply by a fraction or add fractions (the score of a quiz,
    the draw of the stress estimate, the estimate of the timings) the
    result is rounded to a double as [JSDouble] has it: to the nearest
    double, ties to even, with 53 bits of significand and the subnormals.
    Overflow to an infinity is not modelled there: the operands are lengths
    of strings and arrays, a draw below 1 and small constants.  Elsewhere
    the sources compare numbers with integer constants, subtract 1 from a
    number between 1 and 4 and add 1 to a count, all of which is exact in
    doubles; in [formatTime] the quotient and the remainder are those of
    the rationals, and the floor taken of the quotient is that of the
    rounded quotient ([JSDoubleFacts.minutes_in_doubles]).  A JSON literal
    that overflows to an infinity behaves, in every comparison made here,
    like a rational of the same sign beyond every constant.

    Strings.  A string is a [string] of code units below 256. *)

From Stdlib Require Import ZArith QArith Qround Qpower Lqa String Ascii List Bool Lia.
From stdpp Require Import gmap strings list.

Set Warnings "-register-all".
Local Open Scope string_scope.
Local Open Scope list_scope.

(* ===================================================================== *)
(** ** The JavaScript fragment                                            *)
(* ===================================================================== *)

Module JS.

(** Values as [JSON.parse] builds them, with [undefined] for what a missing
    property or an index out of range reads. *)
Inductive jsval : Type :=
| JUndefined
| JNull
| JBool (b : bool)
| JNum (q : Q)
| JStr (s : string)
| JArr (items : list jsval)
| JObj (fields : list (string * jsval)).

(** [ToBoolean]: what [!v] negates. *)
Definition truthy (v : jsval) : bool :=
  match v with
  | JUndefined | JNull => false
  | JBool b => b
  | JNum q => negb (Qeq_bool q 0)
  | JStr s => negb (String.eqb s "")
  | JArr _ | JObj _ => true
  end.

(** [a || b] on optional strings: the first unless it is missing or empty. *)
Definition truthy_str (o : option string) : bool :=
  match o with
  | Some s => negb (String.eqb s "")
  | None => false
  end.

Definition or_else (a b : option string) : option string :=
  if truthy_str a then a else b.

Definition Qlt_bool (a b : Q) : bool := negb (Qle_bool b a).

Definition of_nat (n : nat) : Q := inject_Z (Z.of_nat n).

(** [v === q] for a number [q]. *)
Definition strict_eq_num (v : jsval) (q : Q) : bool :=
  match v with
  | JNum p => Qeq_bool p q
  | _ => false
  end.

(** WhiteSpace and LineTerminator code units below 256: TAB, LF, VT, FF,
    CR, SP and NBSP. *)
Definition is_ws (c : ascii) : bool :=
  let n := nat_of_ascii c in
  (n =? 9)%nat || (n =? 10)%nat || (n =? 11)%nat || (n =? 12)%nat
  || (n =? 13)%nat || (n =? 32)%nat || (n =? 160)%nat.

Fixpoint trimStart (s : string) : string :=
  match s with
  | EmptyString => EmptyString
  | String c s' => if is_ws c then trimStart s' else s
  end.

Fixpoint trimEnd (s : string) : string :=
  match s with
  | EmptyString => EmptyString
  | String c s' =>
      let t := trimEnd s' in
      if is_ws c && String.eqb t "" then EmptyString else String c t
  end.

(** [String.prototype.trim]. *)
Definition trim (s : string) : string := trimEnd (trimStart s).

(** [String.prototype.startsWith]. *)
Definition startsWith (s p : string) : bool := String.prefix p s.

(** The value of a digit in a radix, letters counting from 10. *)
Definition digit_val (radix : N) (c : ascii) : option N :=
  let n := N_of_ascii c in
  let d :=
    if (48 <=? n)%N && (n <=? 57)%N then Some (n - 48)%N
    else if (97 <=? n)%N && (n <=? 122)%N then Some (n - 87)%N
    else if (65 <=? n)%N && (n <=? 90)%N then Some (n - 55)%N
    else None in
  match d with
  | Some v => if (v <? radix)%N then Some v else None
  | None => None
  end.

(** The longest prefix of digits, as a number; [acc] is [None] until a
    digit has been read. *)
Fixpoint parse_digits (radix : N) (s : string) (acc : option N) : option N :=
  match s with
  | EmptyString => acc
  | String c s' =>
      match digit_val radix c with
      | Some d => parse_digits radix s' (Some (radix * default 0%N acc + d)%N)
      | None => acc
      end
  end.

(** [parseInt(s)] with no radix argument; [None] is [NaN]. *)
Definition parseInt (s : string) : option Z :=
  let s1 := trimStart s in
  let '(neg, s2) :=
    match s1 with
    | String "-" r => (true, r)
    | String "+" r => (false, r)
    | _ => (false, s1)
    end in
  let '(radix, s3) :=
    match s2 with
    | String "0" (String "x" r) => (16%N, r)
    | String "0" (String "X" r) => (16%N, r)
    | _ => (10%N, s2)
    end in
  match parse_digits radix s3 None with
  | Some n => Some (if neg then (- Z.of_N n)%Z else Z.of_N n)
  | None => None
  end.

(** *** StringNumericLiteral: which strings [ToNumber] converts to a number *)

Fixpoint skip_digits (radix : N) (s : string) : string :=
  match s with
  | EmptyString => EmptyString
  | String c s' =>
      match digit_val radix c with
      | Some _ => skip_digits radix s'
      | None => s
      end
  end.

(** One digit at least, and digits only. *)
Definition all_digits (radix : N) (s : string) : bool :=
  negb (String.eqb s "") && String.eqb (skip_digits radix s) "".

Definition is_decimal_digit_start (s : string) : bool :=
  match s with
  | String c _ => match digit_val 10 c with Some _ => true | None => false end
  | EmptyString => false
  end.

(** ExponentPart, optional. *)
Definition is_exponent_opt (s : string) : bool :=
  match s with
  | EmptyString => true
  | String c r =>
      if Ascii.eqb c "e" || Ascii.eqb c "E" then
        match r with
        | String "+" r' => all_digits 10 r'
        | String "-" r' => all_digits 10 r'
        | _ => all_digits 10 r
        end
      else false
  end.

(** StrUnsignedDecimalLiteral. *)
Definition is_unsigned_decimal (s : string) : bool :=
  if String.eqb s "Infinity" then true
  else
    let had_int := is_decimal_digit_start s in
    match skip_digits 10 s with
    | String "." r =>
        let had_frac := is_decimal_digit_start r in
        (had_int || had_frac) && is_exponent_opt (skip_digits 10 r)
    | r => had_int && is_exponent_opt r
    end.

(** NonDecimalIntegerLiteral. *)
Definition is_non_decimal (s : string) : bool :=
  match s with
  | String "0" (String c r) =>
      if Ascii.eqb c "x" || Ascii.eqb c "X" then all_digits 16 r
      else if Ascii.eqb c "o" || Ascii.eqb c "O" then all_digits 8 r
      else if Ascii.eqb c "b" || Ascii.eqb c "B" then all_digits 2 r
      else false
  | _ => false
  end.

Definition is_StringNumericLiteral (s : string) : bool :=
  let t := trim s in
  String.eqb t "" || is_non_decimal t
  || match t with
     | String "+" r => is_unsigned_decimal r
     | String "-" r => is_unsigned_decimal r
     | _ => is_unsigned_decimal t
     end.

Section Conversions.

(** The number a StringNumericLiteral denotes, rounded as the runtime
    rounds it, and [ToNumber] of an array or an object (through
    [ToPrimitive]) are left to the runtime. *)
Variable StringNumericValue : string -> Q.
Variable CompositeToNumber : jsval -> option Q.

(** [ToNumber]; [None] is [NaN]. *)
Definition ToNumber (v : jsval) : option Q :=
  match v with
  | JUndefined => None
  | JNull => Some 0%Q
  | JBool b => Some (if b then 1%Q else 0%Q)
  | JNum q => Some q
  | JStr s => if is_StringNumericLiteral s then Some (StringNumericValue s) else None
  | JArr _ | JObj _ => CompositeToNumber v
  end.

(** [v < q] and [v > q] for a number [q]: false on [NaN]. *)
Definition js_lt (v : jsval) (q : Q) : bool :=
  match ToNumber v with
  | Some x => Qlt_bool x q
  | None => false
  end.

Definition js_gt (v : jsval) (q : Q) : bool :=
  match ToNumber v with
  | Some x => Qlt_bool q x
  | None => false
  end.

End Conversions.

End JS.

(* ===================================================================== *)
(** ** Numbers as text                                                    *)
(* ===================================================================== *)

Module JSNumber.
Import JS.

Definition digit_char (d : nat) : ascii := ascii_of_nat (48 + d).

(** The decimal digits of [n] before [acc], the last digit first; [fuel]
    bounds the number of digits. *)
Fixpoint digits_of (fuel n : nat) (acc : string) : string :=
  match fuel with
  | O => acc
  | S fuel' =>
      let acc' := String (digit_char (n mod 10)) acc in
      if (n / 10 =? 0)%nat then acc' else digits_of fuel' (n / 10) acc'
  end.

(** [n.toString()] for a natural number [n]. *)
Definition nat_toString (n : nat) : string := digits_of (S n) n "".

(** [z.toString()] for an integer [z]. *)
Definition toString (z : Z) : string :=
  if (z <? 0)%Z then "-" +:+ nat_toString (Z.to_nat (- z))
  else nat_toString (Z.to_nat z).

(** [s.padStart(2, '0')]. *)
Definition padStart2 (s : string) : string :=
  match String.length s with
  | 0 => "00"
  | 1 => "0" +:+ s
  | _ => s
  end.

(** [Math.trunc], which [%] rounds the quotient with. *)
Definition Qtrunc (q : Q) : Z :=
  if Qle_bool 0 q then Qfloor q else (- Qfloor (- q))%Z.

(** [a % b] for a positive [b]. *)
Definition js_rem (a b : Q) : Q := (a - b * inject_Z (Qtrunc (a / b)))%Q.

(** The two prefixes [parseInt] strips: the sign, and the mark of base
    16. *)
Definition sign_of (s : string) : bool * string :=
  match s with
  | String "-" r => (true, r)
  | String "+" r => (false, r)
  | _ => (false, s)
  end.

Definition radix_of (s : string) : N * string :=
  match s with
  | String "0" (String "x" r) => (16%N, r)
  | String "0" (String "X" r) => (16%N, r)
  | _ => (10%N, s)
  end.

(** A decimal digit, and a string of decimal digits. *)
Definition is_dec (c : ascii) : bool :=
  (48 <=? nat_of_ascii c)%nat && (nat_of_ascii c <=? 57)%nat.

Fixpoint all_dec (s : string) : bool :=
  match s with
  | EmptyString => true
  | String c r => is_dec c && all_dec r
  end.

(** What [parse_digits] has accumulated, from [a], after the digits of
    [m]. *)
Fixpoint shift (fuel m : nat) (a : N) : N :=
  match fuel with
  | O => a
  | S fuel' =>
      if (m / 10 =? 0)%nat then (10 * a + N.of_nat (m mod 10))%N
      else (10 * shift fuel' (m / 10) a + N.of_nat (m mod 10))%N
  end.

End JSNumber.

(* ===================================================================== *)
(** ** Doubles                                                            *)
(* ===================================================================== *)

Module JSDouble.
Import JS.

(** [2^z], for an integer [z] of either sign. *)
Definition pow2 (z : Z) : Q := (2 ^ z)%Q.

(** The binary exponent of a positive number: [floor (log2 x)]. *)
Definition ilog2 (x : Q) : Z :=
  let e0 := (Z.log2 (Qnum x) - Z.log2 (Z.pos (Qden x)))%Z in
  if Qle_bool (pow2 e0) x then e0 else (e0 - 1)%Z.

(** The nearest integer, the even one of two that are as near. *)
Definition round_half_even (y : Q) : Z :=
  let f := Qfloor y in
  let r := (y - inject_Z f)%Q in
  if Qlt_bool r (1 # 2) then f
  else if Qlt_bool (1 # 2) r then (f + 1)%Z
  else if Z.even f then f else (f + 1)%Z.

(** The exponent of the last bit of the doubles around a positive number:
    52 bits below its binary exponent, and never below that of the
    smallest double, [2^-1074]. *)
Definition last_bit (x : Q) : Z := Z.max (ilog2 x - 52) (-1074).

(** The double nearest to a positive number. *)
Definition fl_pos (x : Q) : Q :=
  (inject_Z (round_half_even (x / pow2 (last_bit x))) * pow2 (last_bit x))%Q.

(** The double nearest to a number, as every arithmetic operation rounds
    its exact result: 53 significant bits, ties to the even significand.
    There is no largest double here: a result beyond it, which the
    operation rounds to an infinity, is out of the reach of the lengths,
    draws and constants the sources compute with. *)
Definition fl (x : Q) : Q :=
  if Qeq_bool x 0 then 0%Q
  else if Qlt_bool x 0 then (- fl_pos (- x))%Q
  else fl_pos x.

(** A number that is a double. *)
Definition is_double (x : Q) : Prop := (fl x == x)%Q.

(** [a * b], [a / b] and [a + b] on doubles. *)
Definition fmul (a b : Q) : Q := fl (a * b).
Definition fdiv (a b : Q) : Q := fl (a / b).
Definition fadd (a b : Q) : Q := fl (a + b).

End JSDouble.

(* ===================================================================== *)
(** ** The quiz generation route                                          *)
(* ===================================================================== *)

Module QuizRoute.
Import JS.

(** The object parsed from the generator's reply, by the properties the
    route reads; a property the object lacks reads [JUndefined]. *)
Record Quiz := mkQuiz {
  topic : jsval;
  difficulty : jsval;
  questions : jsval;
  options : jsval;
  correct_answers : jsval;
  explanations : jsval
}.

(** What is thrown; the numbers are the 1-based question numbers of the
    messages. *)
Inductive Error :=
| MissingApiKey
| RequestFailed
| GroqApiError (status : nat)
| NoContentReceived
| ParseFailure
| BadQuestionsArray
| BadOptionsArray
| BadCorrectAnswersArray
| BadExplanationsArray
| NotFourOptions (question : nat)
| InvalidAnswerIndex (question : nat) (value : jsval)
| TypeError.

Record LogEntry := mkLog {
  operation : string;
  data : list (string * jsval);
  error : option Error
}.

(** [logOperation]: one entry on the console; the timestamp is left out. *)
Definition logOperation (op : string) (d : list (string * jsval))
    (e : option Error) : LogEntry :=
  mkLog op d e.

(** How a call of the generator ends: the request fails, the response is
    not ok, the reply has no content, the content holds no JSON object or
    one that does not parse, or an object is parsed. *)
Inductive GroqReply :=
| FetchFails
| HttpNotOk (status : nat)
| NoContent
| NoJson
| Parsed (quiz : Quiz).

(** The environment: the key, and the generator as a function of what the
    prompt is built from. *)
Record Env := mkEnv {
  GROQ_API_KEY : option string;
  groq : string -> jsval -> jsval -> GroqReply
}.

(** What a run leaves behind: its value or what it threw, the log, and the
    number of requests sent to the generator. *)
Record Outcome (A : Type) := mkOutcome {
  value : Error + A;
  log : list LogEntry;
  fetches : nat
}.
Arguments mkOutcome {A} _ _ _.
Arguments value {A} _.
Arguments log {A} _.
Arguments fetches {A} _.

(** The correction of a numeric answer index of question [i] (0-based):
    the new index and the entry logged, or [None] when the index is kept. *)
Definition correction (i : nat) (c : Q) : option (Q * LogEntry) :=
  if Qle_bool 1 c && Qle_bool c 4 then
    Some ((c - 1)%Q,
          logOperation "API: Converting 1-based to 0-based index"
            [("question", JNum (of_nat (i + 1)));
             ("originalIndex", JNum c);
             ("adjustedIndex", JNum (c - 1)%Q)] None)
  else if Qlt_bool 3 c then
    Some (3%Q,
          logOperation "API: Clamping out-of-bounds answer index"
            [("question", JNum (of_nat (i + 1)));
             ("originalIndex", JNum c);
             ("clampedIndex", JNum 3)] None)
  else if Qlt_bool c 0 then
    Some (0%Q,
          logOperation "API: Clamping negative answer index"
            [("question", JNum (of_nat (i + 1)));
             ("originalIndex", JNum c);
             ("clampedIndex", JNum 0)] None)
  else None.

(** The final validation of the index of question [i]. *)
Definition final_validation (i : nat) (c : Q) (cas : list jsval)
    (lg : list LogEntry) : (Error + list jsval) * list LogEntry :=
  if Qlt_bool c 0 || Qlt_bool 3 c
  then (inl (InvalidAnswerIndex (i + 1) (JNum c)), lg)
  else (inr cas, lg).

(** One turn of the loop: the options of question [i] are checked, and
    [correct_answers[i]] is corrected in place; [cas] is the array
    [quiz.correct_answers] as the turns before left it. *)
Definition check_question (i : nat) (opts cas : list jsval)
    : (Error + list jsval) * list LogEntry :=
  match opts !! i with
  | Some (JArr row) =>
      if (length row =? 4)%nat then
        match cas !! i with
        | Some (JNum c) =>
            match correction i c with
            | Some (c', e) => final_validation i c' (<[i := JNum c']> cas) [e]
            | None => final_validation i c cas []
            end
        | Some v => (inl (InvalidAnswerIndex (i + 1) v), [])
        | None => (inl (InvalidAnswerIndex (i + 1) JUndefined), [])
        end
      else (inl (NotFourOptions (i + 1)), [])
  | _ => (inl (NotFourOptions (i + 1)), [])
  end.

(** [for (let i = 0; i < questionCount; i++)], from turn [i] on, with [n]
    turns left. *)
Fixpoint validate_from (n i : nat) (opts cas : list jsval)
    : (Error + list jsval) * list LogEntry :=
  match n with
  | O => (inr cas, [])
  | S n' =>
      match check_question i opts cas with
      | (inl e, lg) => (inl e, lg)
      | (inr cas', lg) =>
          let '(r, lg') := validate_from n' (S i) opts cas' in
          (r, lg ++ lg')
      end
  end.

(** [!a || !Array.isArray(a) || a.length !== questionCount], negated. *)
Definition array_of_length (a questionCount : jsval) : option (list jsval) :=
  match a with
  | JArr l => if strict_eq_num questionCount (of_nat (length l)) then Some l else None
  | _ => None
  end.

(** The validation of the parsed object.  When the loop is reached
    [questionCount] is the number [length qs], which bounds it. *)
Definition validate_quiz (quiz : Quiz) (questionCount : jsval)
    : (Error + Quiz) * list LogEntry :=
  match array_of_length (questions quiz) questionCount with
  | None => (inl BadQuestionsArray, [])
  | Some qs =>
  match array_of_length (options quiz) questionCount with
  | None => (inl BadOptionsArray, [])
  | Some opts =>
  match array_of_length (correct_answers quiz) questionCount with
  | None => (inl BadCorrectAnswersArray, [])
  | Some cas =>
  match array_of_length (explanations quiz) questionCount with
  | None => (inl BadExplanationsArray, [])
  | Some _ =>
      match validate_from (length qs) 0 opts cas with
      | (inl e, lg) => (inl e, lg)
      | (inr cas', lg) =>
          let quiz' := mkQuiz (topic quiz) (difficulty quiz) (questions quiz)
                              (options quiz) (JArr cas') (explanations quiz) in
          (inr quiz',
           lg ++ [logOperation "API: Quiz validation and correction completed"
                    [("questionsCount", JNum (of_nat (length qs)));
                     ("correctedAnswers", JArr cas');
                     ("topic", topic quiz);
                     ("difficulty", difficulty quiz)] None])
      end
  end end end end.

(** What follows the request, inside the [try]. *)
Definition handle_reply (reply : GroqReply) (questionCount : jsval)
    : (Error + Quiz) * list LogEntry :=
  match reply with
  | FetchFails => (inl RequestFailed, [])
  | HttpNotOk status =>
      (inl (GroqApiError status),
       [logOperation "API: Groq API error" [("status", JNum (of_nat status))] None])
  | NoContent => (inl NoContentReceived, [])
  | NoJson =>
      (inl ParseFailure,
       [logOperation "API: Groq API response received" [] None;
        logOperation "API: Error parsing JSON from Groq" [] None])
  | Parsed quiz =>
      let '(r, lg) := validate_quiz quiz questionCount in
      (r, logOperation "API: Groq API response received" [] None :: lg)
  end.

Definition generateQuizWithGroq (env : Env) (topic_ : string)
    (difficulty_ questionCount : jsval) : Outcome Quiz :=
  if truthy_str (GROQ_API_KEY env) then
    let started :=
      logOperation "API: Calling Groq API for quiz generation"
        [("topic", JStr topic_); ("difficulty", difficulty_);
         ("questionCount", questionCount)] None in
    match handle_reply (groq env topic_ difficulty_ questionCount) questionCount with
    | (inl e, lg) =>
        mkOutcome (inl e)
          (started :: lg ++ [logOperation "API: Error in generateQuizWithGroq" [] (Some e)])
          1
    | (inr quiz, lg) => mkOutcome (inr quiz) (started :: lg) 1
    end
  else mkOutcome (inl MissingApiKey) [] 0.

(** The body of a request, by the three properties read from it. *)
Record Body := mkBody {
  body_topic : jsval;
  body_difficulty : jsval;
  body_questionCount : jsval
}.

Inductive Response :=
| Json200 (quiz : Quiz)
| JsonError (status : nat) (message : string).

Record Handled := mkHandled {
  response : Response;
  handler_log : list LogEntry;
  model_calls : nat
}.

Section Handler.

Variable StringNumericValue : string -> Q.
Variable CompositeToNumber : jsval -> option Q.

Definition failed (lg : list LogEntry) (e : Error) (calls : nat) : Handled :=
  mkHandled (JsonError 500 "Failed to generate quiz. Please try again.")
            (lg ++ [logOperation "API: Error generating quiz" [] (Some e)])
            calls.

(** [POST]; [None] is a request whose body does not parse to something
    the three properties can be read from. *)
Definition POST (env : Env) (body : option Body) : Handled :=
  match body with
  | None => failed [] TypeError 0
  | Some b =>
      let topic_ := body_topic b in
      let difficulty_ := body_difficulty b in
      let questionCount := body_questionCount b in
      let received :=
        [logOperation "API: Quiz generation request received"
           [("topic", topic_); ("difficulty", difficulty_);
            ("questionCount", questionCount)] None] in
      if negb (truthy topic_) then
        mkHandled (JsonError 400 "Topic is required") received 0
      else
        match topic_ with
        | JStr s =>
            if String.eqb (trim s) "" then
              mkHandled (JsonError 400 "Topic is required") received 0
            else if negb (match difficulty_ with
                          | JStr d => String.eqb d "easy" || String.eqb d "medium"
                                      || String.eqb d "hard"
                          | _ => false
                          end) then
              mkHandled (JsonError 400 "Invalid difficulty level") received 0
            else if negb (truthy questionCount)
                    || js_lt StringNumericValue CompositeToNumber questionCount 1
                    || js_gt StringNumericValue CompositeToNumber questionCount 15 then
              mkHandled (JsonError 400 "Question count must be between 1 and 15")
                        received 0
            else
              let out := generateQuizWithGroq env (trim s) difficulty_ questionCount in
              match value out with
              | inr quiz =>
                  mkHandled (Json200 quiz)
                    (received ++ log out ++
                     [logOperation "API: Quiz generated successfully"
                        [("topic", topic quiz); ("difficulty", difficulty quiz);
                         ("questionCount",
                          match questions quiz with
                          | JArr l => JNum (of_nat (length l))
                          | _ => JUndefined
                          end)] None])
                    (fetches out)
              | inl e => failed (received ++ log out) e (fetches out)
              end
        | _ => failed received TypeError 0
        end
  end.

End Handler.

(** The entries the three corrections log. *)
Definition converted_entry (i : nat) (c : Q) : LogEntry :=
  logOperation "API: Converting 1-based to 0-based index"
    [("question", JNum (of_nat (i + 1))); ("originalIndex", JNum c);
     ("adjustedIndex", JNum (c - 1)%Q)] None.

Definition clamped_high_entry (i : nat) (c : Q) : LogEntry :=
  logOperation "API: Clamping out-of-bounds answer index"
    [("question", JNum (of_nat (i + 1))); ("originalIndex", JNum c);
     ("clampedIndex", JNum 3)] None.

Definition clamped_negative_entry (i : nat) (c : Q) : LogEntry :=
  logOperation "API: Clamping negative answer index"
    [("question", JNum (of_nat (i + 1))); ("originalIndex", JNum c);
     ("clampedIndex", JNum 0)] None.

(** What a turn of the loop did to the answer index [c] of question [j]:
    [c'] is the index it left, and the correction is in the log [lg]. *)
Definition corrected_as (j : nat) (c c' : Q) (lg : list LogEntry) : Prop :=
  (exists e, correction j c = Some (c', e) /\ In e lg)
  \/ (correction j c = None /\ c' = c).

(** A reply in the 1-based convention, with an index out of range. *)
Definition four : jsval := JArr [JStr "A"; JStr "B"; JStr "C"; JStr "D"].

Definition one_based_reply : Quiz :=
  mkQuiz (JStr "Photosynthesis") (JStr "medium")
         (JArr [JStr "q1"; JStr "q2"; JStr "q3"])
         (JArr [four; four; four])
         (JArr [JNum 4; JNum 7; JNum (-2)])
         (JArr [JStr "e1"; JStr "e2"; JStr "e3"]).

Definition one_based_env : Env := mkEnv (Some "key") (fun _ _ _ => Parsed one_based_reply).

Definition one_based_result : Quiz :=
  mkQuiz (JStr "Photosynthesis") (JStr "medium")
         (JArr [JStr "q1"; JStr "q2"; JStr "q3"])
         (JArr [four; four; four])
         (JArr [JNum 3; JNum 3; JNum 0])
         (JArr [JStr "e1"; JStr "e2"; JStr "e3"]).

End QuizRoute.

(* ===================================================================== *)
(** ** The quiz page                                                      *)
(* ===================================================================== *)

Module QuizPage.
Import JS JSNumber JSDouble.

(** [quizData]: a body the route answered with status 200, whose four
    arrays the route has validated. *)
Record QuizData := mkQuizData {
  questions : list jsval;
  options : list jsval;
  correct_answers : list jsval;
  explanations : list jsval
}.

(** The body of a response of the route, read as [quizData]. *)
Definition quizData_of (body : QuizRoute.Quiz) : option QuizData :=
  match QuizRoute.questions body, QuizRoute.options body,
        QuizRoute.correct_answers body, QuizRoute.explanations body with
  | JArr qs, JArr opts, JArr cas, JArr exps => Some (mkQuizData qs opts cas exps)
  | _, _, _, _ => None
  end.

Inductive Step := setup | quiz | results.

(** What the results view is given. *)
Record QuizResults := mkResults {
  score : option Q;
  correctAnswers : nat;
  totalQuestions : nat;
  stressScore : Z;
  result_questions : list jsval;
  result_userAnswers : list string;
  correctAnswerIndices : list jsval;
  result_explanations : list jsval
}.

(** The row inserted into the table [quizzes]. *)
Record QuizRow := mkRow {
  session_id : string;
  quiz_index : nat;
  row_questions : list jsval;
  row_options : list jsval;
  row_correct_answers : list jsval;
  user_answers : list (option Z);
  quiz_score : option Q;
  stress_score : Z;
  row_difficulty : string;
  row_explanations : list jsval
}.

(** The state of the page that [handleSubmitQuiz] reads and writes. *)
Record State := mkState {
  sessionId : option string;
  quizData : option QuizData;
  userAnswers : list string;
  difficulty : string;
  quizCount : nat;
  currentStep : Step;
  quizResults : option QuizResults
}.

(** [parseInt(answer) === correctAnswers[index]]. *)
Definition answer_matches (answer : string) (correct : option jsval) : bool :=
  match parseInt answer, correct with
  | Some n, Some (JNum q) => Qeq_bool (inject_Z n) q
  | _, _ => false
  end.

(** [userAnswers.forEach((answer, index) => ...)] from index [index] on:
    the number of increments of [correctCount]. *)
Fixpoint count_correct (index : nat) (answers : list string)
    (correct : list jsval) : nat :=
  match answers with
  | [] => 0
  | answer :: rest =>
      (if answer_matches answer (correct !! index) then 1 else 0)
      + count_correct (S index) rest correct
  end.

(** [(correctCount / quizData.questions.length) * 100], the quotient and
    the product each rounded to a double; [None] when there is no question,
    where the quotient is not a finite number. *)
Definition quizScore (correctCount total : nat) : option Q :=
  match total with
  | O => None
  | S _ => Some (fmul (fdiv (of_nat correctCount) (of_nat total)) 100)
  end.

(** [Math.floor(Math.random() * (90 - 60 + 1)) + 60] for the draw [random]
    of [Math.random()]: the product is rounded to a double before
    [Math.floor] is taken of it. *)
Definition stress_of_draw (random : Q) : Z :=
  (Qfloor (fmul random (90 - 60 + 1)) + 60)%Z.

Inductive Submission :=
| NotSubmitted
| Submitted (row : QuizRow) (st' : State).

(** A run of [handleSubmitQuiz], given the draw of [Math.random()], on the
    state [st] the page has when the button is clicked: the row it inserts,
    and the state [st'] with the results, the step and the count it sets
    once the insertion has settled.  Whether the insertion succeeds changes
    the log only. *)
Definition handleSubmitQuiz (random : Q) (st : State) : Submission :=
  match sessionId st, quizData st with
  | Some sid, Some qd =>
      if negb (String.eqb sid "") then
        let correct := correct_answers qd in
        let correctCount := count_correct 0 (userAnswers st) correct in
        let sc := quizScore correctCount (length (questions qd)) in
        let stress := stress_of_draw random in
        let row :=
          mkRow sid (quizCount st) (questions qd) (options qd) correct
                (map parseInt (userAnswers st)) sc stress (difficulty st)
                (explanations qd) in
        let res :=
          mkResults sc correctCount (length (questions qd)) stress
                    (questions qd) (userAnswers st) correct (explanations qd) in
        Submitted row
          (mkState (sessionId st) (quizData st) (userAnswers st) (difficulty st)
                   (quizCount st + 1) results (Some res))
      else NotSubmitted
  | _, _ => NotSubmitted
  end.

(** The results of a submission, when there is one. *)
Definition results_of (s : Submission) : option QuizResults :=
  match s with
  | Submitted _ st' => quizResults st'
  | NotSubmitted => None
  end.

Definition row_of (s : Submission) : option QuizRow :=
  match s with
  | Submitted row _ => Some row
  | NotSubmitted => None
  end.

(** Whether the answer at index [k] of [answers] matches. *)
Definition matches_at (answers : list string) (correct : list jsval) (k : nat) : bool :=
  match answers !! k with
  | Some a => answer_matches a (correct !! k)
  | None => false
  end.

(** The number of questions, among the [total] first, that the loop of
    [handleSubmitQuiz] counts. *)
Definition matching_count (answers : list string) (correct : list jsval)
    (total : nat) : nat :=
  length (List.filter (matches_at answers correct) (seq 0 total)).

(** The words of the specification.  The answer of the learner to a
    question is the index of an option, or none while the question is not
    answered; the page keeps it as the text [answer_text] gives.  The
    answer index equals the correct index when there is one and the correct
    index is that number. *)
Definition answer_text (selected : option nat) : string :=
  match selected with
  | Some k => nat_toString k
  | None => ""
  end.

Definition index_equals (selected : option nat) (correct : option jsval) : bool :=
  match selected, correct with
  | Some k, Some (JNum q) => Qeq_bool q (of_nat k)
  | _, _ => false
  end.

(** The number of questions, among the [total] first, whose answer index
    equals the correct index. *)
Definition spec_matching_questions (selected : list (option nat))
    (correct : list jsval) (total : nat) : nat :=
  length (List.filter (fun i =>
            match selected !! i with
            | Some s => index_equals s (correct !! i)
            | None => false
            end) (seq 0 total)).

(** The number of questions, among the [total] first, whose correct index
    is 0. *)
Definition spec_zero_indexed (correct : list jsval) (total : nat) : nat :=
  length (List.filter (fun i => strict_eq_num (default JUndefined (correct !! i)) 0)
                      (seq 0 total)).

(** Five questions, all answered with the first option. *)
Definition five_questions : QuizData :=
  mkQuizData [JStr "q1"; JStr "q2"; JStr "q3"; JStr "q4"; JStr "q5"]
             [JArr []; JArr []; JArr []; JArr []; JArr []]
             [JNum 0; JNum 2; JNum 0; JNum 3; JNum 1]
             [JStr "e1"; JStr "e2"; JStr "e3"; JStr "e4"; JStr "e5"].

Definition all_zero_state : State :=
  mkState (Some "aaab3eb6") (Some five_questions) ["0"; "0"; "0"; "0"; "0"]
          "medium" 0 quiz None.

End QuizPage.

(* ===================================================================== *)
(** ** The chat store and the message view                                *)
(* ===================================================================== *)

Module ChatStore.
Import JS.

Inductive MessageType := user | assistant.

Definition MessageType_eqb (a b : MessageType) : bool :=
  match a, b with
  | user, user | assistant, assistant => true
  | _, _ => false
  end.

(** An entry [{start, end, text}] of a timing map. *)
Record Timing := mkTiming {
  t_start : Q;
  t_end : Q;
  t_text : string
}.

Record ImageData := mkImageData {
  image_url : option string;
  image_type : option string;
  svg_code : option string;
  image_explanations : list (string * string * Z)
}.

(** [timestamp] is [getTime()] of the date, in milliseconds; [None] for an
    invalid date. *)
Record ChatMessage := mkMessage {
  id : string;
  type : MessageType;
  content : string;
  timestamp : option Z;
  audioUrl : option string;
  ttsTimings : option (list Timing);
  sentiment : option string;
  query_id : option string;
  main_response : option string;
  simplified_response : option string;
  detailed_response : option string;
  tinyllama_response : option string;
  image_data : option ImageData
}.

Record ChatSession := mkSession {
  session_id : string;
  title : string;
  messages : list ChatMessage;
  createdAt : option Z
}.

Record ChatState := mkChatState {
  currentSession : option ChatSession;
  sessions : list ChatSession;
  language : string;
  isVoiceSidebarOpen : bool;
  isImageSidebarOpen : bool;
  isSidebarMinimized : bool;
  currentPlayingAudio : option string;
  isCreatingSession : bool
}.

(** [Math.abs(a.getTime() - b.getTime()) < 1000]. *)
Definition within_second (a b : option Z) : bool :=
  match a, b with
  | Some x, Some y => (Z.abs (x - y) <? 1000)%Z
  | _, _ => false
  end.

(** The test of [some] in [addMessage]: [msg], already in the session,
    makes [message] a duplicate. *)
Definition duplicates (message msg : ChatMessage) : bool :=
  String.eqb (id msg) (id message)
  || (String.eqb (content msg) (content message)
      && MessageType_eqb (type msg) (type message)
      && within_second (timestamp msg) (timestamp message)).

Definition isDuplicate (message : ChatMessage) (cs : ChatSession) : bool :=
  existsb (duplicates message) (messages cs).

(** [set({currentSession, sessions})]. *)
Definition set_sessions (cur : option ChatSession) (ss : list ChatSession)
    (st : ChatState) : ChatState :=
  mkChatState cur ss (language st) (isVoiceSidebarOpen st) (isImageSidebarOpen st)
              (isSidebarMinimized st) (currentPlayingAudio st) (isCreatingSession st).

(** The request [sendToBackend] that [addMessage] starts for a user message:
    the message, and the session the closure holds. *)
Record BackendJob := mkJob {
  job_message : ChatMessage;
  job_session : ChatSession
}.

(** [addMessage]: the state it leaves, and the request it starts, if any. *)
Definition addMessage (message : ChatMessage) (st : ChatState)
    : ChatState * option BackendJob :=
  match currentSession st with
  | None => (st, None)
  | Some cs =>
      if isDuplicate message cs then (st, None)
      else
        let updatedSession :=
          mkSession (session_id cs) (title cs) (messages cs ++ [message])
                    (createdAt cs) in
        let st' :=
          set_sessions (Some updatedSession)
            (map (fun s => if String.eqb (session_id s) (session_id cs)
                           then updatedSession else s) (sessions st))
            st in
        (st',
         if MessageType_eqb (type message) user
            && negb (String.eqb (trim (content message)) "")
            && negb (truthy_str (query_id message))
         then Some (mkJob message cs) else None)
  end.

Definition newline : ascii := "010"%char.

(** [replace(/\n\n\n+/g, '\n\n')]: of a run of line feeds the first two are
    kept; [run] counts the line feeds just read. *)
Fixpoint collapse_newlines (run : nat) (s : string) : string :=
  match s with
  | EmptyString => EmptyString
  | String c s' =>
      if Ascii.eqb c newline then
        if (run <? 2)%nat then String c (collapse_newlines (S run) s')
        else collapse_newlines (S run) s'
      else String c (collapse_newlines 0 s')
  end.

Definition cleanMarkdown (text : string) : string :=
  if String.eqb text "" then "" else trim (collapse_newlines 0 text).

(** The answer of [askQuestion], by the properties [sendToBackend] reads. *)
Record AskResponse := mkAsk {
  ask_query_id : option string;
  sentiment_label : option string;
  ask_main_response : option string;
  ask_simplified_response : option string;
  ask_detailed_response : option string;
  ask_tinyllama_response : option string;
  ask_image_data : option ImageData
}.

Definition clean_if_present (o : option string) : option string :=
  if truthy_str o then option_map cleanMarkdown o else None.

(** The message built from an answer that has a main response; [now] is
    [new Date()] and [uuid] the value of [uuidv4()]. *)
Definition assistantMessage (r : AskResponse) (now : Z) (uuid : string)
    : option ChatMessage :=
  if truthy_str (ask_main_response r) then
    Some (mkMessage
            (default uuid (or_else (ask_query_id r) (Some uuid)))
            assistant
            (cleanMarkdown
               (default "" (or_else (ask_simplified_response r) (ask_main_response r))))
            (Some now)
            None
            None
            (sentiment_label r)
            (ask_query_id r)
            (Some (cleanMarkdown (default "" (ask_main_response r))))
            (clean_if_present (ask_simplified_response r))
            (clean_if_present (ask_detailed_response r))
            (clean_if_present (ask_tinyllama_response r))
            (ask_image_data r))
  else None.

(** The end of [sendToBackend]: the assistant message is added. *)
Definition receive_answer (r : AskResponse) (now : Z) (uuid : string)
    (st : ChatState) : ChatState :=
  match assistantMessage r now uuid with
  | Some m => fst (addMessage m st)
  | None => st
  end.

(** *** The message view *)

Definition opt_string_eqb (a b : option string) : bool :=
  match a, b with
  | Some x, Some y => String.eqb x y
  | None, None => true
  | _, _ => false
  end.

Definition hasDetailedResponse (message : ChatMessage) : bool :=
  truthy_str (detailed_response message)
  && negb (opt_string_eqb (detailed_response message) (main_response message))
  && negb (opt_string_eqb (detailed_response message) (simplified_response message)).

(** [contentToRender] of the view, [showDetailed] being the state of the
    toggle, which starts at [false]. *)
Definition contentToRender (message : ChatMessage) (showDetailed : bool) : string :=
  if MessageType_eqb (type message) assistant && hasDetailedResponse message then
    default ""
      (or_else
         (if showDetailed then detailed_response message
          else or_else (main_response message) (simplified_response message))
         (Some ""))
  else
    default ""
      (or_else
         (or_else (or_else (main_response message) (simplified_response message))
                  (Some (content message)))
         (Some "")).

(** What the view shows first. *)
Definition displayed_first (message : ChatMessage) : string :=
  contentToRender message false.

(** A duplicate, in words: [msg] has the id of [message], or its content
    and type with a timestamp less than 1000 ms away. *)
Definition is_duplicate_of (message msg : ChatMessage) : Prop :=
  id msg = id message
  \/ (content msg = content message /\ type msg = type message
      /\ exists a b, timestamp msg = Some a /\ timestamp message = Some b
                     /\ (Z.abs (a - b) < 1000)%Z).

(** *** Examples *)

Definition hello : ChatMessage :=
  mkMessage "m1" user "What is entropy?" (Some 1700000000000%Z)
            None None None None None None None None None.

(** The same text, sent again 400 ms later under another id. *)
Definition hello_again : ChatMessage :=
  mkMessage "m2" user "What is entropy?" (Some 1700000000400%Z)
            None None None None None None None None None.

Definition one_message_session : ChatSession :=
  mkSession "s1" "New Chat" [hello] (Some 1699999999000%Z).

Definition one_message_store : ChatState :=
  mkChatState (Some one_message_session) [one_message_session] "en"
              false false false None false.

(** An answer to a learner whose affect is negative. *)
Definition negative_answer : AskResponse :=
  mkAsk (Some "q-17") (Some "NEGATIVE") (Some "Main answer")
        (Some "Simple answer") (Some "Detailed answer") None None.

Definition with_sentiment (label : option string) (r : AskResponse) : AskResponse :=
  mkAsk (ask_query_id r) label (ask_main_response r) (ask_simplified_response r)
        (ask_detailed_response r) (ask_tinyllama_response r) (ask_image_data r).

End ChatStore.

(* ===================================================================== *)
(** ** The voice sidebar                                                  *)
(* ===================================================================== *)

Module VoiceSidebar.
Import JS JSDouble ChatStore.

Record VoiceExplanation := mkVoice {
  voice_text : string;
  timings : list Timing;
  voice_audioUrl : string
}.

(** The data of a response of the voice endpoints. *)
Record VoiceResponse := mkVoiceResponse {
  audio_url : option string;
  response_error : option string;
  tts_timings : option (list Timing);
  response_timings : option (list Timing)
}.

(** A request to the back end, as the sidebar sends it. *)
Inductive ApiCall :=
| GetAudio (queryId : string) (sessionId : option string)
| GenerateVoice (text language voiceName : string)
                (sessionId : option string) (queryId : string).

Definition is_synthesis (c : ApiCall) : bool :=
  match c with
  | GenerateVoice _ _ _ _ _ => true
  | GetAudio _ _ => false
  end.

(** The state of the component that [generateVoiceExplanation] sets. *)
Record Sidebar := mkSidebar {
  voiceExplanation : option VoiceExplanation;
  cachedExplanations : gmap string VoiceExplanation;
  isLoading : bool;
  error : option string
}.

(** [String.prototype.includes]. *)
Fixpoint includes (s sub : string) : bool :=
  String.prefix sub s
  || match s with
     | EmptyString => false
     | String _ s' => includes s' sub
     end.

(** [s.replace(pat, rep)] for a string [pat]: the first occurrence. *)
Fixpoint replace_first (pat rep s : string) : string :=
  if String.prefix pat s then
    rep +:+ String.substring (String.length pat) (String.length s - String.length pat) s
  else
    match s with
    | EmptyString => EmptyString
    | String c s' => String c (replace_first pat rep s')
    end.

(** [text.split('.')]. *)
Fixpoint split_dot (s : string) : list string :=
  match s with
  | EmptyString => [EmptyString]
  | String c s' =>
      match split_dot s' with
      | [] => [String c EmptyString]
      | h :: t => if Ascii.eqb c "." then EmptyString :: h :: t else String c h :: t
      end
  end.

(** The sentences shown with the audio. *)
Definition sentences_of (textToVoice : string) : list string :=
  map (fun sentence => trim sentence +:+ ".")
      (List.filter (fun sentence => (0 <? String.length (trim sentence))%nat)
                   (split_dot textToVoice)).

(** The estimate: 50 ms a character, [startTime] running through the
    sentences.  The literal [0.05] is the double nearest to 5/100, and the
    product and the sums are those of the doubles. *)
Fixpoint estimate_timings (startTime : Q) (sentences : list string) : list Timing :=
  match sentences with
  | [] => []
  | sentence :: rest =>
      let duration := fmul (of_nat (String.length sentence)) (fl (5 # 100)) in
      mkTiming startTime (fadd startTime duration) sentence
      :: estimate_timings (fadd startTime duration) rest
  end.

Definition non_empty (o : option (list Timing)) : option (list Timing) :=
  match o with
  | Some (_ :: _) => o
  | _ => None
  end.

(** The timing map of an explanation: the map of the response when it has
    one, the estimate otherwise. *)
Definition timings_of (response : VoiceResponse) (textToVoice : string) : list Timing :=
  match non_empty (tts_timings response) with
  | Some tm => tm
  | None =>
      match non_empty (response_timings response) with
      | Some tm => tm
      | None => estimate_timings 0 (sentences_of textToVoice)
      end
  end.

(** The message set for an error caught. *)
Definition error_message (message : string) : string :=
  if includes message "400" then
    "Text is too long or invalid for voice generation. Please try with shorter content."
  else if includes message "401" then
    "Authentication failed. Please refresh the page and try again."
  else if includes message "500" then
    "Voice generation service is temporarily unavailable. Please try again in a moment."
  else if includes message "timeout" then
    "Voice generation timed out. The content might be too long."
  else "Voice generation failed: " +:+ message.

(** The last assistant message of a session. *)
Definition lastAssistantMessage (cs : ChatSession) : option ChatMessage :=
  List.find (fun msg => MessageType_eqb (type msg) assistant) (rev (messages cs)).

(** [message.query_id || message.id]. *)
Definition cacheKey (message : ChatMessage) : option string :=
  or_else (query_id message) (Some (id message)).

(** The result of a request: rejected with an error of that message, or
    resolved with the data of the response. *)
Inductive ApiResult :=
| Rejects (message : string)
| Resolves (response : VoiceResponse).

(** What a run of [generateVoiceExplanation] leaves: the component, the
    explanation it called [setVoiceExplanation] with, if it did, the back
    end, and the requests sent, in order. *)
Record Run (Backend : Type) := mkRun {
  sidebar : Sidebar;
  applied : option VoiceExplanation;
  backend : Backend;
  calls : list ApiCall
}.
Arguments mkRun {Backend} _ _ _ _.
Arguments sidebar {Backend} _.
Arguments applied {Backend} _.
Arguments backend {Backend} _.
Arguments calls {Backend} _.

Section Component.

(** The back end, with its state; [getAudioByQueryId] may also resolve
    with no data.  [generateVoice] resolves with an object. *)
Variable Backend : Type.
Variable getAudioByQueryId :
  string -> option string -> Backend -> (string + option VoiceResponse) * Backend.
Variable generateVoice :
  string -> string -> string -> option string -> string -> Backend
  -> ApiResult * Backend.

(** [window.location.origin] and [window.location.port]. *)
Variable origin port : string.

Definition convertToBackendURL (url : string) : string :=
  if negb (String.eqb url "") && startsWith url "/api/" then
    replace_first (":" +:+ port) ":8000" origin +:+ url
  else url.

Definition set_error (msg : string) (sb : Sidebar) : Sidebar :=
  mkSidebar (voiceExplanation sb) (cachedExplanations sb) (isLoading sb) (Some msg).

(** The [catch] and the [finally] of the function. *)
Definition caught (message : string) (sb : Sidebar) : Sidebar :=
  mkSidebar (voiceExplanation sb) (cachedExplanations sb) false
            (Some (error_message message)).

(** [currentSessionNow?.id === sessionIdAtStart]. *)
Definition same_session (sessionNow : option ChatSession) (sessionIdAtStart : string)
    : bool :=
  match sessionNow with
  | Some now_ => String.eqb (session_id now_) sessionIdAtStart
  | None => false
  end.

(** The end of the [try]: the response is checked, the explanation built,
    and applied if the store still holds the session the run started with;
    [sessionNow] is [useChatStore.getState().currentSession] at that
    point. *)
Definition apply_response (response : VoiceResponse) (textToVoice : string)
    (message : ChatMessage) (sessionIdAtStart : string)
    (sessionNow : option ChatSession) (sb : Sidebar)
    : Sidebar * option VoiceExplanation :=
  if truthy_str (response_error response) then
    (caught ("API Error: " +:+ default "" (response_error response)) sb, None)
  else if negb (truthy_str (audio_url response)) then
    (caught "No audio URL returned from API" sb, None)
  else
    let timings_ := timings_of response textToVoice in
    let audioUrl_ := convertToBackendURL (default "" (audio_url response)) in
    if same_session sessionNow sessionIdAtStart then
      let newVoiceExplanation := mkVoice textToVoice timings_ audioUrl_ in
      (mkSidebar (Some newVoiceExplanation)
         (match cacheKey message with
          | Some k =>
              if negb (String.eqb k "")
              then <[k := newVoiceExplanation]> (cachedExplanations sb)
              else cachedExplanations sb
          | None => cachedExplanations sb
          end)
         false None,
       Some newVoiceExplanation)
    else
      (mkSidebar (voiceExplanation sb) (cachedExplanations sb) false None, None).

(** The cached explanation of a message, if there is one:
    [cacheKey && cachedExplanations[cacheKey]], the map holding the own
    properties of the object. *)
Definition cached (message : ChatMessage) (sb : Sidebar) : option VoiceExplanation :=
  match cacheKey message with
  | Some k => if negb (String.eqb k "") then cachedExplanations sb !! k else None
  | None => None
  end.

(** The requests of a run that misses the cache: the stored audio is asked
    for when the message has a query id, and the voice is generated when
    that gave no audio.  [freshId] stands for [`msg_${Date.now()}`]. *)
Definition request_audio (message : ChatMessage) (textToVoice : string)
    (sessionId : option string) (freshId : string) (b : Backend)
    : ApiResult * Backend * list ApiCall :=
  let queryId :=
    default freshId (or_else (or_else (query_id message) (Some (id message)))
                             (Some freshId)) in
  let '(existing, b1, sent) :=
    match query_id message with
    | Some q =>
        if negb (String.eqb q "") then
          match getAudioByQueryId q sessionId b with
          | (inr data, b') => (data, b', [GetAudio q sessionId])
          | (inl _, b') => (None, b', [GetAudio q sessionId])
          end
        else (None, b, [])
    | None => (None, b, [])
    end in
  match existing with
  | Some response =>
      if truthy_str (audio_url response) then (Resolves response, b1, sent)
      else
        let '(r, b2) :=
          generateVoice textToVoice "en-US" "en-US-Wavenet-D" sessionId queryId b1 in
        (r, b2, sent ++ [GenerateVoice textToVoice "en-US" "en-US-Wavenet-D"
                                       sessionId queryId])
  | None =>
      let '(r, b2) :=
        generateVoice textToVoice "en-US" "en-US-Wavenet-D" sessionId queryId b1 in
      (r, b2, sent ++ [GenerateVoice textToVoice "en-US" "en-US-Wavenet-D"
                                     sessionId queryId])
  end.

(** [generateVoiceExplanation], run to its end.  [currentSession] is the
    session the closure holds, [sb] the state of the component it holds,
    and [sessionNow] the session of the store when the response has
    arrived. *)
Definition generateVoiceExplanation (currentSession : option ChatSession)
    (sessionNow : option ChatSession) (freshId : string)
    (sb : Sidebar) (b : Backend) : Run Backend :=
  match currentSession with
  | None => mkRun (set_error "No messages to explain" sb) None b []
  | Some cs =>
      match messages cs with
      | [] => mkRun (set_error "No messages to explain" sb) None b []
      | _ :: _ =>
          let sessionIdAtStart := session_id cs in
          match lastAssistantMessage cs with
          | None => mkRun (set_error "No assistant messages to explain" sb) None b []
          | Some message =>
              if negb (truthy_str (detailed_response message)) then
                mkRun (mkSidebar (voiceExplanation sb) (cachedExplanations sb) false
                         (Some "Voice explanations are only available for detailed responses. Please toggle to detailed view first."))
                      None b []
              else
                let textToVoice := default "" (detailed_response message) in
                match cached message sb with
                | Some ve =>
                    mkRun (mkSidebar (Some ve) (cachedExplanations sb) false None)
                          (Some ve) b []
                | None =>
                    match request_audio message textToVoice (Some sessionIdAtStart)
                                        freshId b with
                    | (Rejects msg, b', sent) =>
                        mkRun (caught msg
                                 (mkSidebar (voiceExplanation sb) (cachedExplanations sb)
                                            true None))
                              None b' sent
                    | (Resolves response, b', sent) =>
                        let '(sb', ve) :=
                          apply_response response textToVoice message
                            sessionIdAtStart sessionNow
                            (mkSidebar (voiceExplanation sb) (cachedExplanations sb)
                                       true None) in
                        mkRun sb' ve b' sent
                    end
                end
          end
      end
  end.

(** The number of syntheses a run asked for. *)
Definition syntheses (r : Run Backend) : nat :=
  length (List.filter is_synthesis (calls r)).

End Component.

Arguments syntheses {Backend} _.


(** A back end that keeps its audio: [Stored b q u] says that in the state
    [b] the audio [u] is stored for the query id [q].  Audio generated for
    a query id is stored for it, audio fetched by a query id is the audio
    stored for it, and audio stored for a query id is what fetching by that
    id answers. *)
Definition keeps_audio {Backend : Type}
    (getAudioByQueryId :
       string -> option string -> Backend -> (string + option VoiceResponse) * Backend)
    (generateVoice :
       string -> string -> string -> option string -> string -> Backend
       -> ApiResult * Backend)
    (Stored : Backend -> string -> string -> Prop) : Prop :=
  (forall text language voice sid q b r b' u,
     generateVoice text language voice sid q b = (Resolves r, b') ->
     audio_url r = Some u -> u <> "" -> Stored b' q u)
  /\ (forall q sid b r b' u,
        getAudioByQueryId q sid b = (inr (Some r), b') ->
        audio_url r = Some u -> u <> "" -> Stored b' q u)
  /\ (forall q sid b u,
        Stored b q u ->
        exists r b', getAudioByQueryId q sid b = (inr (Some r), b')
                     /\ audio_url r = Some u /\ u <> ""
                     /\ truthy_str (response_error r) = false).

(** The explanation cached for [q], if any, is of audio stored for [q]. *)
Definition cache_backed {Backend : Type} (Stored : Backend -> string -> string -> Prop)
    (origin port : string) (sb : Sidebar) (b : Backend) (q : string) : Prop :=
  forall ve, cachedExplanations sb !! q = Some ve ->
             exists u, Stored b q u
                       /\ voice_audioUrl ve = convertToBackendURL origin port u.

(** *** Examples *)

Definition silent_response : VoiceResponse :=
  mkVoiceResponse (Some "/api/audio/q-17.mp3") None None None.

(** *** A session with one answered question *)

Definition asked : ChatMessage :=
  mkMessage "m1" user "What is entropy?" (Some 1700000000000%Z)
            None None (Some "NEUTRAL") None None None None None None.

Definition answered : ChatMessage :=
  mkMessage "q-17" assistant "Short." (Some 1700000003000%Z)
            None None (Some "NEUTRAL") (Some "q-17") (Some "Main.")
            (Some "Short.") (Some "One. Two.") None None.

Definition voice_session : ChatSession :=
  mkSession "s1" "Entropy" [asked; answered] (Some 1699999999000%Z).

Definition other_session : ChatSession :=
  mkSession "s2" "Photosynthesis" [] (Some 1700000001000%Z).

Definition fresh_sidebar : Sidebar := mkSidebar None ∅ false None.



Definition no_generation (text language voice : string) (sid : option string)
    (q : string) (b : unit) : ApiResult * unit :=
  (Rejects "500", b).

(** A back end with no audio stored, that generates it. *)
Definition nothing_stored (q : string) (sid : option string) (b : unit)
    : (string + option VoiceResponse) * unit :=
  (inl "Request failed with status code 404", b).

Definition generates (text language voice : string) (sid : option string)
    (q : string) (b : unit) : ApiResult * unit :=
  (Resolves (mkVoiceResponse (Some ("/api/audio/" +:+ q +:+ ".mp3")) None None None), b).

(** *** A back end that keeps the audio it generates *)

Definition store_get (q : string) (sid : option string) (b : gmap string string)
    : (string + option VoiceResponse) * gmap string string :=
  match b !! q with
  | Some u => (inr (Some (mkVoiceResponse (Some u) None None None)), b)
  | None => (inl "Request failed with status code 404", b)
  end.

Definition store_generate (text language voice : string) (sid : option string)
    (q : string) (b : gmap string string) : ApiResult * gmap string string :=
  let u := "/api/audio/" +:+ q +:+ ".mp3" in
  (Resolves (mkVoiceResponse (Some u) None None None), <[q := u]> b).

Definition store_has (b : gmap string string) (q u : string) : Prop :=
  b !! q = Some u /\ u <> "".

End VoiceSidebar.

(* ===================================================================== *)
(** ** The quiz page: taking the quiz                                     *)
(* ===================================================================== *)

Module QuizPageNav.
Import JS JSNumber QuizPage.

(** The page, with the question shown. *)
Record Page := mkPage {
  state : State;
  currentQuestionIndex : nat
}.

Definition fixedSessionId : string := "aaab3eb6-af0c-4779-bde4-8c279a677f55".

Definition with_answers (answers : list string) (st : State) : State :=
  mkState (sessionId st) (quizData st) answers (difficulty st) (quizCount st)
          (currentStep st) (quizResults st).

(** [handleAnswerSelect(answerIndex)]: the answer of the question shown is
    set.  Past the end of [userAnswers] the assignment would leave holes in
    the array, which a list of strings does not hold: [None]. *)
Definition handleAnswerSelect (answerIndex : nat) (p : Page) : option Page :=
  let answers := userAnswers (state p) in
  if (currentQuestionIndex p <? length answers)%nat then
    Some (mkPage (with_answers (<[currentQuestionIndex p := nat_toString answerIndex]> answers)
                               (state p))
                 (currentQuestionIndex p))
  else None.

(** [handleNextQuestion]; with no quiz the handler throws and the page
    stays as it is. *)
Definition handleNextQuestion (p : Page) : Page :=
  match quizData (state p) with
  | Some qd =>
      if (currentQuestionIndex p + 1 <? length (questions qd))%nat
      then mkPage (state p) (currentQuestionIndex p + 1)
      else p
  | None => p
  end.

Definition handlePreviousQuestion (p : Page) : Page :=
  if (0 <? currentQuestionIndex p)%nat
  then mkPage (state p) (currentQuestionIndex p - 1)
  else p.

(** [generateQuiz], [reply] being the body of the response of the route,
    or [None] when the request failed. *)
Definition generateQuiz (reply : option QuizData) (p : Page) : Page :=
  let st := state p in
  let sid := if truthy_str (sessionId st) then sessionId st else Some fixedSessionId in
  match reply with
  | Some generatedQuiz =>
      mkPage (mkState sid (Some generatedQuiz)
                      (replicate (length (questions generatedQuiz)) "")
                      (difficulty st) (quizCount st) quiz (quizResults st))
             0
  | None =>
      mkPage (mkState sid (quizData st) (userAnswers st) (difficulty st)
                      (quizCount st) (currentStep st) (quizResults st))
             (currentQuestionIndex p)
  end.

Definition handleGenerateAnother (p : Page) : Page :=
  let st := state p in
  mkPage (mkState (sessionId st) None [] (difficulty st) (quizCount st) setup None) 0.

(** [handleSubmitQuiz] on the page, in two steps.  The click starts a run
    on the state the page has then: the run computes its row and its
    results from that state and awaits the insertion, and the page is as
    it was, with the button that submits still enabled.  When the insertion
    has settled the run sets the results, the step and the count it
    computed at the click, in the page as it is by then. *)
Definition settleSubmit (s : Submission) (p : Page) : Page :=
  match s with
  | Submitted _ st' =>
      let st := state p in
      mkPage (mkState (sessionId st) (quizData st) (userAnswers st) (difficulty st)
                      (quizCount st') (currentStep st') (quizResults st'))
             (currentQuestionIndex p)
  | NotSubmitted => p
  end.

(** The number of questions answered, as the page shows it. *)
Definition answered (st : State) : nat :=
  length (List.filter (fun a => negb (String.eqb a "")) (userAnswers st)).

(** The button that submits is enabled when every question is answered. *)
Definition submit_enabled (p : Page) : bool :=
  match quizData (state p) with
  | Some qd => (answered (state p) =? length (questions qd))%nat
  | None => false
  end.

(** What the handlers keep: the answers are as many as the questions, and
    the question shown is one of them. *)
Definition well_formed (p : Page) : Prop :=
  forall qd, quizData (state p) = Some qd ->
    length (userAnswers (state p)) = length (questions qd)
    /\ (currentQuestionIndex p < length (questions qd)
        \/ (questions qd = [] /\ currentQuestionIndex p = 0))%nat.

(** What happens on the page: what the learner does, and the insertion of
    a submission settling.  [Submit random] is the click that starts a run
    of [handleSubmitQuiz]; [Settles random clicked] is the insertion
    settling for the run that was started on the state [clicked] with the
    draw [random]. *)
Inductive Action :=
| Generate (reply : option QuizData)
| Select (answerIndex : nat)
| Next
| Previous
| Submit (random : Q)
| Settles (random : Q) (clicked : State)
| Another.

Definition act (a : Action) (p : Page) : option Page :=
  match a with
  | Generate reply => Some (generateQuiz reply p)
  | Select k => handleAnswerSelect k p
  | Next => Some (handleNextQuestion p)
  | Previous => Some (handlePreviousQuestion p)
  | Submit random => Some p
  | Settles random clicked => Some (settleSubmit (handleSubmitQuiz random clicked) p)
  | Another => Some (handleGenerateAnother p)
  end.

(** The actions one after the other. *)
Fixpoint run (actions : list Action) (p : Page) : option Page :=
  match actions with
  | [] => Some p
  | a :: rest =>
      match act a p with
      | Some p' => run rest p'
      | None => None
      end
  end.

Definition is_submit (a : Action) : bool :=
  match a with
  | Submit _ => true
  | Settles _ _ => true
  | _ => false
  end.

(** An option of the question shown can be selected when the quiz has
    questions. *)
Definition selectable (p : Page) : Prop :=
  exists qd, quizData (state p) = Some qd /\ questions qd <> [].

(** The page as it is first shown. *)
Definition initial_page (sid : option string) (level : string) (count : nat) : Page :=
  mkPage (mkState sid None [] level count setup None) 0.

(** *** Examples *)

Definition two_questions : QuizData :=
  mkQuizData [JStr "q1"; JStr "q2"]
             [JArr [JStr "a"; JStr "b"; JStr "c"; JStr "d"];
              JArr [JStr "a"; JStr "b"; JStr "c"; JStr "d"]]
             [JNum 2; JNum 0]
             [JStr "e1"; JStr "e2"].

Definition first_page : Page := initial_page (Some "aaab3eb6") "medium" 3.

Definition quiz_page : Page := generateQuiz (Some two_questions) first_page.

(** Both questions answered with their correct option. *)
Definition answered_page : Page :=
  mkPage (with_answers ["2"; "0"] (state quiz_page)) 1.

End QuizPageNav.

(* ===================================================================== *)
(** ** The quiz page: opening it                                          *)
(* ===================================================================== *)

Module QuizPageInit.
Import JS JSNumber QuizPage QuizPageNav.

(** The data of the query [initializeQuiz] makes on the table of quizzes:
    the indices of the rows of the session, the highest first, and of
    these the first. *)
Definition latest_quiz_index (sid : string) (quizzes : list QuizRow) : list nat :=
  match map quiz_index (List.filter (fun row => String.eqb (session_id row) sid) quizzes) with
  | [] => []
  | i :: rest => [fold_left Nat.max rest i]
  end.

(** The page when [initializeQuiz] has run; [urlSessionId] is
    [searchParams.get('sessionId')], and [quizzes] the data of the query,
    [None] when it gave none or failed. *)
Definition initializeQuiz (urlSessionId : option string) (quizzes : option (list nat))
    : Page :=
  let sid := default fixedSessionId (or_else urlSessionId (Some fixedSessionId)) in
  mkPage (mkState (Some sid) None [] "medium"
                  (match quizzes with
                   | Some (latest :: _) => latest + 1
                   | _ => 0
                   end)%nat
                  setup None)
         0.

(** The table after the insertion of [handleSubmitQuiz], which may fail. *)
Definition insert_row (saved : bool) (row : QuizRow) (quizzes : list QuizRow)
    : list QuizRow :=
  if saved then quizzes ++ [row] else quizzes.

(** *** Examples *)

Definition saved_row (i : nat) : QuizRow :=
  mkRow "s-1" i [] [] [] [] None 60 "medium" [].

Definition other_row : QuizRow :=
  mkRow "s-2" 7 [] [] [] [] None 60 "medium" [].

Definition table : list QuizRow := [saved_row 0; other_row; saved_row 1].

End QuizPageInit.

(* ===================================================================== *)
(** ** The quiz route: what it accepts                                    *)
(* ===================================================================== *)

Module QuizRouteShape.
Import JS QuizRoute.

(** The replies the validation lets through, read off its checks: the
    count is the number [n], the four properties are arrays of [n]
    entries, every row of options is an array of 4, and every answer index
    is a number. *)
Definition acceptable (quiz : Quiz) (questionCount : jsval) : Prop :=
  exists (n : nat) (qs opts cas exps : list jsval),
    strict_eq_num questionCount (of_nat n) = true
    /\ questions quiz = JArr qs /\ length qs = n
    /\ options quiz = JArr opts /\ length opts = n
    /\ correct_answers quiz = JArr cas /\ length cas = n
    /\ explanations quiz = JArr exps /\ length exps = n
    /\ (forall i row, opts !! i = Some row ->
          exists items, row = JArr items /\ length items = 4%nat)
    /\ (forall i v, cas !! i = Some v -> exists c, v = JNum c).

(** The messages of the responses of [POST] that are errors. *)
Definition generic_failure : string := "Failed to generate quiz. Please try again.".

Definition rejection_messages : list string :=
  ["Topic is required"; "Invalid difficulty level";
   "Question count must be between 1 and 15"].

(** A reply that is well formed, in the 0-based convention. *)
Definition zero_based_reply : Quiz :=
  mkQuiz (JStr "Photosynthesis") (JStr "medium")
         (JArr [JStr "q1"; JStr "q2"])
         (JArr [four; four])
         (JArr [JNum 0; JNum 0])
         (JArr [JStr "e1"; JStr "e2"]).

Definition zero_based_env : Env := mkEnv (Some "key") (fun _ _ _ => Parsed zero_based_reply).

End QuizRouteShape.

(* ===================================================================== *)
(** ** The other actions of the chat store                                *)
(* ===================================================================== *)

Module ChatStoreActions.
Import JS ChatStore.

(** [localStorage]. *)
Definition Storage := gmap string string.

Definition sidebarKey : string := "sidebarMinimized".

Definition bool_toString (b : bool) : string := if b then "true" else "false".

(** The state the store is created with; [window] tells whether the code
    runs in a browser. *)
Definition initial_store (window : bool) (ls : Storage) : ChatState :=
  mkChatState None [] "en" false false
              (if window then
                 match ls !! sidebarKey with
                 | Some v => String.eqb v "true"
                 | None => false
                 end
               else false)
              None false.

(** [set({isVoiceSidebarOpen, isImageSidebarOpen})]. *)
Definition set_sidebars (voice image : bool) (st : ChatState) : ChatState :=
  mkChatState (currentSession st) (sessions st) (language st) voice image
              (isSidebarMinimized st) (currentPlayingAudio st) (isCreatingSession st).

Definition toggleVoiceSidebar (st : ChatState) : ChatState :=
  set_sidebars (negb (isVoiceSidebarOpen st)) false st.

Definition toggleImageSidebar (st : ChatState) : ChatState :=
  set_sidebars false (negb (isImageSidebarOpen st)) st.

(** [set({isSidebarMinimized})]. *)
Definition set_minimized (b : bool) (st : ChatState) : ChatState :=
  mkChatState (currentSession st) (sessions st) (language st) (isVoiceSidebarOpen st)
              (isImageSidebarOpen st) b (currentPlayingAudio st) (isCreatingSession st).

Definition toggleSidebar (window : bool) (st : ChatState) (ls : Storage)
    : ChatState * Storage :=
  let newMinimized := negb (isSidebarMinimized st) in
  (set_minimized newMinimized st,
   if window then <[sidebarKey := bool_toString newMinimized]> ls else ls).

(** [handleClose] of the explanation toggle; the two flags it tests are
    those of the render the button belongs to, [st] being the store at
    that render. *)
Definition handleClose (st : ChatState) : ChatState :=
  let st1 := if isVoiceSidebarOpen st then toggleVoiceSidebar st else st in
  if isImageSidebarOpen st then toggleImageSidebar st1 else st1.

(** The buttons of the explanation toggle. *)
Inductive Click := VoiceButton | ImageButton | CloseButton.

Definition click (c : Click) (st : ChatState) : ChatState :=
  match c with
  | VoiceButton => toggleVoiceSidebar st
  | ImageButton => toggleImageSidebar st
  | CloseButton => handleClose st
  end.

Definition clicks (cs : list Click) (st : ChatState) : ChatState :=
  fold_left (fun s c => click c s) cs st.

(** [n] calls of [toggleSidebar] in a browser. *)
Fixpoint toggles (n : nat) (st : ChatState) (ls : Storage) : ChatState * Storage :=
  match n with
  | O => (st, ls)
  | S n' => let '(st1, ls1) := toggleSidebar true st ls in toggles n' st1 ls1
  end.

(** How a request to the back end settles. *)
Inductive Promise (A : Type) :=
| Rejected
| Fulfilled (a : A).
Arguments Rejected {A}.
Arguments Fulfilled {A} a.

(** [set({isCreatingSession})]. *)
Definition set_creating (b : bool) (st : ChatState) : ChatState :=
  mkChatState (currentSession st) (sessions st) (language st) (isVoiceSidebarOpen st)
              (isImageSidebarOpen st) (isSidebarMinimized st) (currentPlayingAudio st) b.

(** [{...s, id}]. *)
Definition with_id (new_id : string) (s : ChatSession) : ChatSession :=
  mkSession new_id (title s) (messages s) (createdAt s).

(** [createNewSession], up to the call of [createSessionInDB]: the state it
    leaves, and whether the request to the back end is started.  [uuid] is
    the value of [uuidv4()] and [now] of [new Date()]. *)
Definition createNewSession (uuid : string) (now : Z) (st : ChatState)
    : ChatState * bool :=
  if isCreatingSession st then (st, false)
  else
    let st1 := set_creating true st in
    let newSession := mkSession uuid "New Chat" [] (Some now) in
    let st2 := set_sessions (Some newSession) (newSession :: sessions st1) st1 in
    if negb (String.eqb uuid "") then (st2, true)
    else (set_creating false st2, false).

(** [createSessionInDB] from the moment [createSession] settles, [st]
    being the store at that moment; the response carries a session id or
    none. *)
Definition createSessionInDB (uuid : string) (response : Promise (option string))
    (st : ChatState) : ChatState :=
  let st1 :=
    match response with
    | Fulfilled sid =>
        if truthy_str sid then
          let backend_id := default "" sid in
          set_sessions (option_map (with_id backend_id) (currentSession st))
                       (map (fun s => if String.eqb (session_id s) uuid
                                      then with_id backend_id s else s) (sessions st))
                       st
        else st
    | Rejected => st
    end in
  set_creating false st1.

(** [deleteSession] from the moment [deleteChat] settles. *)
Definition deleteSession (sessionId : string) (settled : Promise unit)
    (st : ChatState) : ChatState * bool :=
  match settled with
  | Fulfilled _ =>
      (set_sessions
         (match currentSession st with
          | Some cs => if String.eqb (session_id cs) sessionId then None else Some cs
          | None => None
          end)
         (List.filter (fun s => negb (String.eqb (session_id s) sessionId)) (sessions st))
         st,
       false)
  | Rejected => (st, true)
  end.

(** The answer of [sendTextMessage], by what [sendToBackend] reads. *)
Record TextResponse := mkText {
  text_query_id : option string;
  text_sentiment_label : option string;
  text_sentiment_score : option Q
}.

(** The call [updateSessionTitle(sessionId, title)] that [sendToBackend]
    makes when the answer of [sendTextMessage] has a query id: the id of
    the session and the title; the session and the message are those the
    request was started with. *)
Definition titleRequest (job : BackendJob) (response : option TextResponse)
    : option (string * string) :=
  match response with
  | Some r =>
      if truthy_str (text_query_id r) then
        if String.eqb (title (job_session job)) "New Chat"
           && (length (messages (job_session job)) =? 1)%nat
        then
          let c := content (job_message job) in
          Some (session_id (job_session job),
                if (50 <? String.length c)%nat then substring 0 50 c +:+ "..." else c)
        else None
      else None
  | None => None
  end.

(** The requests of [sendToBackend]. *)
Inductive ChatCall :=
| SendTextMessage (content_ sessionId language_ : string)
| AskQuestion (content_ sessionId chatId sentimentLabel : string) (sentimentScore : Q)
              (inputType language_ : string).

(** The first request; [language_] is [get().language] when it is made. *)
Definition sendTextMessage_call (job : BackendJob) (language_ : string) : ChatCall :=
  SendTextMessage (content (job_message job)) (session_id (job_session job)) language_.

(** [response.sentiment_score || 0.0]. *)
Definition score_or_zero (score : option Q) : Q :=
  match score with
  | Some q => if Qeq_bool q 0 then 0%Q else q
  | None => 0%Q
  end.

(** The request [askQuestion], made when the answer of [sendTextMessage]
    has a query id. *)
Definition askQuestion_call (job : BackendJob) (response : option TextResponse)
    (language_ : string) : option ChatCall :=
  match response with
  | Some r =>
      if truthy_str (text_query_id r) then
        Some (AskQuestion (content (job_message job))
                          (session_id (job_session job))
                          (session_id (job_session job))
                          (default "NEUTRAL"
                             (or_else (text_sentiment_label r) (Some "NEUTRAL")))
                          (score_or_zero (text_sentiment_score r))
                          "text" language_)
      else None
  | None => None
  end.

(** Several calls of [addMessage], one after the other. *)
Definition addMessages (ms : list ChatMessage) (st : ChatState) : ChatState :=
  fold_left (fun s m => fst (addMessage m s)) ms st.

(** *** Examples *)

Definition empty_storage : Storage := ∅.

Definition fresh_store : ChatState := initial_store true empty_storage.

(** A store in which the learner has moved to another chat. *)
Definition moved_store : ChatState :=
  mkChatState (Some (mkSession "s2" "Older" [] (Some 1600000000000%Z)))
              [one_message_session; mkSession "s2" "Older" [] (Some 1600000000000%Z)]
              "en" false false false None false.

Definition second_question : ChatMessage :=
  mkMessage "m9" user "And enthalpy?" (Some 1700000009000%Z)
            None None None None None None None None None.

End ChatStoreActions.

(* ===================================================================== *)
(** ** The view of a message: copying                                     *)
(* ===================================================================== *)

Module MessageView.
Import JS ChatStore.

(** [textToCopy] of [handleCopy]. *)
Definition textToCopy (message : ChatMessage) (showDetailed : bool) : string :=
  if showDetailed && truthy_str (detailed_response message) then
    default "" (detailed_response message)
  else
    default ""
      (or_else (or_else (main_response message) (simplified_response message))
               (Some (content message))).

(** The button that toggles the detailed view is rendered for a message of
    the assistant that has a detailed response of its own; a click on it
    is [setShowDetailed(!showDetailed)]. *)
Definition toggle_rendered (message : ChatMessage) : bool :=
  MessageType_eqb (type message) assistant && hasDetailedResponse message.

Definition clickToggle (message : ChatMessage) (showDetailed : bool) : bool :=
  if toggle_rendered message then negb showDetailed else showDetailed.

(** [showDetailed] after [n] clicks, from its initial value. *)
Fixpoint showDetailed_after (n : nat) (message : ChatMessage) : bool :=
  match n with
  | O => false
  | S n' => clickToggle message (showDetailed_after n' message)
  end.

(** No line feed follows [run] line feeds to make three in a row. *)
Fixpoint no_triple (run : nat) (s : string) : bool :=
  match s with
  | EmptyString => true
  | String c s' =>
      if Ascii.eqb c newline then (run <? 2)%nat && no_triple (S run) s'
      else no_triple 0 s'
  end.

Definition three_newlines : string :=
  String newline (String newline (String newline "")).

End MessageView.

(* ===================================================================== *)
(** ** The voice sidebar: playing                                         *)
(* ===================================================================== *)

Module VoicePlayback.
Import JS JSNumber ChatStore VoiceSidebar.

(** The state of the player; [duration] is [None] for [NaN]. *)
Record Player := mkPlayer {
  isPlaying : bool;
  currentTime : Q;
  duration : option Q;
  currentLine : nat
}.

(** The effect that runs when the session or the cache changes: the
    component state it sets.  [cachedExplanations[cacheKey]] is read as in
    [cached]. *)
Definition onSessionChange (currentSession : option ChatSession) (sb : Sidebar)
    : Sidebar * Player :=
  let cleared := mkSidebar None (cachedExplanations sb) false None in
  (match currentSession with
   | Some cs =>
       match messages cs with
       | [] => cleared
       | _ :: _ =>
           match lastAssistantMessage cs with
           | Some message =>
               match cached message sb with
               | Some ve => mkSidebar (Some ve) (cachedExplanations sb) false None
               | None => cleared
               end
           | None => cleared
           end
       end
   | None => cleared
   end,
   mkPlayer false 0 (Some 0%Q) 0).

(** [time >= timing.start && time < timing.end]. *)
Definition holds (time : Q) (timing : Timing) : bool :=
  Qle_bool (t_start timing) time && Qlt_bool time (t_end timing).

(** [timings.indexOf(timings.find(p))]: the index of the first entry that
    satisfies [p], which is where [indexOf] finds the entry [find]
    returned. *)
Fixpoint find_index {A : Type} (p : A -> bool) (l : list A) : option nat :=
  match l with
  | [] => None
  | x :: l' => if p x then Some 0%nat else option_map S (find_index p l')
  end.

(** [updateTime], the handler of [timeupdate]; [audio_currentTime] is the
    position of the audio. *)
Definition updateTime (voiceExplanation : option VoiceExplanation)
    (audio_currentTime : Q) (p : Player) : Player :=
  let p1 := mkPlayer (isPlaying p) audio_currentTime (duration p) (currentLine p) in
  match voiceExplanation with
  | Some ve =>
      match find_index (holds audio_currentTime) (timings ve) with
      | Some lineIndex =>
          mkPlayer (isPlaying p1) (currentTime p1) (duration p1) lineIndex
      | None => p1
      end
  | None => p1
  end.

(** Where a timing map ends: the end of its last entry. *)
Definition map_end (tm : list Timing) : Q :=
  match tm !! (length tm - 1)%nat with
  | Some timing => t_end timing
  | None => 0
  end.

(** [formatTime] of the sidebar, for a time that is a number; the quotient
    and the remainder are those of the rationals.  The remainder of two
    doubles is a double, and the quotient rounded to a double has the same
    floor ([JSDoubleFacts.minutes_in_doubles]). *)
Definition formatTime (time : Q) : string :=
  let minutes := Qfloor (time / 60) in
  let seconds := Qfloor (js_rem time 60) in
  toString minutes +:+ ":" +:+ padStart2 (toString seconds).

(** A string without the character [c]. *)
Fixpoint without (c : ascii) (s : string) : bool :=
  match s with
  | EmptyString => true
  | String d s' => negb (Ascii.eqb d c) && without c s'
  end.

Definition idle : Player := mkPlayer false 0 (Some 0%Q) 0.

End VoicePlayback.

(* ===================================================================== *)
(** * Properties                                                          *)
(* ===================================================================== *)

Module QuizRouteProofs.
Import JS QuizRoute.

Lemma Qlt_bool_iff (a b : Q) : Qlt_bool a b = true <-> (a < b)%Q.
Proof.
  unfold Qlt_bool. rewrite negb_true_iff.
  destruct (Qle_bool b a) eqn:E.
  - apply Qle_bool_iff in E. split; [discriminate | intros H; exfalso; lra].
  - split; [intros _ | reflexivity].
    apply Qnot_le_lt. intros H. apply Qle_bool_iff in H. congruence.
Qed.

Lemma Qlt_bool_false (a b : Q) : Qlt_bool a b = false <-> (b <= a)%Q.
Proof.
  unfold Qlt_bool. rewrite negb_false_iff. apply Qle_bool_iff.
Qed.

Lemma Qle_bool_false (a b : Q) : Qle_bool a b = false <-> (b < a)%Q.
Proof.
  split; intros H.
  - apply Qnot_le_lt. intros H'. apply Qle_bool_iff in H'. congruence.
  - destruct (Qle_bool a b) eqn:E; [| reflexivity].
    apply Qle_bool_iff in E. exfalso; lra.
Qed.

(** The four cases of [correction]. *)
Lemma correction_cases (i : nat) (c : Q) :
  ((1 <= c <= 4)%Q /\ correction i c = Some ((c - 1)%Q, converted_entry i c))
  \/ ((4 < c)%Q /\ correction i c = Some (3%Q, clamped_high_entry i c))
  \/ ((c < 0)%Q /\ correction i c = Some (0%Q, clamped_negative_entry i c))
  \/ ((0 <= c < 1)%Q /\ correction i c = None).
Proof.
  unfold correction.
  destruct (Qle_bool 1 c) eqn:E1; destruct (Qle_bool c 4) eqn:E4; simpl.
  - apply Qle_bool_iff in E1, E4. left. split; [split; assumption | reflexivity].
  - apply Qle_bool_iff in E1. apply Qle_bool_false in E4.
    right; left. split; [assumption |].
    assert (H : Qlt_bool 3 c = true) by (apply Qlt_bool_iff; lra).
    rewrite H. reflexivity.
  - apply Qle_bool_false in E1.
    assert (H : Qlt_bool 3 c = false) by (apply Qlt_bool_false; lra).
    rewrite H. destruct (Qlt_bool c 0) eqn:E0.
    + apply Qlt_bool_iff in E0. right; right; left. split; [assumption | reflexivity].
    + apply Qlt_bool_false in E0. right; right; right. split; [split; assumption | reflexivity].
  - apply Qle_bool_false in E1, E4. exfalso; lra.
Qed.

Lemma corrected_as_range j c c' lg :
  corrected_as j c c' lg -> (0 <= c' <= 3)%Q.
Proof.
  intros [[e [H _]] | [H ->]];
    destruct (correction_cases j c) as [[R E] | [[R E] | [[R E] | [R E]]]];
    rewrite E in H; try discriminate; try (injection H as <- _); lra.
Qed.

Lemma corrected_as_mono j c c' lg lg1 lg2 :
  corrected_as j c c' lg -> corrected_as j c c' (lg1 ++ lg ++ lg2).
Proof.
  intros [[e [H Hin]] | H]; [left | right; exact H].
  exists e. split; [exact H |]. apply in_or_app. right. apply in_or_app. left. exact Hin.
Qed.

Lemma final_validation_inr i c cas lg cas' lg' :
  final_validation i c cas lg = (inr cas', lg') ->
  cas' = cas /\ lg' = lg /\ (0 <= c <= 3)%Q.
Proof.
  unfold final_validation.
  destruct (Qlt_bool c 0) eqn:E0; destruct (Qlt_bool 3 c) eqn:E3; simpl;
    intros H; try discriminate.
  injection H as <- <-. apply Qlt_bool_false in E0, E3. auto.
Qed.

Lemma check_question_inr i opts cas cas' lg :
  check_question i opts cas = (inr cas', lg) ->
  (exists row, opts !! i = Some (JArr row) /\ length row = 4%nat)
  /\ exists c c', cas !! i = Some (JNum c) /\ cas' = <[i := JNum c']> cas
                  /\ corrected_as i c c' lg.
Proof.
  unfold check_question.
  destruct (opts !! i) as [[| | | | | row |] |] eqn:Eo; try discriminate.
  destruct (Nat.eqb_spec (length row) 4) as [Hlen |]; [| discriminate].
  destruct (cas !! i) as [[| | | c | | |] |] eqn:Ec; try discriminate.
  destruct (correction i c) as [[c' e] |] eqn:Ecorr; intros H;
    apply final_validation_inr in H as (-> & -> & _).
  - split; [eauto |]. exists c, c'. split; [reflexivity |]. split; [reflexivity |].
    left. exists e. simpl. auto.
  - split; [eauto |]. exists c, c. split; [reflexivity |]. split.
    + symmetry. apply list_insert_id. exact Ec.
    + right. auto.
Qed.

(** The loop, from turn [i] with [n] turns left: the rows and the indices
    of the questions [i .. i + n - 1] have been checked and corrected, and
    nothing else was touched. *)
Lemma validate_from_inr n : forall i opts cas cas' lg,
  validate_from n i opts cas = (inr cas', lg) ->
  length cas' = length cas
  /\ forall j,
       ((j < i \/ i + n <= j)%nat -> cas' !! j = cas !! j)
       /\ ((i <= j < i + n)%nat ->
           (exists row, opts !! j = Some (JArr row) /\ length row = 4%nat)
           /\ exists c c', cas !! j = Some (JNum c) /\ cas' !! j = Some (JNum c')
                           /\ corrected_as j c c' lg).
Proof.
  induction n as [| n IH]; intros i opts cas cas' lg; simpl.
  - intros H. injection H as <- <-. split; [reflexivity |].
    intros j. split; [reflexivity | lia].
  - destruct (check_question i opts cas) as [[e | cas1] lg1] eqn:Ecq; [discriminate |].
    destruct (validate_from n (S i) opts cas1) as [r lg2] eqn:Erec.
    intros H. injection H as -> <-.
    apply check_question_inr in Ecq as [Hrow (c & c' & Hc & -> & Hcorr)].
    apply IH in Erec as [Hlen Hrest].
    rewrite length_insert in Hlen. split; [exact Hlen |].
    intros j. destruct (Hrest j) as [Hout Hin]. split.
    + intros Hj. rewrite Hout by lia. apply list_lookup_insert_ne. lia.
    + intros Hj. destruct (decide (j = i)) as [-> | Hne].
      * split; [exact Hrow |]. exists c, c'. split; [exact Hc |]. split.
        -- rewrite Hout by lia. apply list_lookup_insert_eq.
           apply lookup_lt_Some in Hc. exact Hc.
        -- apply (corrected_as_mono _ _ _ _ [] lg2) in Hcorr. exact Hcorr.
      * destruct Hin as [Hr (d & d' & Hd & Hd' & Hcd)]; [lia |].
        split; [exact Hr |]. exists d, d'.
        rewrite list_lookup_insert_ne in Hd by lia.
        split; [exact Hd |]. split; [exact Hd' |].
        apply (corrected_as_mono _ _ _ _ lg1 []) in Hcd.
        rewrite app_nil_r in Hcd. exact Hcd.
Qed.

Lemma array_of_length_Some a questionCount l :
  array_of_length a questionCount = Some l ->
  a = JArr l /\ strict_eq_num questionCount (of_nat (length l)) = true.
Proof.
  unfold array_of_length. destruct a; try discriminate.
  destruct (strict_eq_num _ _) eqn:E; [| discriminate].
  intros H. injection H as <-. auto.
Qed.

Lemma strict_eq_num_length v (n m : nat) :
  strict_eq_num v (of_nat n) = true -> strict_eq_num v (of_nat m) = true -> n = m.
Proof.
  destruct v; simpl; try discriminate.
  intros H1 H2. apply Qeq_bool_iff in H1, H2.
  assert (H : (of_nat n == of_nat m)%Q) by (rewrite <- H1; exact H2).
  unfold of_nat in H. rewrite inject_Z_injective in H. lia.
Qed.


Lemma validate_quiz_inr raw questionCount quiz lg :
  validate_quiz raw questionCount = (inr quiz, lg) ->
  exists qs opts cas exps cas' lg0,
    array_of_length (questions raw) questionCount = Some qs
    /\ array_of_length (options raw) questionCount = Some opts
    /\ array_of_length (correct_answers raw) questionCount = Some cas
    /\ array_of_length (explanations raw) questionCount = Some exps
    /\ validate_from (length qs) 0 opts cas = (inr cas', lg0)
    /\ quiz = mkQuiz (topic raw) (difficulty raw) (questions raw) (options raw)
                     (JArr cas') (explanations raw)
    /\ exists e, lg = lg0 ++ [e].
Proof.
  unfold validate_quiz.
  destruct (array_of_length (questions raw) questionCount) as [qs |]; [| discriminate].
  destruct (array_of_length (options raw) questionCount) as [opts |]; [| discriminate].
  destruct (array_of_length (correct_answers raw) questionCount) as [cas |];
    [| discriminate].
  destruct (array_of_length (explanations raw) questionCount) as [exps |];
    [| discriminate].
  destruct (validate_from (length qs) 0 opts cas) as [[e | cas'] lg0] eqn:E;
    [discriminate |].
  intros H. injection H as <- <-.
  exists qs, opts, cas, exps, cas', lg0. repeat (split; [reflexivity |]). eauto.
Qed.

Lemma generateQuizWithGroq_inr env topic_ difficulty_ questionCount quiz :
  value (generateQuizWithGroq env topic_ difficulty_ questionCount) = inr quiz ->
  exists raw lg,
    groq env topic_ difficulty_ questionCount = Parsed raw
    /\ validate_quiz raw questionCount = (inr quiz, lg)
    /\ forall e, In e lg ->
         In e (log (generateQuizWithGroq env topic_ difficulty_ questionCount)).
Proof.
  unfold generateQuizWithGroq.
  destruct (truthy_str (GROQ_API_KEY env)); [| discriminate].
  unfold handle_reply.
  destruct (groq env topic_ difficulty_ questionCount) as [| status | | | raw];
    simpl; try discriminate.
  destruct (validate_quiz raw questionCount) as [[e | q] lg] eqn:E; simpl;
    [discriminate |].
  intros H. injection H as <-. exists raw, lg.
  split; [reflexivity |]. split; [exact E |].
  intros e He. right. right. exact He.
Qed.

(** C1. Whenever [generateQuizWithGroq] returns a quiz, [questionCount] is
    a number [n], each of [questions], [options], [correct_answers] and
    [explanations] of the quiz is an array of exactly [n] entries, every
    row of [options] is an array of exactly 4 options, and every entry of
    [correct_answers] is a number between 0 and 3, whatever indices the
    generator produced. *)
Theorem generateQuizWithGroq_returns_valid
    (env : Env) (topic_ : string) (difficulty_ questionCount : jsval) (quiz : Quiz) :
  value (generateQuizWithGroq env topic_ difficulty_ questionCount) = inr quiz ->
  exists (n : nat) (qs opts cas exps : list jsval),
    strict_eq_num questionCount (of_nat n) = true
    /\ questions quiz = JArr qs /\ length qs = n
    /\ options quiz = JArr opts /\ length opts = n
    /\ correct_answers quiz = JArr cas /\ length cas = n
    /\ explanations quiz = JArr exps /\ length exps = n
    /\ (forall i row, opts !! i = Some row ->
          exists items, row = JArr items /\ length items = 4%nat)
    /\ (forall i v, cas !! i = Some v ->
          exists c, v = JNum c /\ (0 <= c <= 3)%Q).
Proof.
  intros H. apply generateQuizWithGroq_inr in H as (raw & lg & _ & Hv & _).
  apply validate_quiz_inr in Hv
    as (qs & opts & cas & exps & cas' & lg0 & Hq & Ho & Hc & He & Hloop & -> & _).
  apply array_of_length_Some in Hq as [Hq Hnq], Ho as [Ho Hno],
      Hc as [Hc Hnc], He as [He Hne].
  pose proof (strict_eq_num_length _ _ _ Hnq Hno) as Hlo.
  pose proof (strict_eq_num_length _ _ _ Hnq Hnc) as Hlc.
  pose proof (strict_eq_num_length _ _ _ Hnq Hne) as Hle.
  apply validate_from_inr in Hloop as [Hlen Hall].
  exists (length qs), qs, opts, cas', exps. simpl.
  split; [exact Hnq |]. split; [exact Hq |]. split; [reflexivity |].
  split; [exact Ho |]. split; [lia |]. split; [reflexivity |].
  split; [lia |]. split; [exact He |]. split; [lia |]. split.
  - intros i row Hi. pose proof (lookup_lt_Some _ _ _ Hi) as Hlt.
    destruct (Hall i) as [_ Hin].
    destruct Hin as [(items & Hrow & Hfour) _]; [lia |].
    exists items. split; [congruence | exact Hfour].
  - intros i v Hi. pose proof (lookup_lt_Some _ _ _ Hi) as Hlt.
    destruct (Hall i) as [_ Hin].
    destruct Hin as [_ (c & c' & _ & Hc' & Hcorr)]; [lia |].
    exists c'. split; [congruence |]. exact (corrected_as_range _ _ _ _ Hcorr).
Qed.

Lemma generateQuizWithGroq_returns_valid_witness :
  value (generateQuizWithGroq one_based_env "Photosynthesis" (JStr "medium") (JNum 3))
  = inr one_based_result
  /\ exists (n : nat) (qs opts cas exps : list jsval),
       strict_eq_num (JNum 3) (of_nat n) = true
       /\ questions one_based_result = JArr qs /\ length qs = n
       /\ options one_based_result = JArr opts /\ length opts = n
       /\ correct_answers one_based_result = JArr cas /\ length cas = n
       /\ explanations one_based_result = JArr exps /\ length exps = n
       /\ (forall i row, opts !! i = Some row ->
             exists items, row = JArr items /\ length items = 4%nat)
       /\ (forall i v, cas !! i = Some v ->
             exists c, v = JNum c /\ (0 <= c <= 3)%Q).
Proof.
  split; [reflexivity |].
  apply (generateQuizWithGroq_returns_valid one_based_env "Photosynthesis"
           (JStr "medium") (JNum 3) one_based_result).
  reflexivity.
Defined.

(** C2. The normalization applies the heuristic as described.  When
    [generateQuizWithGroq] returns, a numeric raw index [c] of question
    [i] has been replaced by [c - 1] precisely when [1 <= c <= 4], clamped
    to 3 when it is above that range, clamped to 0 when it is negative and
    left as it is when it equals 0, and each of the three corrections is in
    the log. *)
Theorem answer_index_normalization
    (env : Env) (topic_ : string) (difficulty_ questionCount : jsval)
    (raw quiz : Quiz) (raws : list jsval) (i : nat) (c : Q) :
  groq env topic_ difficulty_ questionCount = Parsed raw ->
  value (generateQuizWithGroq env topic_ difficulty_ questionCount) = inr quiz ->
  correct_answers raw = JArr raws ->
  raws !! i = Some (JNum c) ->
  let logged := log (generateQuizWithGroq env topic_ difficulty_ questionCount) in
  exists (cas : list jsval) (c' : Q),
    correct_answers quiz = JArr cas /\ cas !! i = Some (JNum c')
    /\ ((1 <= c <= 4)%Q -> c' = (c - 1)%Q /\ In (converted_entry i c) logged)
    /\ ((4 < c)%Q -> c' = 3%Q /\ In (clamped_high_entry i c) logged)
    /\ ((c < 0)%Q -> c' = 0%Q /\ In (clamped_negative_entry i c) logged)
    /\ ((c == 0)%Q -> c' = c)
    /\ ((c' == c - 1)%Q -> (1 <= c <= 4)%Q).
Proof.
  intros Hraw H Hcas Hi logged.
  apply generateQuizWithGroq_inr in H as (raw' & lg & Hraw' & Hv & Hlog).
  assert (raw' = raw) as -> by congruence.
  apply validate_quiz_inr in Hv
    as (qs & opts & cas & exps & cas' & lg0 & Hq & _ & Hc & _ & Hloop & -> & e & ->).
  apply array_of_length_Some in Hq as [_ Hnq], Hc as [Hc Hnc].
  pose proof (strict_eq_num_length _ _ _ Hnq Hnc) as Hlc.
  assert (cas = raws) as -> by congruence.
  apply validate_from_inr in Hloop as [_ Hall].
  pose proof (lookup_lt_Some _ _ _ Hi) as Hlt.
  destruct (Hall i) as [_ Hin].
  destruct Hin as [_ (d & c' & Hd & Hc' & Hcorr)]; [lia |].
  assert (d = c) as -> by congruence.
  exists cas', c'. split; [reflexivity |]. split; [exact Hc' |].
  assert (Hin : forall x, In x lg0 -> In x logged).
  { intros x Hx. apply Hlog. apply in_or_app. left. exact Hx. }
  destruct (correction_cases i c) as [[R E] | [[R E] | [[R E] | [R E]]]];
    destruct Hcorr as [[x [Hx Hxin]] | [Hx ->]]; rewrite E in Hx;
    try discriminate; try (injection Hx as <- <-);
    repeat split; intros; try (exfalso; lra); auto; try lra.
Qed.

Lemma answer_index_normalization_witness :
  exists (cas : list jsval) (c' : Q),
    correct_answers one_based_result = JArr cas /\ cas !! 1%nat = Some (JNum c')
    /\ ((1 <= 7 <= 4)%Q -> c' = (7 - 1)%Q /\
        In (converted_entry 1 7)
           (log (generateQuizWithGroq one_based_env "Photosynthesis" (JStr "medium") (JNum 3))))
    /\ ((4 < 7)%Q -> c' = 3%Q /\
        In (clamped_high_entry 1 7)
           (log (generateQuizWithGroq one_based_env "Photosynthesis" (JStr "medium") (JNum 3))))
    /\ ((7 < 0)%Q -> c' = 0%Q /\
        In (clamped_negative_entry 1 7)
           (log (generateQuizWithGroq one_based_env "Photosynthesis" (JStr "medium") (JNum 3))))
    /\ ((7 == 0)%Q -> c' = 7%Q)
    /\ ((c' == 7 - 1)%Q -> (1 <= 7 <= 4)%Q).
Proof.
  apply (answer_index_normalization one_based_env "Photosynthesis" (JStr "medium")
           (JNum 3) one_based_reply one_based_result
           [JNum 4; JNum 7; JNum (-2)] 1 7);
    reflexivity.
Defined.


(** The validation of [POST] on the inputs it is written for: a request
    whose topic is missing or blank, whose difficulty is not one of the
    three levels, or whose question count is missing or a number outside
    1..15, is answered with an error and the generator is not called. *)
Lemma POST_rejects_before_generation
    (StringNumericValue : string -> Q) (CompositeToNumber : jsval -> option Q)
    (env : Env) (b : Body) :
  truthy (body_topic b) = false
  \/ (exists s, body_topic b = JStr s /\ trim s = "")
  \/ (forall d, body_difficulty b = JStr d -> d <> "easy" /\ d <> "medium" /\ d <> "hard")
  \/ body_questionCount b = JUndefined
  \/ (exists q, body_questionCount b = JNum q /\ ~ (1 <= q <= 15)%Q) ->
  model_calls (POST StringNumericValue CompositeToNumber env (Some b)) = 0%nat
  /\ exists status message,
       response (POST StringNumericValue CompositeToNumber env (Some b))
       = JsonError status message.
Proof.
  intros H. unfold POST.
  destruct (truthy (body_topic b)) eqn:Et; simpl; [| eauto].
  destruct (body_topic b) as [| | tb | tq | s | |] eqn:Etopic; simpl; eauto.
  destruct (String.eqb_spec (trim s) "") as [Hs | Hs]; [eauto |].
  destruct H as [H | [(s' & H & Hblank) | H]]; [discriminate | congruence |].
  assert (Hd : (match body_difficulty b with
                | JStr d => String.eqb d "easy" || String.eqb d "medium"
                            || String.eqb d "hard"
                | _ => false
                end) = true ->
               body_questionCount b = JUndefined
               \/ (exists q, body_questionCount b = JNum q /\ ~ (1 <= q <= 15)%Q)).
  { intros Hok. destruct H as [H | H]; [| exact H]. exfalso.
    destruct (body_difficulty b) as [| | | | d | |]; try discriminate.
    destruct (H d eq_refl) as (H1 & H2 & H3).
    apply orb_true_iff in Hok as [Hok | Hok];
      [apply orb_true_iff in Hok as [Hok | Hok] |];
      apply String.eqb_eq in Hok; contradiction. }
  destruct (match body_difficulty b with JStr d => _ | _ => false end); simpl; [| eauto].
  destruct (Hd eq_refl) as [-> | (q & -> & Hq)]; simpl; [eauto |].
  unfold js_lt, js_gt; simpl.
  destruct (Qeq_bool q 0) eqn:E0; simpl; [eauto |].
  destruct (Qlt_bool q 1) eqn:E1; simpl; [eauto |].
  destruct (Qlt_bool 15 q) eqn:E15; simpl; [eauto |].
  exfalso. apply Hq. apply Qlt_bool_false in E1, E15. auto.
Qed.

(** After generation: a quiz one of whose rows of options is not an array
    of exactly 4 options is never returned, corrected or not. *)
Lemma wrong_option_count_is_rejected
    (env : Env) (topic_ : string) (difficulty_ questionCount : jsval)
    (raw : Quiz) (opts : list jsval) (i : nat) (row : jsval) :
  groq env topic_ difficulty_ questionCount = Parsed raw ->
  options raw = JArr opts ->
  opts !! i = Some row ->
  (forall items, row = JArr items -> length items <> 4%nat) ->
  exists e, value (generateQuizWithGroq env topic_ difficulty_ questionCount) = inl e.
Proof.
  intros Hraw Hopts Hi Hrow.
  destruct (value (generateQuizWithGroq env topic_ difficulty_ questionCount))
    as [e | quiz] eqn:E; [eauto |]. exfalso.
  apply generateQuizWithGroq_inr in E as (raw' & lg & Hraw' & Hv & _).
  assert (raw' = raw) as -> by congruence.
  apply validate_quiz_inr in Hv
    as (qs & opts' & cas & exps & cas' & lg0 & Hq & Ho & _ & _ & Hloop & _ & _).
  apply array_of_length_Some in Hq as [_ Hnq], Ho as [Ho Hno].
  pose proof (strict_eq_num_length _ _ _ Hnq Hno) as Hlo.
  assert (opts' = opts) as -> by congruence.
  apply validate_from_inr in Hloop as [_ Hall].
  pose proof (lookup_lt_Some _ _ _ Hi) as Hlt.
  destruct (Hall i) as [_ Hin].
  destruct Hin as [(items & Hitems & Hfour) _]; [lia |].
  apply (Hrow items); congruence.
Qed.

Lemma generateQuizWithGroq_fetches env topic_ difficulty_ questionCount :
  truthy_str (GROQ_API_KEY env) = true ->
  fetches (generateQuizWithGroq env topic_ difficulty_ questionCount) = 1%nat.
Proof.
  intros H. unfold generateQuizWithGroq. rewrite H.
  destruct (handle_reply _ _) as [[e | q] lg]; reflexivity.
Qed.

Lemma generateQuizWithGroq_needs_a_number env topic_ difficulty_ questionCount :
  (forall q, questionCount <> JNum q) ->
  exists e, value (generateQuizWithGroq env topic_ difficulty_ questionCount) = inl e.
Proof.
  intros Hq.
  destruct (value (generateQuizWithGroq env topic_ difficulty_ questionCount))
    as [e | quiz] eqn:E; [eauto |]. exfalso.
  apply generateQuizWithGroq_inr in E as (raw & lg & _ & Hv & _).
  apply validate_quiz_inr in Hv as (qs & _ & _ & _ & _ & _ & H & _).
  apply array_of_length_Some in H as [_ H].
  destruct questionCount; try discriminate. apply (Hq q). reflexivity.
Qed.

(** C7, at the failing input.  The body
    [{topic: "Photosynthesis", difficulty: "medium", questionCount: "abc"}]
    passes the validation of [POST]: the string is truthy, and compared
    with 1 and with 15 it converts to [NaN].  The generator is called, and
    the request fails only afterwards, with status 500. *)
Theorem POST_non_numeric_count_reaches_generator
    (StringNumericValue : string -> Q) (CompositeToNumber : jsval -> option Q)
    (g : string -> jsval -> jsval -> GroqReply) :
  let handled :=
    POST StringNumericValue CompositeToNumber (mkEnv (Some "key") g)
         (Some (mkBody (JStr "Photosynthesis") (JStr "medium") (JStr "abc"))) in
  model_calls handled = 1%nat
  /\ response handled = JsonError 500 "Failed to generate quiz. Please try again.".
Proof.
  intros handled. subst handled. unfold POST.
  change (negb (truthy (body_topic (mkBody (JStr "Photosynthesis") (JStr "medium")
                                           (JStr "abc"))))) with false.
  cbn match beta iota. cbn [body_topic body_difficulty body_questionCount].
  change (String.eqb (trim "Photosynthesis") "") with false.
  cbn match beta iota.
  change (negb (String.eqb "medium" "easy" || String.eqb "medium" "medium"
                || String.eqb "medium" "hard")) with false.
  cbn match beta iota.
  change (negb (truthy (JStr "abc"))
          || js_lt StringNumericValue CompositeToNumber (JStr "abc") 1
          || js_gt StringNumericValue CompositeToNumber (JStr "abc") 15) with false.
  cbn match beta iota.
  destruct (generateQuizWithGroq_needs_a_number (mkEnv (Some "key") g)
              (trim "Photosynthesis") (JStr "medium") (JStr "abc")) as [e He];
    [discriminate |].
  rewrite He. simpl. split; [| reflexivity].
  apply generateQuizWithGroq_fetches. reflexivity.
Qed.

End QuizRouteProofs.

Module JSNumberFacts.
Import JS JSNumber.

Lemma digit_val_digit_char (d : nat) :
  (d < 10)%nat -> digit_val 10 (digit_char d) = Some (N.of_nat d).
Proof.
  intros H. do 10 (destruct d as [| d]; [reflexivity |]). lia.
Qed.

Lemma is_dec_digit_char (d : nat) : (d < 10)%nat -> is_dec (digit_char d) = true.
Proof.
  intros H. do 10 (destruct d as [| d]; [reflexivity |]). lia.
Qed.

Lemma parse_digits_digit (d : nat) (s : string) (a : option N) :
  (d < 10)%nat ->
  parse_digits 10 (String (digit_char d) s) a
  = parse_digits 10 s (Some (10 * default 0%N a + N.of_nat d)%N).
Proof.
  intros H. cbn [parse_digits]. rewrite (digit_val_digit_char _ H). reflexivity.
Qed.

Lemma digits_of_S (fuel m : nat) (acc : string) :
  digits_of (S fuel) m acc
  = if (m / 10 =? 0)%nat then String (digit_char (m mod 10)) acc
    else digits_of fuel (m / 10) (String (digit_char (m mod 10)) acc).
Proof. reflexivity. Qed.

Lemma shift_S (fuel m : nat) (a : N) :
  shift (S fuel) m a
  = if (m / 10 =? 0)%nat then (10 * a + N.of_nat (m mod 10))%N
    else (10 * shift fuel (m / 10) a + N.of_nat (m mod 10))%N.
Proof. reflexivity. Qed.

Lemma parse_digits_digits_of (fuel : nat) :
  forall (m : nat) (acc : string) (a : option N),
    parse_digits 10 (digits_of (S fuel) m acc) a
    = parse_digits 10 acc (Some (shift (S fuel) m (default 0%N a))).
Proof.
  induction fuel as [| fuel IH]; intros m acc a;
    rewrite digits_of_S, shift_S;
    assert (Hd : (m mod 10 < 10)%nat) by (apply Nat.mod_upper_bound; lia).
  - destruct (m / 10 =? 0)%nat; cbn [digits_of shift];
      apply parse_digits_digit; exact Hd.
  - destruct (m / 10 =? 0)%nat.
    + apply parse_digits_digit; exact Hd.
    + rewrite IH. rewrite parse_digits_digit by exact Hd. reflexivity.
Qed.

Lemma shift_zero (fuel : nat) :
  forall m, (m < fuel)%nat -> shift fuel m 0 = N.of_nat m.
Proof.
  induction fuel as [| fuel IH]; intros m Hm; [lia |].
  rewrite shift_S. pose proof (Nat.div_mod_eq m 10) as Hdm.
  destruct (Nat.eqb_spec (m / 10) 0) as [Hz | Hnz].
  - lia.
  - rewrite IH by (assert (m / 10 < m)%nat by (apply Nat.div_lt; lia); lia). lia.
Qed.

Lemma parse_digits_nat_toString (n : nat) :
  parse_digits 10 (nat_toString n) None = Some (N.of_nat n).
Proof.
  unfold nat_toString. rewrite parse_digits_digits_of. cbn [parse_digits default].
  f_equal. apply shift_zero. lia.
Qed.

Lemma digits_of_all_dec (fuel : nat) :
  forall (m : nat) (acc : string),
    all_dec acc = true -> all_dec (digits_of fuel m acc) = true.
Proof.
  induction fuel as [| fuel IH]; intros m acc Hacc; [exact Hacc |].
  rewrite digits_of_S.
  assert (Hd : (m mod 10 < 10)%nat) by (apply Nat.mod_upper_bound; lia).
  assert (Hacc' : all_dec (String (digit_char (m mod 10)) acc) = true).
  { cbn [all_dec]. rewrite (is_dec_digit_char _ Hd). exact Hacc. }
  destruct (m / 10 =? 0)%nat; [exact Hacc' | apply IH; exact Hacc'].
Qed.

Lemma digits_of_not_empty (fuel m : nat) (acc : string) :
  digits_of (S fuel) m acc <> "".
Proof.
  revert m acc. induction fuel as [| fuel IH]; intros m acc; rewrite digits_of_S.
  - destruct (m / 10 =? 0)%nat; discriminate.
  - destruct (m / 10 =? 0)%nat; [discriminate | apply IH].
Qed.

Lemma is_dec_cases (c : ascii) :
  is_dec c = true -> exists d, (d < 10)%nat /\ c = digit_char d.
Proof.
  unfold is_dec. intros H. apply andb_true_iff in H as [H1 H2].
  apply Nat.leb_le in H1, H2.
  exists (nat_of_ascii c - 48)%nat. split; [lia |].
  unfold digit_char. replace (48 + (nat_of_ascii c - 48))%nat with (nat_of_ascii c) by lia.
  symmetry. apply ascii_nat_embedding.
Qed.

Lemma parseInt_eq (s : string) :
  parseInt s
  = let '(neg, s2) := sign_of (trimStart s) in
    let '(radix, s3) := radix_of s2 in
    match parse_digits radix s3 None with
    | Some n => Some (if neg then (- Z.of_N n)%Z else Z.of_N n)
    | None => None
    end.
Proof. reflexivity. Qed.

Lemma sign_of_other (c : ascii) (r : string) :
  Ascii.eqb c "-" = false -> Ascii.eqb c "+" = false ->
  sign_of (String c r) = (false, String c r).
Proof.
  intros H1 H2.
  destruct c as [[] [] [] [] [] [] [] []]; try reflexivity; discriminate.
Qed.

Lemma radix_of_other (c : ascii) (r : string) :
  Ascii.eqb c "0" = false -> radix_of (String c r) = (10%N, String c r).
Proof.
  intros H1.
  destruct c as [[] [] [] [] [] [] [] []]; try reflexivity; discriminate.
Qed.

Lemma radix_of_zero (c : ascii) (r : string) :
  Ascii.eqb c "x" = false -> Ascii.eqb c "X" = false ->
  radix_of (String "0" (String c r)) = (10%N, String "0" (String c r)).
Proof.
  intros H1 H2.
  destruct c as [[] [] [] [] [] [] [] []]; try reflexivity; discriminate.
Qed.

Lemma is_dec_plain (c : ascii) :
  is_dec c = true ->
  is_ws c = false /\ Ascii.eqb c "-" = false /\ Ascii.eqb c "+" = false
  /\ Ascii.eqb c "x" = false /\ Ascii.eqb c "X" = false.
Proof.
  intros H. apply is_dec_cases in H as (d & Hd & ->).
  do 10 (destruct d as [| d]; [repeat split; reflexivity |]). lia.
Qed.

(** On a string of digits [parseInt] reads the number in base 10. *)
Lemma parseInt_all_dec (s : string) :
  s <> "" -> all_dec s = true ->
  parseInt s = option_map Z.of_N (parse_digits 10 s None).
Proof.
  destruct s as [| c r]; [congruence |]. intros _ H.
  cbn [all_dec] in H. apply andb_true_iff in H as [Hc Hr].
  destruct (is_dec_plain c Hc) as (Hws & Hm & Hp & _).
  rewrite parseInt_eq. cbn [trimStart]. rewrite Hws, (sign_of_other c r Hm Hp).
  assert (Hradix : radix_of (String c r) = (10%N, String c r)).
  { destruct (Ascii.eqb c "0") eqn:E0; [| apply radix_of_other; exact E0].
    apply Ascii.eqb_eq in E0. subst c.
    destruct r as [| c2 r2]; [reflexivity |].
    cbn [all_dec] in Hr. apply andb_true_iff in Hr as [Hc2 _].
    destruct (is_dec_plain c2 Hc2) as (_ & _ & _ & Hx & HX).
    apply radix_of_zero; assumption. }
  rewrite Hradix. destruct (parse_digits 10 (String c r) None); reflexivity.
Qed.

Lemma parseInt_nat_toString (n : nat) : parseInt (nat_toString n) = Some (Z.of_nat n).
Proof.
  rewrite parseInt_all_dec.
  - rewrite parse_digits_nat_toString. simpl. f_equal. lia.
  - apply digits_of_not_empty.
  - apply digits_of_all_dec. reflexivity.
Qed.

End JSNumberFacts.

Module JSDoubleFacts.
Import JS JSDouble.
Local Open Scope Q_scope.

(** *** Powers of two *)

Lemma two_not_0 : ~ 2 == 0.
Proof. intros H. discriminate H. Qed.

Lemma pow2_pos (z : Z) : 0 < pow2 z.
Proof. apply Qpower_0_lt. reflexivity. Qed.

Lemma pow2_add (a b : Z) : pow2 (a + b) == pow2 a * pow2 b.
Proof. apply Qpower_plus. exact two_not_0. Qed.

Lemma pow2_succ (a : Z) : pow2 (a + 1) == 2 * pow2 a.
Proof. rewrite pow2_add. unfold pow2 at 2. rewrite Qpower_1_r. ring. Qed.

Lemma pow2_le (a b : Z) : (a <= b)%Z -> pow2 a <= pow2 b.
Proof. intros H. apply Qpower_le_compat_l; [exact H | discriminate]. Qed.

Lemma pow2_lt (a b : Z) : (a < b)%Z -> pow2 a < pow2 b.
Proof. intros H. apply Qpower_lt_compat_l; [exact H | reflexivity]. Qed.

Lemma pow2_Z (z : Z) : (0 <= z)%Z -> pow2 z == inject_Z (2 ^ z).
Proof. intros H. unfold pow2. rewrite (Zpower_Qpower 2 z H). reflexivity. Qed.

Lemma pow2_le_inv (a b : Z) : pow2 a <= pow2 b -> (a <= b)%Z.
Proof. intros H. apply (Qpower_le_compat_l_inv 2); [exact H | reflexivity]. Qed.

Lemma pow2_lt_inv (a b : Z) : pow2 a < pow2 b -> (a < b)%Z.
Proof. intros H. apply (Qpower_lt_compat_l_inv 2); [exact H | reflexivity]. Qed.

(** *** The binary exponent *)

Lemma log2_bounds (n : Z) :
  (0 < n)%Z -> pow2 (Z.log2 n) <= inject_Z n /\ inject_Z n < 2 * pow2 (Z.log2 n).
Proof.
  intros Hn. destruct (Z.log2_spec n Hn) as [H1 H2].
  pose proof (Z.log2_nonneg n) as H0.
  rewrite <- pow2_succ.
  rewrite !pow2_Z by lia. rewrite <- Zle_Qle, <- Zlt_Qlt.
  split; [exact H1 |]. unfold Z.succ in H2. exact H2.
Qed.

Lemma ilog2_spec (x : Q) :
  0 < x -> pow2 (ilog2 x) <= x /\ x < pow2 (ilog2 x + 1).
Proof.
  intros Hx. unfold ilog2.
  destruct x as [n d]. assert (Hn : (0 < n)%Z).
  { unfold Qlt in Hx. simpl in Hx. lia. }
  cbn [Qnum Qden].
  set (e0 := (Z.log2 n - Z.log2 (Z.pos d))%Z).
  destruct (log2_bounds n Hn) as [Hn1 Hn2].
  destruct (log2_bounds (Z.pos d) eq_refl) as [Hd1 Hd2].
  assert (Hxd : (n # d) * inject_Z (Z.pos d) == inject_Z n).
  { unfold Qeq, Qmult, inject_Z. simpl. lia. }
  assert (HP : pow2 e0 * pow2 (Z.log2 (Z.pos d)) == pow2 (Z.log2 n)).
  { rewrite <- pow2_add. subst e0.
    replace (Z.log2 n - Z.log2 (Z.pos d) + Z.log2 (Z.pos d))%Z with (Z.log2 n) by lia.
    reflexivity. }
  pose proof (pow2_pos e0) as HP0.
  pose proof (pow2_pos (Z.log2 (Z.pos d))) as HB0.
  pose proof (pow2_succ e0) as Hs.
  assert (Hm : pow2 e0 == 2 * pow2 (e0 - 1)).
  { rewrite <- pow2_succ. replace (e0 - 1 + 1)%Z with e0 by lia. reflexivity. }
  set (P := pow2 e0) in *. set (B := pow2 (Z.log2 (Z.pos d))) in *.
  set (A := pow2 (Z.log2 n)) in *.
  set (x := n # d) in *. set (dn := inject_Z (Z.pos d)) in *. set (nn := inject_Z n) in *.
  assert (Hhi : x < 2 * P).
  { apply Qnot_le_lt. intros Hc. assert (2 * P * dn <= x * dn) by nra. nra. }
  assert (Hlo : pow2 (e0 - 1) <= x).
  { apply Qnot_lt_le. intros Hc. assert (x * dn <= pow2 (e0 - 1) * dn) by nra. nra. }
  destruct (Qle_bool P x) eqn:E.
  - apply Qle_bool_iff in E. split; [exact E |]. rewrite Hs. exact Hhi.
  - apply QuizRouteProofs.Qle_bool_false in E.
    split; [exact Hlo |]. replace (e0 - 1 + 1)%Z with e0 by lia. exact E.
Qed.

Lemma ilog2_unique (x : Q) (e : Z) :
  pow2 e <= x -> x < pow2 (e + 1) -> ilog2 x = e.
Proof.
  intros H1 H2. assert (Hx : 0 < x) by (pose proof (pow2_pos e); lra).
  destruct (ilog2_spec x Hx) as [H3 H4].
  assert (e < ilog2 x + 1)%Z by (apply pow2_lt_inv; lra).
  assert (ilog2 x < e + 1)%Z by (apply pow2_lt_inv; lra).
  lia.
Qed.

Lemma ilog2_le (x y : Q) : 0 < x -> x <= y -> (ilog2 x <= ilog2 y)%Z.
Proof.
  intros Hx Hxy. destruct (ilog2_spec x Hx) as [H1 _].
  destruct (ilog2_spec y) as [_ H2]; [lra |].
  assert (ilog2 x < ilog2 y + 1)%Z by (apply pow2_lt_inv; lra). lia.
Qed.

Lemma ilog2_comp (x y : Q) : 0 < x -> x == y -> ilog2 x = ilog2 y.
Proof.
  intros Hx Hxy. destruct (ilog2_spec x Hx) as [H1 H2].
  symmetry. apply ilog2_unique; lra.
Qed.

Lemma last_bit_le (x y : Q) : 0 < x -> x <= y -> (last_bit x <= last_bit y)%Z.
Proof. intros Hx Hxy. unfold last_bit. pose proof (ilog2_le x y Hx Hxy). lia. Qed.

Lemma last_bit_comp (x y : Q) : 0 < x -> x == y -> last_bit x = last_bit y.
Proof. intros Hx Hxy. unfold last_bit. rewrite (ilog2_comp x y Hx Hxy). reflexivity. Qed.

(** *** The nearest integer *)

Lemma round_half_even_cases (y : Q) :
  round_half_even y = Qfloor y \/ round_half_even y = (Qfloor y + 1)%Z.
Proof.
  unfold round_half_even. destruct (Qlt_bool _ _); [auto |].
  destruct (Qlt_bool _ _); [auto |]. destruct (Z.even _); auto.
Qed.

Lemma round_half_even_Z (k : Z) : round_half_even (inject_Z k) = k.
Proof.
  unfold round_half_even. rewrite Qfloor_Z.
  assert (Qlt_bool (inject_Z k - inject_Z k) (1 # 2) = true) as ->.
  { apply QuizRouteProofs.Qlt_bool_iff. lra. }
  reflexivity.
Qed.

Lemma round_half_even_comp (y z : Q) : y == z -> round_half_even y = round_half_even z.
Proof.
  intros H. unfold round_half_even. rewrite (Qfloor_comp y z H).
  set (f := Qfloor z).
  assert (Hb : forall a b c d, a == b -> c == d -> Qlt_bool a c = Qlt_bool b d).
  { intros a b c d Hab Hcd. destruct (Qlt_bool a c) eqn:E1, (Qlt_bool b d) eqn:E2;
      try reflexivity.
    - apply QuizRouteProofs.Qlt_bool_iff in E1.
      apply QuizRouteProofs.Qlt_bool_false in E2; lra.
    - apply QuizRouteProofs.Qlt_bool_iff in E2.
      apply QuizRouteProofs.Qlt_bool_false in E1; lra. }
  rewrite (Hb (y - inject_Z f) (z - inject_Z f) (1 # 2) (1 # 2)) by lra.
  rewrite (Hb (1 # 2) (1 # 2) (y - inject_Z f) (z - inject_Z f)) by lra.
  reflexivity.
Qed.

Lemma round_half_even_le (y z : Q) : y <= z -> (round_half_even y <= round_half_even z)%Z.
Proof.
  intros H. pose proof (Qfloor_resp_le y z H) as Hf.
  destruct (Z.eq_dec (Qfloor y) (Qfloor z)) as [E | NE].
  - unfold round_half_even. rewrite E. set (f := Qfloor z).
    destruct (Qlt_bool (y - inject_Z f) (1 # 2)) eqn:Ey1.
    + destruct (Qlt_bool (z - inject_Z f) (1 # 2)); [lia |].
      destruct (Qlt_bool (1 # 2) (z - inject_Z f)); [lia |]. destruct (Z.even f); lia.
    + apply QuizRouteProofs.Qlt_bool_false in Ey1.
      assert (Qlt_bool (z - inject_Z f) (1 # 2) = false) as ->.
      { apply QuizRouteProofs.Qlt_bool_false. lra. }
      destruct (Qlt_bool (1 # 2) (y - inject_Z f)) eqn:Ey2.
      * apply QuizRouteProofs.Qlt_bool_iff in Ey2.
        assert (Qlt_bool (1 # 2) (z - inject_Z f) = true) as ->.
        { apply QuizRouteProofs.Qlt_bool_iff. lra. }
        lia.
      * destruct (Qlt_bool (1 # 2) (z - inject_Z f)); [destruct (Z.even f); lia | lia].
  - destruct (round_half_even_cases y) as [-> | ->],
             (round_half_even_cases z) as [-> | ->]; lia.
Qed.

Lemma round_half_even_nonneg (y : Q) : 0 <= y -> (0 <= round_half_even y)%Z.
Proof.
  intros H. rewrite <- (round_half_even_Z 0). apply round_half_even_le. exact H.
Qed.

(** *** The nearest double *)

Lemma scaled_back (x : Q) (q : Z) : x / pow2 q * pow2 q == x.
Proof. field. pose proof (pow2_pos q). lra. Qed.

Lemma fl_pos_nonneg (x : Q) : 0 <= x -> 0 <= fl_pos x.
Proof.
  intros H. unfold fl_pos. pose proof (pow2_pos (last_bit x)) as Hp.
  assert (0 <= x / pow2 (last_bit x)) by (apply Qle_shift_div_l; lra).
  pose proof (round_half_even_nonneg _ H0) as Hr.
  rewrite Zle_Qle in Hr. change (inject_Z 0) with 0 in Hr. nra.
Qed.

Lemma fl_pos_comp (x y : Q) : 0 < x -> x == y -> fl_pos x == fl_pos y.
Proof.
  intros Hx Hxy. unfold fl_pos. rewrite (last_bit_comp x y Hx Hxy).
  rewrite (round_half_even_comp (x / pow2 (last_bit y)) (y / pow2 (last_bit y))).
  - reflexivity.
  - rewrite Hxy. reflexivity.
Qed.

(** With the same last bit, rounding keeps the order. *)
Lemma fl_pos_le_same (x y : Q) (q : Z) :
  x <= y ->
  inject_Z (round_half_even (x / pow2 q)) * pow2 q
  <= inject_Z (round_half_even (y / pow2 q)) * pow2 q.
Proof.
  intros H. pose proof (pow2_pos q) as Hp.
  assert (x / pow2 q <= y / pow2 q).
  { apply Qle_shift_div_l; [exact Hp |]. rewrite scaled_back. exact H. }
  pose proof (round_half_even_le _ _ H0) as Hr. rewrite Zle_Qle in Hr. nra.
Qed.

(** A positive number rounds to at most the power of two above it, and to
    at least the power of two below it when that is not subnormal. *)
Lemma fl_pos_below (x : Q) (e : Z) :
  0 < x -> x <= pow2 e -> (last_bit x <= e)%Z -> fl_pos x <= pow2 e.
Proof.
  intros Hx Hxe Hq. unfold fl_pos. set (q := last_bit x) in *.
  pose proof (pow2_pos q) as Hp.
  assert (He : pow2 e == inject_Z (2 ^ (e - q)) * pow2 q).
  { rewrite <- pow2_Z by lia. rewrite <- pow2_add.
    replace (e - q + q)%Z with e by lia. reflexivity. }
  assert (x / pow2 q <= inject_Z (2 ^ (e - q))).
  { apply Qle_shift_div_r; [exact Hp |]. rewrite <- He. exact Hxe. }
  pose proof (round_half_even_le _ _ H) as Hr. rewrite round_half_even_Z in Hr.
  rewrite Zle_Qle in Hr. rewrite He. nra.
Qed.

Lemma fl_pos_above (x : Q) (e : Z) :
  pow2 e <= x -> (last_bit x <= e)%Z -> pow2 e <= fl_pos x.
Proof.
  intros Hxe Hq. unfold fl_pos. set (q := last_bit x) in *.
  pose proof (pow2_pos q) as Hp.
  assert (He : pow2 e == inject_Z (2 ^ (e - q)) * pow2 q).
  { rewrite <- pow2_Z by lia. rewrite <- pow2_add.
    replace (e - q + q)%Z with e by lia. reflexivity. }
  assert (inject_Z (2 ^ (e - q)) <= x / pow2 q).
  { apply Qle_shift_div_l; [exact Hp |]. rewrite <- He. exact Hxe. }
  pose proof (round_half_even_le _ _ H) as Hr. rewrite round_half_even_Z in Hr.
  rewrite Zle_Qle in Hr. rewrite He. nra.
Qed.

Lemma fl_pos_le (x y : Q) : 0 < x -> x <= y -> fl_pos x <= fl_pos y.
Proof.
  intros Hx Hxy. assert (Hy : 0 < y) by lra.
  pose proof (last_bit_le x y Hx Hxy) as Hq.
  destruct (Z.eq_dec (last_bit x) (last_bit y)) as [E | NE].
  - unfold fl_pos. rewrite E. apply fl_pos_le_same. exact Hxy.
  - (* the last bit of [y] is above that of [x]: a power of two lies between *)
    destruct (ilog2_spec x Hx) as [Hx1 Hx2]. destruct (ilog2_spec y Hy) as [Hy1 Hy2].
    assert (Hexp : (ilog2 x < ilog2 y)%Z).
    { unfold last_bit in *. pose proof (ilog2_le x y Hx Hxy). lia. }
    assert (Hmid : pow2 (ilog2 x + 1) <= pow2 (ilog2 y)) by (apply pow2_le; lia).
    apply Qle_trans with (pow2 (ilog2 y)).
    + apply fl_pos_below; [exact Hx | lra | unfold last_bit in *; lia].
    + apply fl_pos_above; [exact Hy1 | unfold last_bit in *; lia].
Qed.

Lemma Qeq_bool_false_pos (x : Q) : 0 < x -> Qeq_bool x 0 = false.
Proof.
  intros H. destruct (Qeq_bool x 0) eqn:E; [| reflexivity].
  apply Qeq_bool_eq in E. lra.
Qed.

Lemma fl_of_pos (x : Q) : 0 < x -> fl x = fl_pos x.
Proof.
  intros H. unfold fl. rewrite (Qeq_bool_false_pos x H).
  assert (Qlt_bool x 0 = false) as -> by (apply QuizRouteProofs.Qlt_bool_false; lra).
  reflexivity.
Qed.

Lemma fl_of_0 (x : Q) : x == 0 -> fl x = 0.
Proof. intros H. unfold fl. rewrite (Qeq_eq_bool _ _ H). reflexivity. Qed.

(** Rounding keeps what is not negative so, and keeps the order. *)
Lemma fl_nonneg (x : Q) : 0 <= x -> 0 <= fl x.
Proof.
  intros H. destruct (Qeq_dec x 0) as [E | NE].
  - rewrite (fl_of_0 x E). lra.
  - rewrite fl_of_pos by lra. apply fl_pos_nonneg. exact H.
Qed.

Lemma fl_le (x y : Q) : 0 <= x -> x <= y -> fl x <= fl y.
Proof.
  intros Hx Hxy. destruct (Qeq_dec x 0) as [E | NE].
  - rewrite (fl_of_0 x E). apply fl_nonneg. lra.
  - rewrite !fl_of_pos by lra. apply fl_pos_le; lra.
Qed.

Lemma fl_comp (x y : Q) : 0 <= x -> x == y -> fl x == fl y.
Proof.
  intros Hx Hxy. destruct (Qeq_dec x 0) as [E | NE].
  - rewrite (fl_of_0 x E), (fl_of_0 y); [reflexivity | lra].
  - rewrite !fl_of_pos by lra. apply fl_pos_comp; lra.
Qed.

(** A number whose quotient by its last bit is an integer is a double. *)
Lemma fl_pos_fixed (x : Q) (m : Z) :
  x == inject_Z m * pow2 (last_bit x) -> fl_pos x == x.
Proof.
  intros H. unfold fl_pos. pose proof (pow2_pos (last_bit x)) as Hp.
  rewrite (round_half_even_comp _ (inject_Z m)).
  - rewrite round_half_even_Z. symmetry. exact H.
  - rewrite H at 1. field. lra.
Qed.

(** The significand of the nearest double has at most 53 bits. *)
Lemma significand_bound (x : Q) :
  0 < x -> (round_half_even (x / pow2 (last_bit x)) <= 2 ^ 53)%Z.
Proof.
  intros Hx. destruct (ilog2_spec x Hx) as [_ H2].
  pose proof (pow2_pos (last_bit x)) as Hp.
  rewrite <- (round_half_even_Z (2 ^ 53)). apply round_half_even_le.
  apply Qle_shift_div_r; [exact Hp |].
  rewrite <- pow2_Z by lia. rewrite <- pow2_add.
  apply Qle_trans with (pow2 (ilog2 x + 1)); [lra |].
  apply pow2_le. unfold last_bit. lia.
Qed.

Lemma fl_pos_idempotent (x : Q) : 0 < x -> fl (fl_pos x) == fl_pos x.
Proof.
  intros Hx. pose proof (significand_bound x Hx) as Hm.
  pose proof (fl_pos_nonneg x (Qlt_le_weak _ _ Hx)) as Hz.
  destruct (Qeq_dec (fl_pos x) 0) as [E | NE].
  { rewrite (fl_of_0 _ E). symmetry. exact E. }
  rewrite fl_of_pos by lra.
  unfold fl_pos in Hz, NE |- *. set (q := last_bit x) in *.
  set (m := round_half_even (x / pow2 q)) in *.
  pose proof (pow2_pos q) as Hp.
  assert (Hm0 : (0 < m)%Z).
  { destruct (Z_lt_le_dec 0 m) as [H | H]; [exact H |].
    exfalso. apply NE. rewrite Zle_Qle in H. change (inject_Z 0) with 0 in H.
    assert (inject_Z m * pow2 q <= 0) by nra. lra. }
  set (z := inject_Z m * pow2 q) in *.
  assert (Hzpos : 0 < z) by lra.
  destruct (log2_bounds m Hm0) as [Hl1 Hl2].
  assert (He : ilog2 z = (Z.log2 m + q)%Z).
  { apply ilog2_unique.
    - rewrite pow2_add. unfold z. nra.
    - replace (Z.log2 m + q + 1)%Z with ((Z.log2 m + 1) + q)%Z by lia.
      rewrite pow2_add, pow2_succ. unfold z. nra. }
  assert (Hq : (-1074 <= q)%Z) by (unfold q, last_bit; lia).
  assert (Hlog : (Z.log2 m <= 53)%Z).
  { pose proof (Z.log2_le_mono m (2 ^ 53) Hm) as H.
    rewrite Z.log2_pow2 in H by lia. exact H. }
  destruct (Z_le_gt_dec (Z.log2 m) 52) as [Hsmall | Hbig].
  - assert (Hqz : (last_bit z <= q)%Z) by (unfold last_bit; rewrite He; lia).
    apply (fl_pos_fixed z (m * 2 ^ (q - last_bit z))).
    rewrite inject_Z_mult. rewrite <- pow2_Z by lia.
    rewrite <- Qmult_assoc, <- pow2_add.
    replace (q - last_bit z + last_bit z)%Z with q by lia. reflexivity.
  - assert (Hlm : Z.log2 m = 53%Z) by lia.
    assert (Hm53 : m = (2 ^ 53)%Z).
    { destruct (Z.log2_spec m Hm0) as [H _]. rewrite Hlm in H. lia. }
    assert (Hqz : last_bit z = (q + 1)%Z) by (unfold last_bit; rewrite He; lia).
    apply (fl_pos_fixed z (2 ^ 52)). rewrite Hqz, pow2_succ.
    unfold z. rewrite Hm53.
    change (inject_Z (2 ^ 53)) with (2 * inject_Z (2 ^ 52)). ring.
Qed.

(** What is rounded is a double. *)
Lemma fl_is_double (x : Q) : 0 <= x -> is_double (fl x).
Proof.
  intros H. unfold is_double. destruct (Qeq_dec x 0) as [E | NE].
  - rewrite (fl_of_0 x E). reflexivity.
  - rewrite (fl_of_pos x) by lra. apply fl_pos_idempotent. lra.
Qed.

Lemma is_double_0 : is_double 0.
Proof. reflexivity. Qed.

(** A double is at most the double it is rounded from above. *)
Lemma double_le_fl (x y : Q) : is_double x -> 0 <= x -> x <= y -> x <= fl y.
Proof.
  intros Hd Hx Hxy. unfold is_double in Hd. rewrite <- Hd. apply fl_le; assumption.
Qed.

Lemma fl_le_double (x y : Q) : is_double y -> 0 <= x -> x <= y -> fl x <= y.
Proof.
  intros Hd Hx Hxy. unfold is_double in Hd. rewrite <- Hd. apply fl_le; assumption.
Qed.

(** The doubles below 1 end at [1 - 2^-53]. *)
Lemma double_below_1 (x : Q) : is_double x -> x < 1 -> x <= 1 - pow2 (-53).
Proof.
  intros Hd H1. destruct (Qlt_le_dec x (1 # 2)) as [Hs | Hl].
  { assert (pow2 (-53) <= 1 # 2) by (vm_compute; discriminate). lra. }
  assert (Hx : 0 < x) by lra.
  assert (He : ilog2 x = (-1)%Z).
  { apply ilog2_unique; [change (pow2 (-1)) with (1 # 2) | change (pow2 (-1 + 1)) with 1];
      assumption. }
  unfold is_double in Hd. rewrite (fl_of_pos x Hx) in Hd. unfold fl_pos in Hd.
  assert (Hq : last_bit x = (-53)%Z) by (unfold last_bit; rewrite He; reflexivity).
  rewrite Hq in Hd. set (m := round_half_even (x / pow2 (-53))) in *.
  pose proof (pow2_pos (-53)) as Hp.
  assert (H53 : pow2 (-53) * inject_Z (2 ^ 53) == 1) by reflexivity.
  assert (Hm : (m < 2 ^ 53)%Z).
  { rewrite Zlt_Qlt. apply Qnot_le_lt. intros Hc. nra. }
  assert (Hm' : (m <= 2 ^ 53 - 1)%Z) by lia.
  rewrite Zle_Qle in Hm'. unfold Z.sub in Hm'. rewrite inject_Z_plus in Hm'.
  change (inject_Z (- (1))) with (- (1)) in Hm'. nra.
Qed.

(** *** The distance to the nearest double *)

Lemma round_half_even_near (y : Q) :
  y - (1 # 2) <= inject_Z (round_half_even y) /\ inject_Z (round_half_even y) <= y + (1 # 2).
Proof.
  pose proof (Qfloor_le y) as Hlo. pose proof (Qlt_floor y) as Hhi.
  unfold round_half_even. set (f := Qfloor y) in *.
  assert (Hs : inject_Z (f + 1) == inject_Z f + 1).
  { rewrite inject_Z_plus. reflexivity. }
  destruct (Qlt_bool (y - inject_Z f) (1 # 2)) eqn:E1.
  - apply QuizRouteProofs.Qlt_bool_iff in E1. split; lra.
  - apply QuizRouteProofs.Qlt_bool_false in E1.
    destruct (Qlt_bool (1 # 2) (y - inject_Z f)) eqn:E2.
    + rewrite Hs. split; lra.
    + apply QuizRouteProofs.Qlt_bool_false in E2.
      destruct (Z.even f); [| rewrite Hs]; split; lra.
Qed.

(** A double is at most half a last bit away. *)
Lemma fl_pos_near (x : Q) :
  0 < x ->
  x - pow2 (last_bit x) * (1 # 2) <= fl_pos x
  /\ fl_pos x <= x + pow2 (last_bit x) * (1 # 2).
Proof.
  intros Hx. unfold fl_pos. set (q := last_bit x).
  pose proof (pow2_pos q) as Hp.
  pose proof (scaled_back x q) as Hb.
  destruct (round_half_even_near (x / pow2 q)) as [H1 H2].
  set (y := x / pow2 q) in *. set (r := inject_Z (round_half_even y)) in *.
  split; nra.
Qed.

Lemma last_bit_below (x : Q) (e : Z) :
  0 < x -> x < pow2 (e + 1) -> (-1074 <= e - 52)%Z -> (last_bit x <= e - 52)%Z.
Proof.
  intros Hx Hlt He. destruct (ilog2_spec x Hx) as [H1 _].
  assert (ilog2 x < e + 1)%Z by (apply pow2_lt_inv; lra).
  unfold last_bit. lia.
Qed.

(** Below [2^(e+1)], and not below the normal doubles, rounding moves a
    number by [2^(e-53)] at most. *)
Lemma fl_near (x : Q) (e : Z) :
  0 <= x -> x < pow2 (e + 1) -> (-1074 <= e - 52)%Z ->
  x - pow2 (e - 53) <= fl x /\ fl x <= x + pow2 (e - 53).
Proof.
  intros Hx Hlt He. pose proof (pow2_pos (e - 53)) as Hp.
  destruct (Qeq_dec x 0) as [E | NE].
  { rewrite (fl_of_0 x E). split; lra. }
  rewrite fl_of_pos by lra.
  destruct (fl_pos_near x) as [H1 H2]; [lra |].
  pose proof (last_bit_below x e ltac:(lra) Hlt He) as Hq.
  pose proof (pow2_le _ _ Hq) as Hle.
  assert (Hh : pow2 (e - 52) == 2 * pow2 (e - 53)).
  { rewrite <- pow2_succ. replace (e - 53 + 1)%Z with (e - 52)%Z by lia. reflexivity. }
  pose proof (pow2_pos (last_bit x)) as Hp'.
  split; lra.
Qed.

(** *** Integers and multiples of the last bit *)

Lemma Qfloor_unique (x : Q) (k : Z) :
  inject_Z k <= x -> x < inject_Z k + 1 -> Qfloor x = k.
Proof.
  intros H1 H2.
  pose proof (Qfloor_resp_le _ _ H1) as Ha. rewrite Qfloor_Z in Ha.
  pose proof (Qfloor_le x) as Hb.
  assert (Hc : (Qfloor x < k + 1)%Z).
  { rewrite Zlt_Qlt, inject_Z_plus. change (inject_Z 1) with 1. lra. }
  lia.
Qed.

(** What [is_double] says of a positive number: it is a multiple of its
    last bit. *)
Lemma double_multiple (x : Q) :
  is_double x -> 0 < x -> exists m : Z, x == inject_Z m * pow2 (last_bit x).
Proof.
  intros Hd Hx. unfold is_double in Hd. rewrite (fl_of_pos x Hx) in Hd.
  unfold fl_pos in Hd. eexists. symmetry. exact Hd.
Qed.

(** The integers below [2^53] are doubles. *)
Lemma integer_is_double (k : Z) : (0 <= k < 2 ^ 53)%Z -> is_double (inject_Z k).
Proof.
  intros [H0 H1]. unfold is_double.
  destruct (Z.eq_dec k 0%Z) as [-> | NE]; [reflexivity |].
  assert (Hx : 0 < inject_Z k).
  { change 0 with (inject_Z 0). rewrite <- Zlt_Qlt. lia. }
  rewrite (fl_of_pos _ Hx).
  destruct (ilog2_spec _ Hx) as [Hlo Hhi].
  assert (Hil : (ilog2 (inject_Z k) < 53)%Z).
  { apply pow2_lt_inv. apply Qle_lt_trans with (inject_Z k); [exact Hlo |].
    rewrite pow2_Z by lia. rewrite <- Zlt_Qlt. exact H1. }
  assert (Hq : (last_bit (inject_Z k) <= 0)%Z) by (unfold last_bit; lia).
  apply (fl_pos_fixed _ (k * 2 ^ (- last_bit (inject_Z k)))).
  set (q := last_bit (inject_Z k)) in *.
  rewrite inject_Z_mult, <- pow2_Z by lia.
  rewrite <- Qmult_assoc, <- pow2_add.
  replace (- q + q)%Z with 0%Z by lia. change (pow2 0) with 1. ring.
Qed.

(** [Math.floor(time / 60)], the minutes of [formatTime]: the quotient
    rounded to a double has the floor of the quotient itself, for a time
    that is a double below [2^53]. *)
Lemma minutes_in_doubles (time : Q) :
  is_double time -> 0 <= time -> time < inject_Z (2 ^ 53) ->
  Qfloor (fdiv time 60) = Qfloor (time / 60).
Proof.
  unfold fdiv. intros Hd H0 Hbig.
  set (k := Qfloor (time / 60)).
  pose proof (Qfloor_le (time / 60)) as Hk1. pose proof (Qlt_floor (time / 60)) as Hk2.
  fold k in Hk1, Hk2. rewrite inject_Z_plus in Hk2. change (inject_Z 1) with 1 in Hk2.
  assert (Hq0 : 0 <= time / 60) by (apply Qle_shift_div_l; lra).
  assert (Hk0 : (0 <= k)%Z).
  { subst k. change 0%Z with (Qfloor 0). apply Qfloor_resp_le. exact Hq0. }
  assert (Hqt : time / 60 * 60 == time) by (field; discriminate).
  assert (Hkb : (k < 2 ^ 53)%Z).
  { rewrite Zlt_Qlt. lra. }
  apply Qfloor_unique.
  - apply double_le_fl; [apply integer_is_double; lia | | exact Hk1].
    change 0 with (inject_Z 0). rewrite <- Zle_Qle. exact Hk0.
  - destruct (Qlt_le_dec time 1) as [Hs | Hl].
    + assert (Dh : is_double (1 # 2)) by (vm_compute; reflexivity).
      assert (fl (time / 60) <= 1 # 2).
      { apply fl_le_double; [exact Dh | exact Hq0 |]. lra. }
      assert (0 <= inject_Z k).
      { change 0 with (inject_Z 0). rewrite <- Zle_Qle. exact Hk0. }
      lra.
    + assert (Hx : 0 < time) by lra.
      destruct (ilog2_spec time Hx) as [Hlo Hhi].
      assert (Hil0 : (0 <= ilog2 time)%Z).
      { change 0%Z with (ilog2 1). apply ilog2_le; [reflexivity | exact Hl]. }
      assert (Hil1 : (ilog2 time < 53)%Z).
      { apply pow2_lt_inv. apply Qle_lt_trans with time; [exact Hlo |].
        rewrite pow2_Z by lia. exact Hbig. }
      destruct (double_multiple time Hd Hx) as [m Hm].
      assert (Hq : last_bit time = (ilog2 time - 52)%Z) by (unfold last_bit; lia).
      rewrite Hq in Hm. set (q := (ilog2 time - 52)%Z) in *.
      pose proof (pow2_pos q) as Hp.
      (* the distance from the time to the next multiple of 60 is a
         multiple of the last bit *)
      assert (Hone : pow2 q * inject_Z (2 ^ (- q)) == 1).
      { rewrite <- pow2_Z by lia. rewrite <- pow2_add.
        replace (q + - q)%Z with 0%Z by lia. reflexivity. }
      set (n := (60 * (k + 1) * 2 ^ (- q) - m)%Z).
      assert (Hn : 60 * (inject_Z k + 1) - time == inject_Z n * pow2 q).
      { subst n. unfold Z.sub. rewrite inject_Z_plus, inject_Z_opp, !inject_Z_mult.
        rewrite inject_Z_plus. change (inject_Z 60) with 60. change (inject_Z 1) with 1.
        rewrite Hm.
        transitivity (60 * (inject_Z k + 1) * (pow2 q * inject_Z (2 ^ (- q)))
                      - inject_Z m * pow2 q); [rewrite Hone; ring | ring]. }
      assert (Hn1 : (1 <= n)%Z).
      { assert (0 < n)%Z; [| lia]. rewrite Zlt_Qlt. change (inject_Z 0) with 0.
        apply Qnot_le_lt. intros Hc. nra. }
      assert (Hgap : pow2 q <= 60 * (inject_Z k + 1) - time).
      { rewrite Hn. rewrite Zle_Qle in Hn1. change (inject_Z 1) with 1 in Hn1. nra. }
      destruct (fl_near (time / 60) (ilog2 time - 5)) as [_ Hup]; [exact Hq0 | | lia |].
      { replace (ilog2 time - 5 + 1)%Z with (ilog2 time - 4)%Z by lia.
        assert (E : pow2 (ilog2 time + 1) == 32 * pow2 (ilog2 time - 4)).
        { replace (ilog2 time + 1)%Z with (5 + (ilog2 time - 4))%Z by lia.
          rewrite pow2_add. reflexivity. }
        pose proof (pow2_pos (ilog2 time - 4)). lra. }
      assert (E : pow2 q == 64 * pow2 (ilog2 time - 5 - 53)).
      { subst q. replace (ilog2 time - 52)%Z with (6 + (ilog2 time - 5 - 53))%Z by lia.
        rewrite pow2_add. reflexivity. }
      lra.
Qed.

End JSDoubleFacts.

Module QuizPageProofs.
Import JS JSNumber JSDouble QuizPage.

(** The loop of [forEach] counts the indices whose answer matches. *)
Lemma count_correct_filter (correct : list jsval) (answers pre : list string) :
  count_correct (length pre) answers correct
  = length (List.filter (matches_at (pre ++ answers) correct)
                        (seq (length pre) (length answers))).
Proof.
  revert pre. induction answers as [| a rest IH]; intros pre; simpl; [reflexivity |].
  unfold matches_at at 1. rewrite lookup_app_r by lia.
  replace (length pre - length pre)%nat with 0%nat by lia. simpl.
  specialize (IH (pre ++ [a])).
  rewrite length_app in IH. simpl in IH.
  replace (length pre + 1)%nat with (S (length pre)) in IH by lia.
  rewrite <- app_assoc in IH. simpl in IH. rewrite IH.
  destruct (answer_matches a (correct !! length pre)); reflexivity.
Qed.

Lemma count_correct_spec (answers : list string) (correct : list jsval) :
  count_correct 0 answers correct = matching_count answers correct (length answers).
Proof.
  exact (count_correct_filter correct answers []).
Qed.

Lemma answer_zero_matches (v : option jsval) :
  answer_matches "0" v = strict_eq_num (default JUndefined v) 0.
Proof.
  destruct v as [[| | | q | | |] |]; reflexivity.
Qed.

Lemma filter_ext_seq (f g : nat -> bool) (a n : nat) :
  (forall k, (a <= k < a + n)%nat -> f k = g k) ->
  List.filter f (seq a n) = List.filter g (seq a n).
Proof.
  revert a. induction n as [| n IH]; intros a H; simpl; [reflexivity |].
  rewrite (H a) by lia. rewrite (IH (S a)); [reflexivity |].
  intros k Hk. apply H. lia.
Qed.

Lemma filter_seq_none (f : nat -> bool) (a n : nat) :
  (forall k, (a <= k)%nat -> f k = false) -> List.filter f (seq a n) = [].
Proof.
  revert a. induction n as [| n IH]; intros a H; simpl; [reflexivity |].
  rewrite (H a) by lia. apply IH. intros k Hk. apply H. lia.
Qed.

Lemma matches_at_beyond (answers : list string) (correct : list jsval) (k : nat) :
  (length answers <= k \/ length correct <= k)%nat -> matches_at answers correct k = false.
Proof.
  unfold matches_at. intros [H | H].
  - rewrite (lookup_ge_None_2 answers k) by exact H. reflexivity.
  - rewrite (lookup_ge_None_2 correct k) by exact H.
    destruct (answers !! k) as [a |]; [| reflexivity].
    unfold answer_matches. destruct (parseInt a); reflexivity.
Qed.

(** Counting up to [n] is counting up to the shorter of the two arrays,
    once [n] has reached it. *)
Lemma matching_count_min (answers : list string) (correct : list jsval) (n : nat) :
  (length answers `min` length correct <= n)%nat ->
  matching_count answers correct n
  = matching_count answers correct (length answers `min` length correct).
Proof.
  intros H. unfold matching_count.
  set (m := (length answers `min` length correct)%nat) in *.
  assert (Hn : n = (m + (n - m))%nat) by lia.
  rewrite Hn at 1.
  rewrite seq_app, List.filter_app, length_app.
  rewrite (filter_seq_none (matches_at answers correct) (0 + m) (n - m));
    [simpl; lia |].
  intros k Hk. apply matches_at_beyond. subst m. lia.
Qed.

(** What the route returns reads as [quizData], with as many correct
    indices as questions. *)
Lemma returned_quiz_is_quizData
    (env : QuizRoute.Env) (topic_ : string) (difficulty_ questionCount : jsval)
    (body : QuizRoute.Quiz) :
  QuizRoute.value (QuizRoute.generateQuizWithGroq env topic_ difficulty_ questionCount)
  = inr body ->
  exists qd, quizData_of body = Some qd
             /\ length (correct_answers qd) = length (questions qd).
Proof.
  intros H.
  apply QuizRouteProofs.generateQuizWithGroq_inr in H as (raw & lg & _ & Hv & _).
  apply QuizRouteProofs.validate_quiz_inr in Hv
    as (qs & opts & cas & exps & cas' & lg0 & Hq & Ho & Hc & He & Hloop & -> & _).
  apply QuizRouteProofs.array_of_length_Some in Hq as [Hq Hnq], Ho as [Ho _],
      Hc as [_ Hnc], He as [He _].
  pose proof (QuizRouteProofs.strict_eq_num_length _ _ _ Hnq Hnc) as Hlc.
  apply QuizRouteProofs.validate_from_inr in Hloop as [Hlen _].
  unfold quizData_of. simpl. rewrite Hq, Ho, He.
  eexists. split; [reflexivity |]. simpl. lia.
Qed.

(** The loop counts the questions whose answer matches, among those the
    quiz has. *)
Lemma count_correct_questions (answers : list string) (correct : list jsval) (n : nat) :
  length correct = n ->
  count_correct 0 answers correct = matching_count answers correct n.
Proof.
  intros Hn. rewrite count_correct_spec.
  rewrite (matching_count_min _ _ n) by lia.
  apply matching_count_min. lia.
Qed.

Lemma Qeq_bool_sym (a b : Q) : Qeq_bool a b = Qeq_bool b a.
Proof. unfold Qeq_bool. apply Z.eqb_sym. Qed.

(** The text kept for an answer is read back as its index: [parseInt]
    undoes [toString], and gives no number for the empty text. *)
Lemma answer_text_matches (selected : option nat) (v : option jsval) :
  answer_matches (answer_text selected) v = index_equals selected v.
Proof.
  destruct selected as [k |]; [| reflexivity].
  unfold answer_matches, answer_text, index_equals.
  rewrite JSNumberFacts.parseInt_nat_toString.
  destruct v as [[| | | q | | |] |]; try reflexivity.
  apply Qeq_bool_sym.
Qed.

(** What the loop counts is what the specification counts. *)
Lemma matching_count_spec (selected : list (option nat)) (correct : list jsval) (n : nat) :
  matching_count (map answer_text selected) correct n
  = spec_matching_questions selected correct n.
Proof.
  unfold matching_count, spec_matching_questions. f_equal.
  apply filter_ext_seq. intros k _. unfold matches_at.
  change (map answer_text selected) with (answer_text <$> selected).
  rewrite list_lookup_fmap. destruct (selected !! k) as [sel |]; simpl; [| reflexivity].
  apply answer_text_matches.
Qed.

(** The two roundings of the score move it by less than [2^-45] from the
    percentage. *)
Lemma score_near (c n : nat) :
  (c <= n)%nat -> (0 < n)%nat ->
  (of_nat c / of_nat n * 100 - (1 # 35184372088832)
   <= fmul (fdiv (of_nat c) (of_nat n)) 100)%Q
  /\ (fmul (fdiv (of_nat c) (of_nat n)) 100
      <= of_nat c / of_nat n * 100 + (1 # 35184372088832))%Q.
Proof.
  intros Hc Hn. unfold fmul, fdiv, of_nat.
  assert (Hn' : (0 < inject_Z (Z.of_nat n))%Q).
  { change 0%Q with (inject_Z 0). rewrite <- Zlt_Qlt. lia. }
  assert (Hc0 : (0 <= inject_Z (Z.of_nat c))%Q).
  { change 0%Q with (inject_Z 0). rewrite <- Zle_Qle. lia. }
  assert (Hcn : (inject_Z (Z.of_nat c) <= inject_Z (Z.of_nat n))%Q).
  { rewrite <- Zle_Qle. lia. }
  set (x := inject_Z (Z.of_nat c)) in *. set (y := inject_Z (Z.of_nat n)) in *.
  assert (Hq0 : (0 <= x / y)%Q) by (apply Qle_shift_div_l; [exact Hn' | lra]).
  assert (Hq1 : (x / y <= 1)%Q) by (apply Qle_shift_div_r; [exact Hn' | lra]).
  assert (D1 : is_double 1) by (vm_compute; reflexivity).
  pose proof (JSDoubleFacts.fl_nonneg _ Hq0) as Hd0.
  pose proof (JSDoubleFacts.fl_le_double _ _ D1 Hq0 Hq1) as Hd1.
  destruct (JSDoubleFacts.fl_near (x / y) 0) as [Ha Hb]; [exact Hq0 | | lia |].
  { change (pow2 (0 + 1)) with 2%Q. lra. }
  destruct (JSDoubleFacts.fl_near (fl (x / y) * 100) 6) as [Ha' Hb']; [lra | | lia |].
  { change (pow2 (6 + 1)) with 128%Q. lra. }
  change (pow2 (0 - 53)) with (1 # 9007199254740992)%Q in Ha, Hb.
  change (pow2 (6 - 53)) with (1 # 140737488355328)%Q in Ha', Hb'.
  split; lra.
Qed.

(** C6. The score is a function of the answers and of the correct indices
    alone.  The answers are the indices the learner selected, kept as the
    page keeps them.  For a quiz with as many correct indices as questions,
    which is what the route returns, [correctAnswers] is the number of
    questions whose answer index equals the correct index, [score] is that
    number divided by the number of questions, times 100, as the doubles
    divide and multiply, which is less than [2^-45] away from the
    percentage; and five answers 0 to a quiz of five questions score the
    number of questions whose correct index is 0, divided by 5, times
    100. *)
Theorem quiz_score_is_percentage_of_matches
    (random : Q) (st : State) (qd : QuizData) (res : QuizResults)
    (selected : list (option nat)) :
  quizData st = Some qd ->
  length (correct_answers qd) = length (questions qd) ->
  userAnswers st = map answer_text selected ->
  results_of (handleSubmitQuiz random st) = Some res ->
  let total := length (questions qd) in
  let matching := spec_matching_questions selected (correct_answers qd) total in
  correctAnswers res = matching
  /\ (total <> 0%nat ->
      score res = Some (fmul (fdiv (of_nat matching) (of_nat total)) 100))
  /\ (total <> 0%nat ->
      (of_nat matching / of_nat total * 100 - (1 # 35184372088832)
       <= fmul (fdiv (of_nat matching) (of_nat total)) 100)%Q
      /\ (fmul (fdiv (of_nat matching) (of_nat total)) 100
          <= of_nat matching / of_nat total * 100 + (1 # 35184372088832))%Q)
  /\ (total = 5%nat -> selected = [Some 0; Some 0; Some 0; Some 0; Some 0]%nat ->
      score res
      = Some (fmul (fdiv (of_nat (spec_zero_indexed (correct_answers qd) 5)) (of_nat 5))
                   100)).
Proof.
  intros Hqd Hlen Hsel Hres total matching.
  unfold handleSubmitQuiz in Hres. rewrite Hqd in Hres.
  destruct (sessionId st) as [sid |]; [| discriminate].
  destruct (negb (String.eqb sid "")); [| discriminate].
  simpl in Hres. injection Hres as <-. simpl.
  assert (Hcount : count_correct 0 (userAnswers st) (correct_answers qd) = matching).
  { rewrite (count_correct_questions _ _ total Hlen), Hsel. apply matching_count_spec. }
  rewrite Hcount. fold total.
  split; [reflexivity |]. split; [| split].
  - intros Hne. unfold quizScore. destruct total; [contradiction | reflexivity].
  - intros Hne. apply score_near; [| lia].
    subst matching. unfold spec_matching_questions.
    etransitivity; [apply List.filter_length_le |]. rewrite length_seq. lia.
  - intros Hfive Hzero. subst matching. rewrite Hfive, Hzero.
    unfold quizScore. do 4 f_equal.
    unfold spec_matching_questions, spec_zero_indexed. f_equal.
    apply filter_ext_seq. intros k Hk.
    do 5 (destruct k as [| k];
          [simpl; destruct (correct_answers qd !! _) as [[| | | q | | |] |]; reflexivity |]).
    lia.
Qed.

Lemma quiz_score_is_percentage_of_matches_witness :
  exists res,
    results_of (handleSubmitQuiz (1 # 2) all_zero_state) = Some res
    /\ correctAnswers res = 2%nat
    /\ score res
       = Some (fmul (fdiv (of_nat (spec_zero_indexed (correct_answers five_questions) 5))
                          (of_nat 5)) 100).
Proof.
  destruct (results_of (handleSubmitQuiz (1 # 2) all_zero_state)) as [res |] eqn:E;
    [| discriminate E].
  exists res. split; [reflexivity |].
  destruct (quiz_score_is_percentage_of_matches (1 # 2) all_zero_state five_questions
              res [Some 0; Some 0; Some 0; Some 0; Some 0]%nat eq_refl eq_refl eq_refl E)
    as (H1 & _ & _ & H3).
  split; [exact H1 |]. apply H3; reflexivity.
Defined.

(** One question right of three scores the double 33.33333333333333, which
    is below a third of 100. *)
Lemma a_third_is_rounded :
  quizScore 1 3 = Some (fmul (fdiv 1 3) 100)
  /\ (fmul (fdiv 1 3) 100 == 2345624805922133 # 70368744177664)%Q
  /\ (fmul (fdiv 1 3) 100 < 1 / 3 * 100)%Q.
Proof. split; [reflexivity |]. split; vm_compute; reflexivity. Qed.

(** C3, as stated, fails: the same page, submitted with two draws of
    [Math.random()], records the stress estimates 60 and 75. *)
Lemma stress_estimate_depends_on_the_draw :
  option_map stress_score (row_of (handleSubmitQuiz 0 all_zero_state)) = Some 60%Z
  /\ option_map stress_score (row_of (handleSubmitQuiz (1 # 2) all_zero_state))
     = Some 75%Z
  /\ option_map stress_score (row_of (handleSubmitQuiz 0 all_zero_state))
     <> option_map stress_score (row_of (handleSubmitQuiz (1 # 2) all_zero_state)).
Proof.
  repeat split; try reflexivity. discriminate.
Qed.

(** The product is rounded before it is floored: at this draw it is just
    below 8 and rounds to 8. *)
Lemma stress_floors_the_rounded_product :
  is_double (1162219258676257 # 4503599627370496)
  /\ stress_of_draw (1162219258676257 # 4503599627370496) = 68%Z
  /\ (Qfloor ((1162219258676257 # 4503599627370496) * 31) + 60 = 67)%Z.
Proof. split; [| split]; vm_compute; reflexivity. Qed.

(** The largest product of a draw. *)
Lemma largest_draw_rounds_below_31 : (fl ((1 - pow2 (-53)) * 31) < 31)%Q.
Proof. vm_compute. reflexivity. Qed.

Lemma stress_of_draw_range (random : Q) :
  is_double random -> (0 <= random < 1)%Q -> (60 <= stress_of_draw random <= 90)%Z.
Proof.
  intros Hd [H0 H1]. unfold stress_of_draw, fmul.
  change (90 - 60 + 1)%Q with 31%Q.
  pose proof (JSDoubleFacts.double_below_1 random Hd H1) as Hmax.
  assert (Hlo : (0 <= fl (random * 31))%Q) by (apply JSDoubleFacts.fl_nonneg; lra).
  assert (Hhi : (fl (random * 31) < 31)%Q).
  { apply Qle_lt_trans with (fl ((1 - pow2 (-53)) * 31)).
    - apply JSDoubleFacts.fl_le; lra.
    - exact largest_draw_rounds_below_31. }
  assert (Hf0 : (0 <= Qfloor (fl (random * 31)))%Z).
  { change 0%Z with (Qfloor 0). apply Qfloor_resp_le. exact Hlo. }
  assert (Hf1 : (Qfloor (fl (random * 31)) < 31)%Z).
  { rewrite Zlt_Qlt. apply Qle_lt_trans with (fl (random * 31));
      [apply Qfloor_le | exact Hhi]. }
  lia.
Qed.

(** C3, amended.  The stress estimate recorded on submission is the draw
    of [Math.random()], a double from 0 up to 1 but not 1, scaled to an
    integer between 60 and 90: the draw times 31 as the doubles multiply,
    rounded down, plus 60.  It is the same for every difficulty, quiz and
    list of answers, and it is the value the results view is given. *)
Theorem stress_estimate_is_a_random_draw
    (random : Q) (st : State) (row : QuizRow) :
  is_double random ->
  (0 <= random < 1)%Q ->
  row_of (handleSubmitQuiz random st) = Some row ->
  stress_score row = (Qfloor (fmul random 31) + 60)%Z
  /\ (60 <= stress_score row <= 90)%Z
  /\ option_map stressScore (results_of (handleSubmitQuiz random st))
     = Some (stress_score row)
  /\ forall st' row',
       row_of (handleSubmitQuiz random st') = Some row' ->
       stress_score row' = stress_score row.
Proof.
  intros Hd Hr Hrow.
  assert (Hsub : forall s r, row_of (handleSubmitQuiz random s) = Some r ->
                 stress_score r = stress_of_draw random
                 /\ option_map stressScore (results_of (handleSubmitQuiz random s))
                    = Some (stress_of_draw random)).
  { intros s r. unfold handleSubmitQuiz.
    destruct (sessionId s) as [sid |]; [| discriminate].
    destruct (quizData s) as [qd |]; [| discriminate].
    destruct (negb (String.eqb sid "")); [| discriminate].
    simpl. intros H. injection H as <-. simpl. auto. }
  destruct (Hsub st row Hrow) as [Hs Hres].
  rewrite Hs, Hres. split; [reflexivity |]. split; [| split].
  - exact (stress_of_draw_range random Hd Hr).
  - reflexivity.
  - intros st' row' H'. destruct (Hsub st' row' H') as [-> _]. reflexivity.
Qed.

Lemma stress_estimate_is_a_random_draw_witness :
  exists row,
    row_of (handleSubmitQuiz (1 # 2) all_zero_state) = Some row
    /\ stress_score row = (Qfloor (fmul (1 # 2) 31) + 60)%Z
    /\ (60 <= stress_score row <= 90)%Z.
Proof.
  destruct (row_of (handleSubmitQuiz (1 # 2) all_zero_state)) as [row |] eqn:E;
    [| discriminate E].
  exists row. split; [reflexivity |].
  destruct (stress_estimate_is_a_random_draw (1 # 2) all_zero_state row) as (H1 & H2 & _).
  - reflexivity.
  - split; [discriminate | reflexivity].
  - exact E.
  - split; [exact H1 | exact H2].
Defined.

End QuizPageProofs.

Module ChatStoreProofs.
Import JS ChatStore.

Lemma MessageType_eqb_refl (t : MessageType) : MessageType_eqb t t = true.
Proof. destruct t; reflexivity. Qed.

Lemma duplicates_self (message : ChatMessage) : duplicates message message = true.
Proof.
  unfold duplicates. rewrite String.eqb_refl. reflexivity.
Qed.

Lemma duplicates_iff (message msg : ChatMessage) :
  duplicates message msg = true <-> is_duplicate_of message msg.
Proof.
  unfold duplicates, is_duplicate_of, within_second.
  rewrite orb_true_iff, !andb_true_iff, !String.eqb_eq. split.
  - intros [H | [[Hc Ht] Hw]]; [left; exact H | right].
    split; [exact Hc |]. split; [destruct (type msg), (type message); easy |].
    destruct (timestamp msg) as [a |], (timestamp message) as [b |]; try discriminate.
    exists a, b. apply Z.ltb_lt in Hw. auto.
  - intros [H | (Hc & Ht & a & b & Ha & Hb & Hab)]; [left; exact H | right].
    rewrite Ht, Ha, Hb, MessageType_eqb_refl. repeat split; [exact Hc |].
    apply Z.ltb_lt. exact Hab.
Qed.

Lemma addMessage_duplicate (message : ChatMessage) (st : ChatState) (cs : ChatSession) :
  currentSession st = Some cs -> isDuplicate message cs = true ->
  addMessage message st = (st, None).
Proof.
  intros Hcs Hdup. unfold addMessage. rewrite Hcs, Hdup. reflexivity.
Qed.

(** C10. [addMessage] is idempotent on duplicates: a message that has the
    id of a message of the current session, or its content and type with a
    timestamp within a second of it, leaves the store as it is and starts
    no request; and adding a message twice leaves the store that adding it
    once leaves. *)
Theorem addMessage_idempotent_on_duplicates (message : ChatMessage) (st : ChatState) :
  (forall cs msg,
      currentSession st = Some cs -> In msg (messages cs) ->
      is_duplicate_of message msg ->
      addMessage message st = (st, None))
  /\ addMessage message (fst (addMessage message st)) = (fst (addMessage message st), None).
Proof.
  split.
  - intros cs msg Hcs Hin Hdup. apply (addMessage_duplicate _ _ cs Hcs).
    unfold isDuplicate. apply existsb_exists. exists msg.
    split; [exact Hin | apply duplicates_iff; exact Hdup].
  - unfold addMessage at 2 3.
    destruct (currentSession st) as [cs |] eqn:Hcs.
    + destruct (isDuplicate message cs) eqn:Hdup; simpl.
      * apply (addMessage_duplicate _ _ cs Hcs Hdup).
      * eapply addMessage_duplicate; [reflexivity |].
        unfold isDuplicate. simpl. rewrite existsb_app. simpl.
        rewrite duplicates_self. apply orb_true_iff. right. reflexivity.
    + simpl. unfold addMessage. rewrite Hcs. reflexivity.
Qed.

Lemma addMessage_idempotent_on_duplicates_witness :
  addMessage hello_again one_message_store = (one_message_store, None).
Proof.
  apply (proj1 (addMessage_idempotent_on_duplicates hello_again one_message_store)
               one_message_session hello).
  - reflexivity.
  - left. reflexivity.
  - right. split; [reflexivity |]. split; [reflexivity |].
    exists 1700000000000%Z, 1700000000400%Z.
    split; [reflexivity |]. split; [reflexivity |]. reflexivity.
Defined.

(** *** The tier shown first *)

(** C4, as stated, fails: for an answer whose sentiment is negative, and
    that has a simplified tier, the view shows the main tier first. *)
Lemma negative_affect_shows_main_first :
  option_map displayed_first (assistantMessage negative_answer 0 "uuid")
  = Some "Main answer"
  /\ option_map simplified_response (assistantMessage negative_answer 0 "uuid")
     = Some (Some "Simple answer")
  /\ option_map sentiment (assistantMessage negative_answer 0 "uuid")
     = Some (Some "NEGATIVE").
Proof.
  repeat split; reflexivity.
Qed.

Lemma or_else_truthy (a b : option string) :
  truthy_str a = true -> or_else a b = a.
Proof. intros H. unfold or_else. rewrite H. reflexivity. Qed.

Lemma truthy_str_Some (s : string) : s <> "" -> truthy_str (Some s) = true.
Proof.
  intros H. simpl. apply negb_true_iff. apply String.eqb_neq. exact H.
Qed.

Lemma contentToRender_main_first (message : ChatMessage) (s : string) :
  main_response message = Some s -> s <> "" -> displayed_first message = s.
Proof.
  intros Hm Hs. unfold displayed_first, contentToRender.
  rewrite Hm. rewrite !(or_else_truthy (Some s)) by (apply truthy_str_Some; exact Hs).
  destruct (_ && _); reflexivity.
Qed.

(** C4, amended.  The tier shown first does not depend on the affect of
    the turn: whatever the sentiment label of the answer, the message has
    the same content and the view shows the same text first, which is the
    cleaned main response whenever that is not empty.  The message keeps
    the main tier, and the simplified and the detailed tier when the answer
    has them; its content is the cleaned simplified response when the answer
    has one, the cleaned main response otherwise. *)
Theorem displayed_tier_ignores_affect
    (r : AskResponse) (label : option string) (now : Z) (uuid : string)
    (m : ChatMessage) :
  assistantMessage r now uuid = Some m ->
  let main := default "" (ask_main_response r) in
  (exists m', assistantMessage (with_sentiment label r) now uuid = Some m'
              /\ displayed_first m' = displayed_first m
              /\ content m' = content m)
  /\ (cleanMarkdown main <> "" -> displayed_first m = cleanMarkdown main)
  /\ main_response m = Some (cleanMarkdown main)
  /\ simplified_response m = clean_if_present (ask_simplified_response r)
  /\ detailed_response m = clean_if_present (ask_detailed_response r)
  /\ content m
     = cleanMarkdown (default "" (or_else (ask_simplified_response r)
                                          (ask_main_response r))).
Proof.
  unfold assistantMessage. simpl.
  destruct (truthy_str (ask_main_response r)) eqn:Hmain; [| discriminate].
  intros H. injection H as <-. simpl.
  split; [eexists; split; [reflexivity | split; reflexivity] |].
  split; [| repeat split; reflexivity].
  intros Hne. apply contentToRender_main_first; [reflexivity | exact Hne].
Qed.

Lemma displayed_tier_ignores_affect_witness :
  exists m,
    assistantMessage negative_answer 0 "uuid" = Some m
    /\ (exists m', assistantMessage (with_sentiment (Some "POSITIVE") negative_answer)
                                    0 "uuid" = Some m'
                   /\ displayed_first m' = displayed_first m
                   /\ content m' = content m)
    /\ displayed_first m = "Main answer".
Proof.
  destruct (assistantMessage negative_answer 0 "uuid") as [m |] eqn:E;
    [| discriminate E].
  exists m. split; [reflexivity |].
  destruct (displayed_tier_ignores_affect negative_answer (Some "POSITIVE") 0 "uuid" m E)
    as (H1 & H2 & _).
  split; [exact H1 |]. apply H2. discriminate.
Defined.

End ChatStoreProofs.

Module VoiceSidebarProofs.
Import JS JSDouble ChatStore VoiceSidebar.

(** *** The estimate *)

Lemma estimate_timings_start (startTime : Q) (sentences : list string) (t : Timing) :
  estimate_timings startTime sentences !! 0%nat = Some t -> t_start t = startTime.
Proof.
  destruct sentences as [| s rest]; simpl; [discriminate |].
  intros H. injection H as <-. reflexivity.
Qed.

Lemma estimate_timings_contiguous (sentences : list string) :
  forall (startTime : Q) (i : nat) (a b : Timing),
    estimate_timings startTime sentences !! i = Some a ->
    estimate_timings startTime sentences !! S i = Some b ->
    t_end a = t_start b.
Proof.
  induction sentences as [| s rest IH]; intros startTime i a b; simpl;
    [discriminate |].
  destruct i as [| i]; simpl.
  - intros Ha Hb. injection Ha as <-. simpl.
    symmetry. exact (estimate_timings_start _ _ _ Hb).
  - apply IH.
Qed.


Lemma of_nat_nonneg (n : nat) : (0 <= of_nat n)%Q.
Proof.
  unfold of_nat. change 0%Q with (inject_Z 0). rewrite <- Zle_Qle. lia.
Qed.

Lemma duration_nonneg (n : nat) : (0 <= fmul (of_nat n) (fl (5 # 100)))%Q.
Proof.
  unfold fmul. apply JSDoubleFacts.fl_nonneg.
  pose proof (of_nat_nonneg n) as Hn.
  assert (0 <= fl (5 # 100))%Q by (apply JSDoubleFacts.fl_nonneg; lra).
  nra.
Qed.

(** Every entry starts at a double that is not negative, and does not end
    before it starts. *)
Lemma estimate_timings_forward (sentences : list string) :
  forall (startTime : Q) (i : nat) (a : Timing),
    is_double startTime -> (0 <= startTime)%Q ->
    estimate_timings startTime sentences !! i = Some a ->
    is_double (t_start a) /\ (0 <= t_start a)%Q /\ (t_start a <= t_end a)%Q.
Proof.
  induction sentences as [| s rest IH]; intros startTime i a Hd H0; simpl;
    [discriminate |].
  pose proof (duration_nonneg (String.length s)) as Hdur.
  destruct i as [| i]; simpl.
  - intros Ha. injection Ha as <-. simpl. split; [exact Hd |]. split; [exact H0 |].
    unfold fadd. apply JSDoubleFacts.double_le_fl; [exact Hd | exact H0 | lra].
  - apply IH.
    + unfold fadd. apply JSDoubleFacts.fl_is_double. lra.
    + unfold fadd. apply JSDoubleFacts.fl_nonneg. lra.
Qed.



(** The sums are those of the doubles: the third entry of this text ends
    at 0.30000000000000004 and the last at 0.6500000000000001. *)
Lemma estimate_accumulates_doubles :
  map (fun t => Qred (t_end t)) (timings_of silent_response "a.b.c. No dot")
  = [3602879701896397 # 36028797018963968; 3602879701896397 # 18014398509481984;
     1351079888211149 # 4503599627370496; 2927339757790823 # 4503599627370496]%Q.
Proof. vm_compute. reflexivity. Qed.



(** C8, as stated, fails.  The learner went to another session while the
    voice was generated, on a back end that keeps its audio: the generation
    completed and its result was not applied, but the cache of the
    component was not populated; a later request for the turn is not
    served from the cache but has to fetch the audio by its query id.  And
    on a back end that fails, the late error is set in the component
    though the session has changed. *)
Lemma late_result_is_not_cached :
  let run :=
    generateVoiceExplanation (gmap string string) store_get store_generate
      "http://localhost:3000" "3000"
      (Some voice_session) (Some other_session) "msg_0" fresh_sidebar ∅ in
  let later :=
    generateVoiceExplanation (gmap string string) store_get store_generate
      "http://localhost:3000" "3000"
      (Some voice_session) (Some voice_session) "msg_1" (sidebar run) (backend run) in
  let failed :=
    generateVoiceExplanation unit nothing_stored no_generation
      "http://localhost:3000" "3000"
      (Some voice_session) (Some other_session) "msg_0" fresh_sidebar tt in
  calls run
  = [GetAudio "q-17" (Some "s1");
     GenerateVoice "One. Two." "en-US" "en-US-Wavenet-D" (Some "s1") "q-17"]
  /\ applied run = None
  /\ backend run !! "q-17" = Some "/api/audio/q-17.mp3"
  /\ cachedExplanations (sidebar run) !! "q-17" = None
  /\ calls later = [GetAudio "q-17" (Some "s1")]
  /\ option_map voice_audioUrl (applied later)
     = Some "http://localhost:8000/api/audio/q-17.mp3"
  /\ applied failed = None
  /\ error (sidebar failed)
     = Some "Voice generation service is temporarily unavailable. Please try again in a moment.".
Proof.
  repeat split; reflexivity.
Qed.

Lemma truthy_str_inv (o : option string) :
  truthy_str o = true -> exists u, o = Some u /\ u <> "".
Proof.
  destruct o as [u |]; [| discriminate]. simpl. intros H.
  exists u. split; [reflexivity |]. apply String.eqb_neq. apply negb_true_iff. exact H.
Qed.

Lemma truthy_str_intro (u : string) : u <> "" -> truthy_str (Some u) = true.
Proof.
  intros H. simpl. apply negb_true_iff. apply String.eqb_neq. exact H.
Qed.

Lemma cacheKey_query_id (message : ChatMessage) (q : string) :
  query_id message = Some q -> q <> "" ->
  cacheKey message = Some q /\ negb (String.eqb q "") = true.
Proof.
  intros Hq Hne. unfold cacheKey, or_else. rewrite Hq, (truthy_str_intro q Hne).
  split; [reflexivity |]. apply negb_true_iff. apply String.eqb_neq. exact Hne.
Qed.

Section Runs.

Variable Backend : Type.
Variable getAudioByQueryId :
  string -> option string -> Backend -> (string + option VoiceResponse) * Backend.
Variable generateVoice :
  string -> string -> string -> option string -> string -> Backend
  -> ApiResult * Backend.
Variable origin port : string.

Local Abbreviation run_of :=
  (generateVoiceExplanation Backend getAudioByQueryId generateVoice origin port).
Local Abbreviation requested := (request_audio Backend getAudioByQueryId generateVoice).

(** A run that misses the cache sends a request. *)
Lemma request_audio_sends message textToVoice sid freshId b :
  snd (requested message textToVoice sid freshId b) <> [].
Proof.
  unfold request_audio.
  destruct (query_id message) as [q |]; [destruct (negb (String.eqb q ""))|].
  - destruct (getAudioByQueryId q sid b) as [[msg | [response |]] b1].
    + destruct (generateVoice _ _ _ _ _ _); simpl. discriminate.
    + destruct (truthy_str (audio_url response)); [simpl; discriminate |].
      destruct (generateVoice _ _ _ _ _ _); simpl. discriminate.
    + destruct (generateVoice _ _ _ _ _ _); simpl. discriminate.
  - destruct (generateVoice _ _ _ _ _ _); simpl. discriminate.
  - destruct (generateVoice _ _ _ _ _ _); simpl. discriminate.
Qed.

Lemma apply_response_stale response textToVoice message sessionIdAtStart sessionNow sb :
  same_session sessionNow sessionIdAtStart = false ->
  let r := apply_response origin port response textToVoice message
             sessionIdAtStart sessionNow sb in
  cachedExplanations (fst r) = cachedExplanations sb
  /\ voiceExplanation (fst r) = voiceExplanation sb
  /\ snd r = None.
Proof.
  intros Hs. unfold apply_response. rewrite Hs.
  destruct (truthy_str (response_error response)); [simpl; auto |].
  destruct (negb (truthy_str (audio_url response))); simpl; auto.
Qed.

Lemma apply_response_cache response textToVoice message sessionIdAtStart sessionNow sb
    (k : string) (ve : VoiceExplanation) :
  let r := apply_response origin port response textToVoice message
             sessionIdAtStart sessionNow sb in
  cachedExplanations (fst r) !! k = Some ve ->
  cachedExplanations sb !! k = Some ve \/ snd r = Some ve.
Proof.
  unfold apply_response.
  destruct (truthy_str (response_error response)); [simpl; auto |].
  destruct (negb (truthy_str (audio_url response))); [simpl; auto |].
  destruct (same_session sessionNow sessionIdAtStart); [| simpl; auto].
  simpl. destruct (cacheKey message) as [k' |]; [| auto].
  destruct (negb (String.eqb k' "")); [| auto].
  destruct (decide (k' = k)) as [-> | Hne].
  - rewrite lookup_insert_eq. intros H. right. exact H.
  - rewrite lookup_insert_ne by exact Hne. auto.
Qed.

(** The timing map of an explanation applied after a request is the one
    [timings_of] gives for the response. *)
Lemma applied_timings
    (cs : ChatSession) (sessionNow : option ChatSession) (freshId : string)
    (sb : Sidebar) (b : Backend) (ve : VoiceExplanation) :
  applied (run_of (Some cs) sessionNow freshId sb b) = Some ve ->
  calls (run_of (Some cs) sessionNow freshId sb b) <> [] ->
  exists message response b' sent,
    lastAssistantMessage cs = Some message
    /\ requested message (default "" (detailed_response message))
                 (Some (session_id cs)) freshId b
       = (Resolves response, b', sent)
    /\ timings ve = timings_of response (default "" (detailed_response message)).
Proof.
  unfold generateVoiceExplanation.
  destruct (messages cs) as [| m0 ms]; [discriminate |].
  destruct (lastAssistantMessage cs) as [message |]; [| discriminate].
  destruct (negb (truthy_str (detailed_response message))); [discriminate |].
  destruct (cached message sb) as [ve0 |]; [simpl; intros _ H; contradiction |].
  destruct (requested _ _ _ _ _) as [[[msg | response] b'] sent] eqn:Ereq;
    [discriminate |].
  unfold apply_response.
  destruct (truthy_str (response_error response)); [discriminate |].
  destruct (negb (truthy_str (audio_url response))); [discriminate |].
  destruct (same_session sessionNow (session_id cs)); simpl; [| discriminate].
  intros H _. injection H as <-.
  exists message, response, b', sent. auto.
Qed.

(** The re-check reads the id of the session of the store, and nothing
    else of it. *)
Lemma run_reads_the_id (cs : ChatSession) (now1 now2 : option ChatSession)
    (freshId : string) (sb : Sidebar) (b : Backend) :
  same_session now1 (session_id cs) = same_session now2 (session_id cs) ->
  run_of (Some cs) now1 freshId sb b = run_of (Some cs) now2 freshId sb b.
Proof.
  intros H. unfold generateVoiceExplanation.
  destruct (messages cs) as [| m0 ms]; [reflexivity |].
  destruct (lastAssistantMessage cs) as [message |]; [| reflexivity].
  destruct (negb (truthy_str (detailed_response message))); [reflexivity |].
  destruct (cached message sb) as [ve0 |]; [reflexivity |].
  destruct (requested _ _ _ _ _) as [[[msg | response] b'] sent]; [reflexivity |].
  unfold apply_response. rewrite H. reflexivity.
Qed.

(** The error, the loading flag, the requests and the back end are what
    they are whatever the session of the store. *)
Lemma run_flags (cs : ChatSession) (now1 now2 : option ChatSession)
    (freshId : string) (sb : Sidebar) (b : Backend) :
  error (sidebar (run_of (Some cs) now1 freshId sb b))
  = error (sidebar (run_of (Some cs) now2 freshId sb b))
  /\ isLoading (sidebar (run_of (Some cs) now1 freshId sb b))
     = isLoading (sidebar (run_of (Some cs) now2 freshId sb b))
  /\ calls (run_of (Some cs) now1 freshId sb b)
     = calls (run_of (Some cs) now2 freshId sb b)
  /\ backend (run_of (Some cs) now1 freshId sb b)
     = backend (run_of (Some cs) now2 freshId sb b).
Proof.
  unfold generateVoiceExplanation.
  destruct (messages cs) as [| m0 ms]; [auto |].
  destruct (lastAssistantMessage cs) as [message |]; [| auto].
  destruct (negb (truthy_str (detailed_response message))); [auto |].
  destruct (cached message sb) as [ve0 |]; [auto |].
  destruct (requested _ _ _ _ _) as [[[msg | response] b'] sent]; [auto |].
  unfold apply_response.
  destruct (truthy_str (response_error response)); [auto |].
  destruct (negb (truthy_str (audio_url response))); [auto |].
  destruct (same_session now1 (session_id cs)), (same_session now2 (session_id cs));
    simpl; auto.
Qed.

Lemma run_clears_loading (cs : ChatSession) (sessionNow : option ChatSession)
    (freshId : string) (sb : Sidebar) (b : Backend) :
  calls (run_of (Some cs) sessionNow freshId sb b) <> [] ->
  isLoading (sidebar (run_of (Some cs) sessionNow freshId sb b)) = false.
Proof.
  unfold generateVoiceExplanation.
  destruct (messages cs) as [| m0 ms]; [simpl; congruence |].
  destruct (lastAssistantMessage cs) as [message |]; [| simpl; congruence].
  destruct (negb (truthy_str (detailed_response message))); [reflexivity |].
  destruct (cached message sb) as [ve0 |]; [reflexivity |].
  destruct (requested _ _ _ _ _) as [[[msg | response] b'] sent]; [reflexivity |].
  unfold apply_response.
  destruct (truthy_str (response_error response)); [reflexivity |].
  destruct (negb (truthy_str (audio_url response))); [reflexivity |].
  destruct (same_session sessionNow (session_id cs)); reflexivity.
Qed.

(** A run sends a request only past the cache. *)
Lemma sent_past_the_cache (cs : ChatSession) (sessionNow : option ChatSession)
    (freshId : string) (sb : Sidebar) (b : Backend) :
  calls (run_of (Some cs) sessionNow freshId sb b) <> [] ->
  exists m0 ms message,
    messages cs = m0 :: ms
    /\ lastAssistantMessage cs = Some message
    /\ negb (truthy_str (detailed_response message)) = false
    /\ cached message sb = None.
Proof.
  unfold generateVoiceExplanation.
  destruct (messages cs) as [| m0 ms] eqn:Hm; [simpl; congruence |].
  destruct (lastAssistantMessage cs) as [message |] eqn:Hlast; [| simpl; congruence].
  destruct (negb (truthy_str (detailed_response message))) eqn:Hd; [simpl; congruence |].
  destruct (cached message sb) as [ve0 |] eqn:Hmiss; [simpl; congruence |].
  intros _. exists m0, ms, message. auto.
Qed.

(** A run that sent a request and left the cache as it was is followed by
    runs that send a request too. *)
Lemma miss_again (cs : ChatSession) (now2 : option ChatSession)
    (fresh2 : string) (sb sb1 : Sidebar) (b2 : Backend) :
  (exists m0 ms message,
    messages cs = m0 :: ms
    /\ lastAssistantMessage cs = Some message
    /\ negb (truthy_str (detailed_response message)) = false
    /\ cached message sb = None) ->
  cachedExplanations sb1 = cachedExplanations sb ->
  calls (run_of (Some cs) now2 fresh2 sb1 b2) <> [].
Proof.
  intros (m0 & ms & message & Hm & Hlast & Hd & Hmiss) Hcache.
  assert (cached message sb1 = None) as Hc.
  { unfold cached in *. rewrite Hcache. exact Hmiss. }
  unfold generateVoiceExplanation.
  rewrite Hm, Hlast, Hd, Hc.
  pose proof (request_audio_sends message (default "" (detailed_response message))
                (Some (session_id cs)) fresh2 b2) as Hs.
  destruct (requested _ _ _ _ _) as [[[msg | response] b'] sent]; simpl in Hs.
  - exact Hs.
  - destruct (apply_response _ _ _ _ _ _ _ _) as [sb' ve]. exact Hs.
Qed.

(** A run whose session is no longer that of the store leaves the cache
    as it was. *)
Lemma stale_run_keeps_cache (cs : ChatSession) (sessionNow : option ChatSession)
    (freshId : string) (sb : Sidebar) (b : Backend) :
  same_session sessionNow (session_id cs) = false ->
  cachedExplanations (sidebar (run_of (Some cs) sessionNow freshId sb b))
  = cachedExplanations sb.
Proof.
  intros Hs. unfold generateVoiceExplanation.
  destruct (messages cs) as [| m0 ms]; [reflexivity |].
  destruct (lastAssistantMessage cs) as [message |]; [| reflexivity].
  destruct (negb (truthy_str (detailed_response message))); [reflexivity |].
  destruct (cached message sb) as [ve0 |]; [reflexivity |].
  destruct (requested _ _ _ _ _) as [[[msg | response] b'] sent]; [reflexivity |].
  pose proof (apply_response_stale response (default "" (detailed_response message))
                message (session_id cs) sessionNow
                (mkSidebar (voiceExplanation sb) (cachedExplanations sb) true None) Hs)
    as (Hc & _).
  destruct (apply_response _ _ _ _ _ _ _ _) as [sb' ve]. exact Hc.
Qed.

(** Such a run, when it sent a request, applies nothing and leaves the
    explanation shown as it was. *)
Lemma stale_run_applies_nothing (cs : ChatSession) (sessionNow : option ChatSession)
    (freshId : string) (sb : Sidebar) (b : Backend) :
  same_session sessionNow (session_id cs) = false ->
  calls (run_of (Some cs) sessionNow freshId sb b) <> [] ->
  applied (run_of (Some cs) sessionNow freshId sb b) = None
  /\ voiceExplanation (sidebar (run_of (Some cs) sessionNow freshId sb b))
     = voiceExplanation sb.
Proof.
  intros Hs. unfold generateVoiceExplanation.
  destruct (messages cs) as [| m0 ms]; [simpl; congruence |].
  destruct (lastAssistantMessage cs) as [message |]; [| simpl; congruence].
  destruct (negb (truthy_str (detailed_response message))); [simpl; congruence |].
  destruct (cached message sb) as [ve0 |]; [simpl; congruence |].
  destruct (requested _ _ _ _ _) as [[[msg | response] b'] sent]; [split; reflexivity |].
  pose proof (apply_response_stale response (default "" (detailed_response message))
                message (session_id cs) sessionNow
                (mkSidebar (voiceExplanation sb) (cachedExplanations sb) true None) Hs)
    as (_ & Hv & Ha).
  destruct (apply_response _ _ _ _ _ _ _ _) as [sb' ve]. intros _. split; assumption.
Qed.

(** The cache gains an entry only in a run that applies it. *)
Lemma cache_gains_what_is_applied (cs : ChatSession) (sessionNow : option ChatSession)
    (freshId : string) (sb : Sidebar) (b : Backend) (k : string) (ve : VoiceExplanation) :
  cachedExplanations (sidebar (run_of (Some cs) sessionNow freshId sb b)) !! k = Some ve ->
  cachedExplanations sb !! k = Some ve
  \/ applied (run_of (Some cs) sessionNow freshId sb b) = Some ve.
Proof.
  unfold generateVoiceExplanation.
  destruct (messages cs) as [| m0 ms]; [simpl; auto |].
  destruct (lastAssistantMessage cs) as [message |]; [| simpl; auto].
  destruct (negb (truthy_str (detailed_response message))); [simpl; auto |].
  destruct (cached message sb) as [ve0 |]; [simpl; auto |].
  destruct (requested _ _ _ _ _) as [[[msg | response] b'] sent]; [simpl; auto |].
  pose proof (apply_response_cache response (default "" (detailed_response message))
                message (session_id cs) sessionNow
                (mkSidebar (voiceExplanation sb) (cachedExplanations sb) true None)
                k ve) as H.
  destruct (apply_response _ _ _ _ _ _ sessionNow _) as [sb' ve']. simpl in *. exact H.
Qed.

(** A run that applied an explanation for a turn with a query id has it in
    the cache under that id. *)
Lemma applied_run_is_cached (cs : ChatSession) (message : ChatMessage) (q : string)
    (sessionNow : option ChatSession) (freshId : string) (sb : Sidebar) (b : Backend)
    (ve : VoiceExplanation) :
  lastAssistantMessage cs = Some message ->
  query_id message = Some q -> q <> "" ->
  applied (run_of (Some cs) sessionNow freshId sb b) = Some ve ->
  truthy_str (detailed_response message) = true
  /\ cachedExplanations (sidebar (run_of (Some cs) sessionNow freshId sb b)) !! q = Some ve.
Proof.
  intros Hlast Hq Hne. unfold generateVoiceExplanation. rewrite Hlast.
  destruct (messages cs) as [| m0 ms]; [discriminate |].
  destruct (truthy_str (detailed_response message)) eqn:Hd; simpl; [| discriminate].
  destruct (cacheKey_query_id message q Hq Hne) as [Hkey Hnb].
  unfold cached. rewrite Hkey, Hnb.
  destruct (cachedExplanations sb !! q) as [ve0 |] eqn:Hc; simpl.
  - intros H. injection H as <-. split; [reflexivity | exact Hc].
  - destruct (requested _ _ _ _ _) as [[[msg | response] b'] sent];
      simpl; [discriminate |].
    unfold apply_response.
    destruct (truthy_str (response_error response)); [discriminate |].
    destruct (truthy_str (audio_url response)); simpl; [| discriminate].
    destruct (same_session sessionNow (session_id cs)); simpl; [| discriminate].
    intros H. injection H as <-. split; [reflexivity |].
    rewrite Hkey, Hnb. simpl. apply lookup_insert_eq.
Qed.

(** A run that finds the explanation of the turn in the cache applies it
    and sends nothing. *)
Lemma cache_hit (cs : ChatSession) (message : ChatMessage) (q : string)
    (sessionNow : option ChatSession) (freshId : string) (sb : Sidebar) (b : Backend)
    (ve : VoiceExplanation) :
  lastAssistantMessage cs = Some message ->
  query_id message = Some q -> q <> "" ->
  truthy_str (detailed_response message) = true ->
  cachedExplanations sb !! q = Some ve ->
  run_of (Some cs) sessionNow freshId sb b
  = mkRun (mkSidebar (Some ve) (cachedExplanations sb) false None) (Some ve) b [].
Proof.
  intros Hlast Hq Hne Hd Hc. unfold generateVoiceExplanation. rewrite Hlast.
  destruct (messages cs) as [| m0 ms] eqn:Hm.
  { unfold lastAssistantMessage in Hlast. rewrite Hm in Hlast. discriminate Hlast. }
  rewrite Hd. simpl.
  destruct (cacheKey_query_id message q Hq Hne) as [Hkey Hnb].
  unfold cached. rewrite Hkey, Hnb, Hc. reflexivity.
Qed.

End Runs.

Section Idempotence.

Variable Backend : Type.
Variable getAudioByQueryId :
  string -> option string -> Backend -> (string + option VoiceResponse) * Backend.
Variable generateVoice :
  string -> string -> string -> option string -> string -> Backend
  -> ApiResult * Backend.
Variable origin port : string.

(** The contract of the back end, [keeps_audio]: [Stored b q u] says that
    in the state [b] the audio [u] is stored for the query id [q]. *)
Variable Stored : Backend -> string -> string -> Prop.

Hypothesis contract : keeps_audio getAudioByQueryId generateVoice Stored.

Lemma generate_stores :
  forall text language voice sid q b r b' u,
    generateVoice text language voice sid q b = (Resolves r, b') ->
    audio_url r = Some u -> u <> "" -> Stored b' q u.
Proof. exact (proj1 contract). Qed.

Lemma fetch_sound :
  forall q sid b r b' u,
    getAudioByQueryId q sid b = (inr (Some r), b') ->
    audio_url r = Some u -> u <> "" -> Stored b' q u.
Proof. exact (proj1 (proj2 contract)). Qed.

Lemma fetch_complete :
  forall q sid b u,
    Stored b q u ->
    exists r b', getAudioByQueryId q sid b = (inr (Some r), b')
                 /\ audio_url r = Some u /\ u <> ""
                 /\ truthy_str (response_error r) = false.
Proof. exact (proj2 (proj2 contract)). Qed.

Local Abbreviation run_of :=
  (generateVoiceExplanation Backend getAudioByQueryId generateVoice origin port).
Local Abbreviation requested := (request_audio Backend getAudioByQueryId generateVoice).
Local Abbreviation url_of := (convertToBackendURL origin port).

(** The response a run obtains for a message with a query id is of audio
    stored for that id. *)
Lemma requested_is_stored message textToVoice sid freshId b q r b' sent u :
  query_id message = Some q -> q <> "" ->
  requested message textToVoice sid freshId b = (Resolves r, b', sent) ->
  audio_url r = Some u -> u <> "" ->
  Stored b' q u.
Proof.
  intros Hq Hne. unfold request_audio. rewrite Hq.
  assert (Hid : default freshId
                  (or_else (or_else (Some q) (Some (id message))) (Some freshId)) = q).
  { unfold or_else. rewrite (truthy_str_intro q Hne).
    rewrite (truthy_str_intro q Hne). reflexivity. }
  rewrite Hid.
  assert (Hnb : negb (String.eqb q "") = true)
    by (apply negb_true_iff; apply String.eqb_neq; exact Hne).
  rewrite Hnb.
  destruct (getAudioByQueryId q sid b) as [[msg | [response |]] b1] eqn:Eget.
  - destruct (generateVoice _ _ _ _ _ _) as [r2 b2] eqn:Egen.
    intros H Hu Hu'. injection H as -> -> _. eapply generate_stores; eauto.
  - destruct (truthy_str (audio_url response)) eqn:Et.
    + intros H Hu Hu'. injection H as -> -> _. eapply fetch_sound; eauto.
    + destruct (generateVoice _ _ _ _ _ _) as [r2 b2] eqn:Egen.
      intros H Hu Hu'. injection H as -> -> _. eapply generate_stores; eauto.
  - destruct (generateVoice _ _ _ _ _ _) as [r2 b2] eqn:Egen.
    intros H Hu Hu'. injection H as -> -> _. eapply generate_stores; eauto.
Qed.

(** What a run that applies an explanation leaves: the audio is stored for
    the query id, and the explanation is cached under it. *)
Lemma applied_run_is_stored_and_cached cs message q sessionNow freshId sb b ve :
  lastAssistantMessage cs = Some message ->
  query_id message = Some q -> q <> "" ->
  cache_backed Stored origin port sb b q ->
  applied (run_of (Some cs) sessionNow freshId sb b) = Some ve ->
  truthy_str (detailed_response message) = true
  /\ cachedExplanations (sidebar (run_of (Some cs) sessionNow freshId sb b)) !! q = Some ve
  /\ exists u, Stored (backend (run_of (Some cs) sessionNow freshId sb b)) q u
               /\ voice_audioUrl ve = url_of u.
Proof.
  intros Hlast Hq Hne Hback. unfold generateVoiceExplanation. rewrite Hlast.
  destruct (messages cs) as [| m0 ms]; [discriminate |].
  destruct (truthy_str (detailed_response message)) eqn:Hd; simpl; [| discriminate].
  destruct (cacheKey_query_id message q Hq Hne) as [Hkey Hnb].
  unfold cached. rewrite Hkey, Hnb.
  destruct (cachedExplanations sb !! q) as [ve0 |] eqn:Hc; simpl.
  - intros H. injection H as <-. split; [reflexivity |]. split; [exact Hc |].
    exact (Hback _ Hc).
  - destruct (requested _ _ _ _ _) as [[[msg | response] b'] sent] eqn:Ereq;
      simpl; [discriminate |].
    unfold apply_response.
    destruct (truthy_str (response_error response)); [discriminate |].
    destruct (truthy_str (audio_url response)) eqn:Hu; simpl; [| discriminate].
    destruct (same_session sessionNow (session_id cs)); simpl; [| discriminate].
    intros H. injection H as <-. split; [reflexivity |].
    rewrite Hkey, Hnb. simpl. split; [apply lookup_insert_eq |].
    apply truthy_str_inv in Hu as (u & Hu & Hune).
    exists u. split; [| rewrite Hu; reflexivity].
    exact (requested_is_stored _ _ _ _ _ _ _ _ _ _ Hq Hne Ereq Hu Hune).
Qed.

(** A second run that finds nothing in the cache under the query id
    fetches the stored audio by that id, and asks for no synthesis. *)
Lemma stored_audio_is_fetched
    (cs : ChatSession) (message : ChatMessage) (q : string)
    (now1 now2 : option ChatSession) (fresh1 fresh2 : string)
    (sb0 sb1 : Sidebar) (b0 b1 : Backend) (ve1 : VoiceExplanation) :
  lastAssistantMessage cs = Some message ->
  query_id message = Some q -> q <> "" ->
  cache_backed Stored origin port sb0 b0 q ->
  applied (run_of (Some cs) now1 fresh1 sb0 b0) = Some ve1 ->
  cachedExplanations sb1 !! q = None ->
  (forall u, Stored (backend (run_of (Some cs) now1 fresh1 sb0 b0)) q u -> Stored b1 q u) ->
  same_session now2 (session_id cs) = true ->
  exists ve2,
    applied (run_of (Some cs) now2 fresh2 sb1 b1) = Some ve2
    /\ voice_audioUrl ve2 = voice_audioUrl ve1
    /\ calls (run_of (Some cs) now2 fresh2 sb1 b1) = [GetAudio q (Some (session_id cs))]
    /\ syntheses (run_of (Some cs) now2 fresh2 sb1 b1) = 0%nat.
Proof.
  intros Hlast Hq Hne Hback H1 Hc Hkept Hsame.
  destruct (applied_run_is_stored_and_cached _ _ _ _ _ _ _ _ Hlast Hq Hne Hback H1)
    as (Hd & _ & u & Hstored & Hurl).
  apply Hkept in Hstored.
  destruct (cacheKey_query_id message q Hq Hne) as [Hkey Hnb].
  unfold syntheses, generateVoiceExplanation. rewrite Hlast.
  destruct (messages cs) as [| m0 ms] eqn:Hmsgs.
  { unfold lastAssistantMessage in Hlast. rewrite Hmsgs in Hlast. discriminate Hlast. }
  rewrite Hd. simpl. unfold cached. rewrite Hkey, Hnb, Hc. simpl.
  destruct (fetch_complete q (Some (session_id cs)) b1 u Hstored)
    as (r & b' & Hget & Hu & Hune & Herr).
  unfold request_audio. rewrite Hq, Hnb, Hget, Hu, (truthy_str_intro u Hune).
  simpl. unfold apply_response. rewrite Herr, Hu, (truthy_str_intro u Hune), Hsame.
  simpl. eexists. split; [reflexivity |]. simpl. rewrite Hurl. auto.
Qed.

End Idempotence.

Lemma store_generate_stores text language voice sid q b r b' u :
  store_generate text language voice sid q b = (Resolves r, b') ->
  audio_url r = Some u -> u <> "" -> store_has b' q u.
Proof.
  unfold store_generate. intros H Hu Hne. injection H as <- <-. simpl in Hu.
  split; [| exact Hne]. rewrite lookup_insert_eq. exact Hu.
Qed.

Lemma store_get_sound q sid b r b' u :
  store_get q sid b = (inr (Some r), b') ->
  audio_url r = Some u -> u <> "" -> store_has b' q u.
Proof.
  unfold store_get. destruct (b !! q) as [u' |] eqn:E; [| discriminate].
  intros H Hu Hne. injection H as <- <-. simpl in Hu.
  split; [congruence | exact Hne].
Qed.

Lemma store_get_complete q sid b u :
  store_has b q u ->
  exists r b', store_get q sid b = (inr (Some r), b')
               /\ audio_url r = Some u /\ u <> ""
               /\ truthy_str (response_error r) = false.
Proof.
  intros [H Hne]. unfold store_get. rewrite H.
  eexists. eexists. split; [reflexivity |]. simpl. auto.
Qed.

Lemma store_keeps_audio : keeps_audio store_get store_generate store_has.
Proof.
  split; [| split].
  - exact store_generate_stores.
  - exact store_get_sound.
  - exact store_get_complete.
Qed.

(** C8, amended.  The result of a generation is applied when the session
    of the store has the id the run started with, and only then: the
    re-check reads that id and nothing else of the session.  When the id
    has changed, the run changes nothing in the cache of the component,
    and a run that sent a request applies no result and leaves the
    explanation shown as it was; the requests that follow for the turn are
    not served from that cache, they ask the back end again.  Later
    callers can still use the result through the back end: one that keeps
    its audio answers the next request, made while the store holds the
    session again, with the stored audio, fetched by the query id with no
    new synthesis; that is the audio the run would have applied.  The
    re-check does not cover the error and the loading flag: they are set
    as they would be had the session stayed, and the flag is cleared by
    every run that sent a request.  Whatever the session, the cache gains
    an entry only when the run applies it. *)
Theorem stale_result_is_discarded
    (Backend : Type)
    (getAudioByQueryId :
       string -> option string -> Backend -> (string + option VoiceResponse) * Backend)
    (generateVoice :
       string -> string -> string -> option string -> string -> Backend
       -> ApiResult * Backend)
    (origin port : string)
    (cs : ChatSession) (sessionNow : option ChatSession) (freshId : string)
    (sb : Sidebar) (b : Backend) :
  let run_of := generateVoiceExplanation Backend getAudioByQueryId generateVoice origin port in
  let run := run_of (Some cs) sessionNow freshId sb b in
  (same_session sessionNow (session_id cs) = false ->
   cachedExplanations (sidebar run) = cachedExplanations sb
   /\ (calls run <> [] ->
       applied run = None
       /\ voiceExplanation (sidebar run) = voiceExplanation sb
       /\ (forall now2 fresh2 b2,
             calls (run_of (Some cs) now2 fresh2 (sidebar run) b2) <> [])
       /\ (forall Stored message q ve now2 fresh2 b2,
             keeps_audio getAudioByQueryId generateVoice Stored ->
             lastAssistantMessage cs = Some message ->
             query_id message = Some q -> q <> "" ->
             applied (run_of (Some cs) (Some cs) freshId sb b) = Some ve ->
             (forall u, Stored (backend run) q u -> Stored b2 q u) ->
             same_session now2 (session_id cs) = true ->
             let later := run_of (Some cs) now2 fresh2 (sidebar run) b2 in
             exists ve2,
               applied later = Some ve2
               /\ voice_audioUrl ve2 = voice_audioUrl ve
               /\ calls later = [GetAudio q (Some (session_id cs))]
               /\ syntheses later = 0%nat)))
  /\ (forall other,
        session_id other = session_id cs ->
        run_of (Some cs) (Some other) freshId sb b
        = run_of (Some cs) (Some cs) freshId sb b)
  /\ (forall now',
        error (sidebar (run_of (Some cs) now' freshId sb b)) = error (sidebar run)
        /\ isLoading (sidebar (run_of (Some cs) now' freshId sb b))
           = isLoading (sidebar run)
        /\ calls (run_of (Some cs) now' freshId sb b) = calls run
        /\ backend (run_of (Some cs) now' freshId sb b) = backend run)
  /\ (calls run <> [] -> isLoading (sidebar run) = false)
  /\ (forall now' k ve,
        cachedExplanations (sidebar (run_of (Some cs) now' freshId sb b)) !! k = Some ve ->
        cachedExplanations sb !! k = Some ve
        \/ applied (run_of (Some cs) now' freshId sb b) = Some ve).
Proof.
  intros run_of run. subst run_of run. split; [| split; [| split; [| split]]].
  - intros Hs.
    pose proof (stale_run_keeps_cache Backend getAudioByQueryId generateVoice origin port
                  cs sessionNow freshId sb b Hs) as Hcache.
    split; [exact Hcache |]. intros Hsent.
    destruct (stale_run_applies_nothing Backend getAudioByQueryId generateVoice origin
                port cs sessionNow freshId sb b Hs Hsent) as [Ha Hv].
    pose proof (sent_past_the_cache Backend getAudioByQueryId generateVoice origin port
                  cs sessionNow freshId sb b Hsent) as Hpast.
    split; [exact Ha |]. split; [exact Hv |]. split.
    + intros now2 fresh2 b2.
      exact (miss_again Backend getAudioByQueryId generateVoice origin port
               cs now2 fresh2 sb _ b2 Hpast Hcache).
    + intros Stored message q ve now2 fresh2 b2 Hcontract Hlast Hq Hne Hve Hkept Hsame.
      destruct Hpast as (m0 & ms & message' & _ & Hlast' & _ & Hmiss).
      assert (message' = message) as -> by congruence.
      destruct (cacheKey_query_id message q Hq Hne) as [Hkey Hnb].
      unfold cached in Hmiss. rewrite Hkey, Hnb in Hmiss.
      destruct (run_flags Backend getAudioByQueryId generateVoice origin port
                  cs (Some cs) sessionNow freshId sb b) as (_ & _ & _ & Hb).
      apply (stored_audio_is_fetched Backend getAudioByQueryId generateVoice origin port
               Stored Hcontract cs message q (Some cs) now2 freshId fresh2 sb _ b b2 ve
               Hlast Hq Hne).
      * intros ve0 H0. rewrite Hmiss in H0. discriminate H0.
      * exact Hve.
      * rewrite Hcache. exact Hmiss.
      * intros u Hu. apply Hkept. rewrite <- Hb. exact Hu.
      * exact Hsame.
  - intros other Hid.
    apply (run_reads_the_id Backend getAudioByQueryId generateVoice origin port).
    simpl. rewrite Hid, !String.eqb_refl. reflexivity.
  - intros now'. apply run_flags.
  - apply run_clears_loading.
  - intros now' k ve. apply cache_gains_what_is_applied.
Qed.

Lemma stale_result_is_discarded_witness :
  let run_of :=
    generateVoiceExplanation (gmap string string) store_get store_generate
      "http://localhost:3000" "3000" in
  let run := run_of (Some voice_session) (Some other_session) "msg_0" fresh_sidebar ∅ in
  let later :=
    run_of (Some voice_session) (Some voice_session) "msg_1" (sidebar run) (backend run) in
  cachedExplanations (sidebar run) = cachedExplanations fresh_sidebar
  /\ applied run = None
  /\ voiceExplanation (sidebar run) = voiceExplanation fresh_sidebar
  /\ isLoading (sidebar run) = false
  /\ exists ve2,
       applied later = Some ve2
       /\ voice_audioUrl ve2 = "http://localhost:8000/api/audio/q-17.mp3"
       /\ calls later = [GetAudio "q-17" (Some "s1")].
Proof.
  intros run_of run later.
  destruct (stale_result_is_discarded (gmap string string) store_get store_generate
              "http://localhost:3000" "3000" voice_session (Some other_session)
              "msg_0" fresh_sidebar ∅) as (H1 & _ & _ & H4 & _).
  destruct (H1 eq_refl) as (Hc & Hs).
  assert (Hsent : calls run <> []) by discriminate.
  destruct (Hs Hsent) as (Ha & Hv & _ & Hlater).
  split; [exact Hc |]. split; [exact Ha |]. split; [exact Hv |].
  split; [exact (H4 Hsent) |].
  destruct (applied (run_of (Some voice_session) (Some voice_session) "msg_0"
                       fresh_sidebar ∅)) as [ve |] eqn:E; [| discriminate E].
  destruct (Hlater store_has answered "q-17" ve (Some voice_session) "msg_1" (backend run)
              store_keeps_audio eq_refl eq_refl ltac:(discriminate) E
              ltac:(intros u H; exact H) eq_refl) as (ve2 & H5 & H6 & H7 & _).
  exists ve2. split; [exact H5 |]. split; [| exact H7].
  rewrite H6. injection E as <-. reflexivity.
Defined.

(** C5. Requesting the voice of a turn twice gives the same audio
    reference both times.  The turn is the last assistant message, with
    its query id [q] and its detailed text, and the first run applied the
    explanation [ve1].  Then, on any back end, the component holds [ve1]
    in its cache under [q], and a second run of a component that holds it
    there applies that very explanation, sends no request and leaves the
    back end alone.  And on a back end that keeps its audio, a second run
    of a component that holds nothing under [q], while the back end still
    has what it had stored for [q] and the store still holds the session,
    applies an explanation of the same audio reference: it fetches the
    audio by [q], and that is its only request. *)
Theorem voice_request_is_idempotent
    (Backend : Type)
    (getAudioByQueryId :
       string -> option string -> Backend -> (string + option VoiceResponse) * Backend)
    (generateVoice :
       string -> string -> string -> option string -> string -> Backend
       -> ApiResult * Backend)
    (origin port : string)
    (cs : ChatSession) (message : ChatMessage) (q : string)
    (now1 now2 : option ChatSession) (fresh1 fresh2 : string)
    (sb0 : Sidebar) (b0 : Backend) (ve1 : VoiceExplanation) :
  let run := generateVoiceExplanation Backend getAudioByQueryId generateVoice origin port in
  let first := run (Some cs) now1 fresh1 sb0 b0 in
  lastAssistantMessage cs = Some message ->
  query_id message = Some q -> q <> "" ->
  applied first = Some ve1 ->
  cachedExplanations (sidebar first) !! q = Some ve1
  /\ (forall sb1 b1,
        cachedExplanations sb1 !! q = Some ve1 ->
        let second := run (Some cs) now2 fresh2 sb1 b1 in
        applied second = Some ve1
        /\ voiceExplanation (sidebar second) = Some ve1
        /\ calls second = []
        /\ backend second = b1)
  /\ (forall Stored,
        keeps_audio getAudioByQueryId generateVoice Stored ->
        cache_backed Stored origin port sb0 b0 q ->
        forall sb1 b1,
          cachedExplanations sb1 !! q = None ->
          (forall u, Stored (backend first) q u -> Stored b1 q u) ->
          same_session now2 (session_id cs) = true ->
          let second := run (Some cs) now2 fresh2 sb1 b1 in
          exists ve2,
            applied second = Some ve2
            /\ voice_audioUrl ve2 = voice_audioUrl ve1
            /\ calls second = [GetAudio q (Some (session_id cs))]
            /\ syntheses second = 0%nat).
Proof.
  intros run first Hlast Hq Hne H1.
  destruct (applied_run_is_cached Backend getAudioByQueryId generateVoice origin port
              cs message q now1 fresh1 sb0 b0 ve1 Hlast Hq Hne H1) as (Hd & Hc).
  split; [exact Hc |]. split.
  - intros sb1 b1 Hc1 second. subst second run.
    rewrite (cache_hit Backend getAudioByQueryId generateVoice origin port
               cs message q now2 fresh2 sb1 b1 ve1 Hlast Hq Hne Hd Hc1).
    simpl. auto.
  - intros Stored Hcontract Hback sb1 b1 Hc1 Hkept Hsame second.
    exact (stored_audio_is_fetched Backend getAudioByQueryId generateVoice origin port
             Stored Hcontract cs message q now1 now2 fresh1 fresh2 sb0 sb1 b0 b1 ve1
             Hlast Hq Hne Hback H1 Hc1 Hkept Hsame).
Qed.

Lemma voice_request_is_idempotent_witness :
  let run :=
    generateVoiceExplanation (gmap string string) store_get store_generate
      "http://localhost:3000" "3000" in
  let first := run (Some voice_session) (Some voice_session) "msg_0" fresh_sidebar ∅ in
  let second :=
    run (Some voice_session) (Some voice_session) "msg_1" (sidebar first) (backend first) in
  let reloaded :=
    run (Some voice_session) (Some voice_session) "msg_1" fresh_sidebar (backend first) in
  option_map voice_audioUrl (applied first)
  = Some "http://localhost:8000/api/audio/q-17.mp3"
  /\ syntheses first = 1%nat
  /\ applied second = applied first
  /\ calls second = []
  /\ exists ve3,
       applied reloaded = Some ve3
       /\ Some (voice_audioUrl ve3) = option_map voice_audioUrl (applied first)
       /\ calls reloaded = [GetAudio "q-17" (Some "s1")]
       /\ syntheses reloaded = 0%nat.
Proof.
  intros run first second reloaded.
  split; [reflexivity |]. split; [reflexivity |].
  destruct (applied first) as [ve1 |] eqn:E; [| discriminate E].
  destruct (voice_request_is_idempotent (gmap string string) store_get store_generate
              "http://localhost:3000" "3000"
              voice_session answered "q-17" (Some voice_session) (Some voice_session)
              "msg_0" "msg_1" fresh_sidebar ∅ ve1
              eq_refl eq_refl ltac:(discriminate) E)
    as (Hc & Hhit & Hfetch).
  destruct (Hhit (sidebar first) (backend first) Hc) as (H1 & _ & H2 & _).
  split; [exact H1 |]. split; [exact H2 |].
  destruct (Hfetch store_has store_keeps_audio
              ltac:(intros ve H; discriminate H)
              fresh_sidebar (backend first) eq_refl ltac:(intros u H; exact H) eq_refl)
    as (ve3 & H3 & H4 & H5 & H6).
  exists ve3. split; [exact H3 |]. split; [simpl; f_equal; exact H4 |].
  split; [exact H5 | exact H6].
Defined.

End VoiceSidebarProofs.

(** ** Strings *)

Module StringFacts.
Import JS.

Lemma append_cons (c : ascii) (a b : string) : String c a +:+ b = String c (a +:+ b).
Proof. reflexivity. Qed.

Lemma append_nil_l (b : string) : "" +:+ b = b.
Proof. reflexivity. Qed.

Ltac sapp := rewrite ?append_cons, ?append_nil_l.

Ltac sapp_in H := rewrite ?append_cons, ?append_nil_l in H.

Lemma append_nil_r (s : string) : s +:+ "" = s.
Proof. induction s as [| c s IH]; sapp; [reflexivity | rewrite IH; reflexivity]. Qed.

Lemma append_assoc (a b c : string) : (a +:+ b) +:+ c = a +:+ (b +:+ c).
Proof. induction a as [| x a IH]; sapp; [reflexivity | rewrite IH; reflexivity]. Qed.

Lemma length_append (a b : string) :
  String.length (a +:+ b) = (String.length a + String.length b)%nat.
Proof. induction a as [| c a IH]; sapp; simpl; [reflexivity | rewrite IH; reflexivity]. Qed.

Lemma eqb_empty_false (c : ascii) (s : string) : String.eqb (String c s) "" = false.
Proof. reflexivity. Qed.

(** [trimStart] gives a suffix, that does not start with white space. *)
Lemma trimStart_suffix (s : string) : exists a, s = a +:+ trimStart s.
Proof.
  induction s as [| c s [a IH]]; simpl.
  - exists "". reflexivity.
  - destruct (is_ws c).
    + exists (String c a). sapp. rewrite <- IH. reflexivity.
    + exists "". reflexivity.
Qed.

Lemma trimStart_head (s : string) (c : ascii) (r : string) :
  trimStart s = String c r -> is_ws c = false.
Proof.
  induction s as [| d s IH]; simpl; [discriminate |].
  destruct (is_ws d) eqn:E; [exact IH |].
  intros H. injection H as <- <-. exact E.
Qed.

(** [trimEnd] gives a prefix, that does not end with white space. *)
Lemma trimEnd_prefix (s : string) : exists b, s = trimEnd s +:+ b.
Proof.
  induction s as [| c s [b IH]]; simpl.
  - exists "". reflexivity.
  - destruct (is_ws c && String.eqb (trimEnd s) "").
    + exists (String c s). reflexivity.
    + exists b. sapp. rewrite <- IH. reflexivity.
Qed.

Lemma trimEnd_head (s : string) (c : ascii) (r : string) :
  is_ws c = false -> exists r', trimEnd (String c r) = String c r'.
Proof. intros H. simpl. rewrite H. simpl. eauto. Qed.

Lemma trimEnd_last (s : string) : forall (a : string) (c : ascii),
  trimEnd s = a +:+ String c "" -> is_ws c = false.
Proof.
  induction s as [| d s IH]; intros a c; simpl.
  - destruct a; discriminate.
  - destruct (is_ws d) eqn:Ed; simpl.
    + destruct (String.eqb_spec (trimEnd s) "") as [E | NE].
      * destruct a; discriminate.
      * destruct a as [| x a]; sapp; intros H; injection H as -> H.
        -- contradiction.
        -- exact (IH _ _ H).
    + destruct a as [| x a]; sapp; intros H; injection H as -> H.
      * exact Ed.
      * exact (IH _ _ H).
Qed.

Lemma trimEnd_idempotent (s : string) : trimEnd (trimEnd s) = trimEnd s.
Proof.
  induction s as [| c s IH]; simpl; [reflexivity |].
  destruct (is_ws c && String.eqb (trimEnd s) "") eqn:E; [reflexivity |].
  simpl. rewrite IH, E. reflexivity.
Qed.

Lemma trimEnd_keeps_head (s : string) (c : ascii) (r : string) :
  trimEnd s = String c r -> (forall d r', s = String d r' -> is_ws d = false) ->
  is_ws c = false.
Proof.
  destruct s as [| d s]; simpl; [discriminate |].
  intros H Hd. specialize (Hd d s eq_refl). rewrite Hd in H. simpl in H.
  injection H as <- _. exact Hd.
Qed.

Lemma trim_head (s : string) (c : ascii) (r : string) :
  trim s = String c r -> is_ws c = false.
Proof.
  unfold trim. intros H. apply (trimEnd_keeps_head _ _ _ H).
  intros d r'. apply trimStart_head.
Qed.

Lemma trim_last (s a : string) (c : ascii) :
  trim s = a +:+ String c "" -> is_ws c = false.
Proof. unfold trim. apply trimEnd_last. Qed.

Lemma trimStart_fixed (s : string) :
  (forall c r, s = String c r -> is_ws c = false) -> trimStart s = s.
Proof.
  destruct s as [| c s]; [reflexivity |]. intros H. simpl.
  rewrite (H c s eq_refl). reflexivity.
Qed.

Lemma trim_idempotent (s : string) : trim (trim s) = trim s.
Proof.
  unfold trim at 1. rewrite trimStart_fixed.
  - unfold trim. apply trimEnd_idempotent.
  - intros c r. apply trim_head.
Qed.

(** The trimmed string lies inside the string. *)
Lemma trim_inside (s : string) : exists a b, s = a +:+ trim s +:+ b.
Proof.
  destruct (trimStart_suffix s) as [a Ha].
  destruct (trimEnd_prefix (trimStart s)) as [b Hb].
  exists a, b. unfold trim. rewrite <- Hb. exact Ha.
Qed.

End StringFacts.

Module QuizPageNavFacts.
Import JS JSNumber JSDouble QuizPage QuizPageNav.

Lemma initial_page_well_formed sid level count :
  well_formed (initial_page sid level count).
Proof. intros qd H. discriminate H. Qed.

Lemma generateQuiz_well_formed reply p :
  well_formed p -> well_formed (generateQuiz reply p).
Proof.
  intros Hp. unfold generateQuiz. destruct reply as [g |].
  - intros qd H. simpl in H. injection H as <-. simpl.
    rewrite length_replicate. split; [reflexivity |].
    destruct (questions g); [right; auto | left; simpl; lia].
  - intros qd H. simpl in *. exact (Hp qd H).
Qed.

Lemma handleNextQuestion_well_formed p :
  well_formed p -> well_formed (handleNextQuestion p).
Proof.
  intros Hp. unfold handleNextQuestion.
  destruct (quizData (state p)) as [g |] eqn:E; [| exact Hp].
  destruct (Nat.ltb_spec (currentQuestionIndex p + 1) (length (questions g))) as [Hlt | Hge];
    [| exact Hp].
  intros qd H. simpl in *. destruct (Hp qd H) as [Hl _].
  split; [exact Hl |]. left. assert (qd = g) by congruence. subst. lia.
Qed.

Lemma handlePreviousQuestion_well_formed p :
  well_formed p -> well_formed (handlePreviousQuestion p).
Proof.
  intros Hp. unfold handlePreviousQuestion.
  destruct (Nat.ltb_spec 0 (currentQuestionIndex p)) as [Hlt | Hge]; [| exact Hp].
  intros qd H. simpl in *. destruct (Hp qd H) as [Hl [Hi | [_ Hi]]]; [| lia].
  split; [exact Hl |]. left. lia.
Qed.

Lemma settleSubmit_well_formed s p :
  well_formed p -> well_formed (settleSubmit s p).
Proof.
  intros Hp. destruct s as [| row st']; [exact Hp |].
  intros qd H. simpl in *. apply Hp. exact H.
Qed.

Lemma handleGenerateAnother_well_formed p : well_formed (handleGenerateAnother p).
Proof. intros qd H. discriminate H. Qed.

Lemma handleAnswerSelect_well_formed k p :
  well_formed p -> selectable p ->
  exists p',
    handleAnswerSelect k p = Some p' /\ well_formed p'
    /\ currentQuestionIndex p' = currentQuestionIndex p
    /\ userAnswers (state p') !! currentQuestionIndex p = Some (nat_toString k)
    /\ forall j, j <> currentQuestionIndex p ->
                 userAnswers (state p') !! j = userAnswers (state p) !! j.
Proof.
  intros Hp (g & Hg & Hne). destruct (Hp g Hg) as [Hl [Hi | [Hq _]]]; [| contradiction].
  unfold handleAnswerSelect.
  destruct (Nat.ltb_spec (currentQuestionIndex p) (length (userAnswers (state p))))
    as [Hlt | Hge]; [| lia].
  eexists. split; [reflexivity |]. simpl. split; [| split; [reflexivity | split]].
  - intros qd H'. simpl in *. rewrite length_insert. apply Hp. exact H'.
  - apply list_lookup_insert_eq. lia.
  - intros j Hj. apply list_lookup_insert_ne. congruence.
Qed.

(** X1.  The handlers of the quiz page keep it well formed: the answers are
    as many as the questions and the question shown exists.  The page is
    so when first shown, every action of the learner leaves it so, and
    selecting an option, which is possible when the quiz has a question,
    always finds the slot of the question shown. *)
Theorem quiz_page_stays_well_formed (a : Action) (p : Page) :
  well_formed p ->
  (forall k, a = Select k -> selectable p) ->
  exists p', act a p = Some p' /\ well_formed p'.
Proof.
  intros Hp Hsel. destruct a as [reply | k | | | random | random clicked |]; simpl.
  - eexists. split; [reflexivity | apply generateQuiz_well_formed; exact Hp].
  - destruct (handleAnswerSelect_well_formed k p Hp (Hsel k eq_refl))
      as (p' & H1 & H2 & _).
    exists p'. auto.
  - eexists. split; [reflexivity | apply handleNextQuestion_well_formed; exact Hp].
  - eexists. split; [reflexivity | apply handlePreviousQuestion_well_formed; exact Hp].
  - eexists. split; [reflexivity | exact Hp].
  - eexists. split; [reflexivity | apply settleSubmit_well_formed; exact Hp].
  - eexists. split; [reflexivity | apply handleGenerateAnother_well_formed].
Qed.


Lemma Qeq_bool_comm (a b : Q) : Qeq_bool a b = Qeq_bool b a.
Proof. unfold Qeq_bool. apply Z.eqb_sym. Qed.

Lemma answer_of_selection (k : nat) (v : option jsval) :
  answer_matches (nat_toString k) v = strict_eq_num (default JUndefined v) (of_nat k).
Proof.
  unfold answer_matches. rewrite JSNumberFacts.parseInt_nat_toString.
  destruct v as [[| | | q | | |] |]; try reflexivity.
  simpl. apply Qeq_bool_comm.
Qed.

Lemma unanswered_never_matches (v : option jsval) : answer_matches "" v = false.
Proof. reflexivity. Qed.

(** X2.  Selecting an option and scoring agree: [parseInt] reads back the
    index that [toString] wrote.  After the option [k] of the question
    shown is selected, that question is counted as correct by
    [handleSubmitQuiz] exactly when its correct index is the number [k];
    the answers of the other questions are as they were. *)
Theorem selected_option_is_scored_as_selected (k : nat) (p : Page) (qd : QuizData) :
  well_formed p ->
  quizData (state p) = Some qd -> questions qd <> [] ->
  exists p',
    handleAnswerSelect k p = Some p'
    /\ matches_at (userAnswers (state p')) (correct_answers qd) (currentQuestionIndex p)
       = strict_eq_num (default JUndefined (correct_answers qd !! currentQuestionIndex p))
                       (of_nat k)
    /\ forall j, j <> currentQuestionIndex p ->
         matches_at (userAnswers (state p')) (correct_answers qd) j
         = matches_at (userAnswers (state p)) (correct_answers qd) j.
Proof.
  intros Hp Hqd Hne.
  destruct (handleAnswerSelect_well_formed k p Hp (ex_intro _ qd (conj Hqd Hne)))
    as (p' & H1 & _ & _ & Hset & Hother).
  exists p'. split; [exact H1 |]. split.
  - unfold matches_at. rewrite Hset. apply answer_of_selection.
  - intros j Hj. unfold matches_at. rewrite (Hother j Hj). reflexivity.
Qed.

Lemma filter_seq_length_le (f : nat -> bool) (n : nat) :
  forall a, (length (List.filter f (seq a n)) <= n)%nat.
Proof.
  induction n as [| n IH]; intros a; simpl; [lia |].
  specialize (IH (S a)). destruct (f a); simpl; lia.
Qed.

Lemma filter_seq_length_all (f : nat -> bool) (n : nat) :
  forall a, length (List.filter f (seq a n)) = n
            <-> forall k, (a <= k < a + n)%nat -> f k = true.
Proof.
  induction n as [| n IH]; intros a; simpl.
  - split; [intros _ k Hk; lia | reflexivity].
  - pose proof (filter_seq_length_le f n (S a)) as Hle.
    destruct (f a) eqn:Ea; simpl.
    + split.
      * intros H k Hk. destruct (decide (k = a)) as [-> | Hka]; [exact Ea |].
        apply (proj1 (IH (S a))); lia.
      * intros H. f_equal. apply IH. intros k Hk. apply H. lia.
    + split; [lia |]. intros H. specialize (H a). rewrite Ea in H.
      assert (false = true) by (apply H; lia). discriminate.
Qed.

Lemma filter_seq_nil (f : nat -> bool) (n : nat) :
  forall a, (forall k, (a <= k < a + n)%nat -> f k = false) ->
            List.filter f (seq a n) = [].
Proof.
  induction n as [| n IH]; intros a H; simpl; [reflexivity |].
  rewrite (H a) by lia. apply IH. intros k Hk. apply H. lia.
Qed.

Lemma doubles_of_the_score :
  is_double 1 /\ is_double 100
  /\ is_double (4294967295 # 4294967296)
  /\ is_double (1 # 4294967296)
  /\ is_double (7036874417766399 # 70368744177664).
Proof. repeat split; vm_compute; reflexivity. Qed.

(** The score in doubles, for a quiz of fewer than 2^32 questions: neither
    rounding takes it out of the range, to 100 or to 0. *)
Lemma percentage_bounds (c n : nat) :
  (c <= n)%nat -> (0 < n)%nat -> (Z.of_nat n < 2 ^ 32)%Z ->
  (0 <= fmul (fdiv (of_nat c) (of_nat n)) 100 <= 100)%Q
  /\ ((fmul (fdiv (of_nat c) (of_nat n)) 100 == 100)%Q <-> c = n)
  /\ ((fmul (fdiv (of_nat c) (of_nat n)) 100 == 0)%Q <-> c = 0%nat).
Proof.
  intros Hc Hn Hbig. unfold fmul, fdiv, of_nat.
  destruct doubles_of_the_score as (D1 & D100 & Du & Dw & Dv).
  assert (Hn' : (0 < inject_Z (Z.of_nat n))%Q).
  { change 0%Q with (inject_Z 0). rewrite <- Zlt_Qlt. lia. }
  assert (Hc0 : (0 <= inject_Z (Z.of_nat c))%Q).
  { change 0%Q with (inject_Z 0). rewrite <- Zle_Qle. lia. }
  assert (Hcn : (inject_Z (Z.of_nat c) <= inject_Z (Z.of_nat n))%Q).
  { rewrite <- Zle_Qle. lia. }
  assert (Hnb : (inject_Z (Z.of_nat n) <= 4294967296)%Q).
  { change 4294967296%Q with (inject_Z 4294967296). rewrite <- Zle_Qle.
    change (2 ^ 32)%Z with 4294967296%Z in Hbig. lia. }
  assert (Hlt : (c < n)%nat ->
                (inject_Z (Z.of_nat c) <= inject_Z (Z.of_nat n) - 1)%Q).
  { intros H. change 1%Q with (inject_Z 1). unfold Qminus.
    rewrite <- inject_Z_opp, <- inject_Z_plus, <- Zle_Qle. lia. }
  assert (Hpos : (0 < c)%nat -> (1 <= inject_Z (Z.of_nat c))%Q).
  { intros H. change 1%Q with (inject_Z 1). rewrite <- Zle_Qle. lia. }
  assert (Hzero : c = 0%nat -> (inject_Z (Z.of_nat c) == 0)%Q).
  { intros ->. reflexivity. }
  assert (Hsame : c = n -> (inject_Z (Z.of_nat c) == inject_Z (Z.of_nat n))%Q).
  { intros ->. reflexivity. }
  remember (inject_Z (Z.of_nat c)) as x eqn:Ex.
  remember (inject_Z (Z.of_nat n)) as y eqn:Ey.
  assert (Hq0 : (0 <= x / y)%Q) by (apply Qle_shift_div_l; [exact Hn' | lra]).
  assert (Hq1 : (x / y <= 1)%Q) by (apply Qle_shift_div_r; [exact Hn' | lra]).
  pose proof (JSDoubleFacts.fl_nonneg _ Hq0) as Hd0.
  pose proof (JSDoubleFacts.fl_le_double _ _ D1 Hq0 Hq1) as Hd1.
  assert (Hp0 : (0 <= fl (x / y) * 100)%Q) by lra.
  assert (Hp1 : (fl (x / y) * 100 <= 100)%Q) by lra.
  pose proof (JSDoubleFacts.fl_nonneg _ Hp0) as Hs0.
  pose proof (JSDoubleFacts.fl_le_double _ _ D100 Hp0 Hp1) as Hs1.
  split; [split; assumption |]. split.
  - split.
    + intros H. destruct (Nat.eq_dec c n) as [E | E]; [exact E | exfalso].
      assert (Hqu : (x / y <= 4294967295 # 4294967296)%Q).
      { apply Qle_shift_div_r; [exact Hn' |]. specialize (Hlt ltac:(lia)). lra. }
      pose proof (JSDoubleFacts.fl_le_double _ _ Du Hq0 Hqu) as Hdu.
      assert (Hpv : (fl (x / y) * 100 <= 7036874417766399 # 70368744177664)%Q) by lra.
      pose proof (JSDoubleFacts.fl_le_double _ _ Dv Hp0 Hpv) as Hsv.
      lra.
    + intros E. specialize (Hsame E).
      assert (Hq : (x / y == 1)%Q) by (rewrite Hsame; field; lra).
      pose proof (JSDoubleFacts.fl_comp _ _ Hq0 Hq) as Hd.
      assert (E1 : (fl 1 == 1)%Q) by exact D1.
      assert (Hp : (fl (x / y) * 100 == 100)%Q) by lra.
      pose proof (JSDoubleFacts.fl_comp _ _ Hp0 Hp) as Hs.
      assert (E100 : (fl 100 == 100)%Q) by exact D100.
      lra.
  - split.
    + intros H. destruct (Nat.eq_dec c 0) as [E | E]; [exact E | exfalso].
      assert (Hqw : ((1 # 4294967296) <= x / y)%Q).
      { apply Qle_shift_div_l; [exact Hn' |]. specialize (Hpos ltac:(lia)). lra. }
      pose proof (JSDoubleFacts.double_le_fl _ _ Dw ltac:(lra) Hqw) as Hdw.
      assert (Hpw : ((1 # 4294967296) <= fl (x / y) * 100)%Q) by lra.
      pose proof (JSDoubleFacts.double_le_fl _ _ Dw ltac:(lra) Hpw) as Hsw.
      lra.
    + intros E. specialize (Hzero E).
      assert (Hq : (x / y == 0)%Q) by (rewrite Hzero; field; lra).
      rewrite (JSDoubleFacts.fl_of_0 _ Hq).
      assert (Hp : (0 * 100 == 0)%Q) by lra.
      rewrite (JSDoubleFacts.fl_of_0 _ Hp). reflexivity.
Qed.

(** X3.  The score is a percentage, roundings included.  For a quiz with
    as many correct indices as questions, and fewer than 2^32 questions as
    every array has, the number of correct answers is at most the number
    of questions, the score the page computes in doubles lies between 0 and
    100, it is 100 exactly when every question is answered with its
    correct index, and 0 exactly when none is; a question left unanswered
    never counts. *)
Theorem quiz_score_is_between_0_and_100
    (random : Q) (st : State) (qd : QuizData) (res : QuizResults) :
  quizData st = Some qd ->
  length (correct_answers qd) = length (questions qd) ->
  questions qd <> [] ->
  (Z.of_nat (length (questions qd)) < 2 ^ 32)%Z ->
  results_of (handleSubmitQuiz random st) = Some res ->
  exists sc,
    score res = Some sc
    /\ sc = fmul (fdiv (of_nat (correctAnswers res)) (of_nat (totalQuestions res))) 100
    /\ (correctAnswers res <= totalQuestions res)%nat
    /\ (0 <= sc <= 100)%Q
    /\ ((sc == 100)%Q <->
        forall i, (i < length (questions qd))%nat ->
                  matches_at (userAnswers st) (correct_answers qd) i = true)
    /\ ((sc == 0)%Q <->
        forall i, (i < length (questions qd))%nat ->
                  matches_at (userAnswers st) (correct_answers qd) i = false)
    /\ (forall i, userAnswers st !! i = Some "" ->
                  matches_at (userAnswers st) (correct_answers qd) i = false).
Proof.
  intros Hqd Hlen Hne Hbig Hres.
  unfold handleSubmitQuiz in Hres. rewrite Hqd in Hres.
  destruct (sessionId st) as [sid |]; [| discriminate].
  destruct (negb (String.eqb sid "")); [| discriminate].
  simpl in Hres. injection Hres as <-. simpl.
  rewrite (QuizPageProofs.count_correct_questions _ _ (length (questions qd)) Hlen).
  set (n := length (questions qd)) in *.
  assert (Hn : (0 < n)%nat) by (subst n; destruct (questions qd); [congruence | simpl; lia]).
  set (c := matching_count (userAnswers st) (correct_answers qd) n).
  assert (Hc : (c <= n)%nat) by apply filter_seq_length_le.
  destruct (percentage_bounds c n Hc Hn Hbig) as (Hb & H100 & H0).
  exists (fmul (fdiv (of_nat c) (of_nat n)) 100).
  split; [unfold quizScore; destruct n; [lia | reflexivity] |].
  split; [reflexivity |].
  split; [exact Hc |]. split; [exact Hb |]. split; [| split].
  - rewrite H100. subst c. unfold matching_count.
    rewrite filter_seq_length_all. split; intros H i Hi; apply H; lia.
  - rewrite H0. subst c. unfold matching_count.
    rewrite length_zero_iff_nil. split.
    + intros H i Hi.
      destruct (matches_at (userAnswers st) (correct_answers qd) i) eqn:E; [| reflexivity].
      assert (Hin : In i (List.filter (matches_at (userAnswers st) (correct_answers qd))
                                      (seq 0 n))).
      { apply filter_In. split; [apply in_seq; lia | exact E]. }
      rewrite H in Hin. destruct Hin.
    + intros H. apply filter_seq_nil. intros k Hk. apply H. lia.
  - intros i Hi. unfold matches_at. rewrite Hi. reflexivity.
Qed.


Lemma quiz_page_stays_well_formed_witness :
  exists p', act (Select 2) quiz_page = Some p' /\ well_formed p'.
Proof.
  apply (quiz_page_stays_well_formed (Select 2) quiz_page).
  - apply generateQuiz_well_formed. apply initial_page_well_formed.
  - intros k _. exists two_questions. split; [reflexivity | discriminate].
Defined.

Lemma selected_option_is_scored_as_selected_witness :
  exists p',
    handleAnswerSelect 2 quiz_page = Some p'
    /\ matches_at (userAnswers (state p')) (correct_answers two_questions) 0 = true.
Proof.
  destruct (selected_option_is_scored_as_selected 2 quiz_page two_questions)
    as (p' & H1 & H2 & _).
  - apply generateQuiz_well_formed. apply initial_page_well_formed.
  - reflexivity.
  - discriminate.
  - exists p'. split; [exact H1 |]. etransitivity; [exact H2 | reflexivity].
Defined.

Lemma quiz_score_is_between_0_and_100_witness :
  exists res sc,
    results_of (handleSubmitQuiz (1 # 2) (state answered_page)) = Some res
    /\ score res = Some sc /\ (0 <= sc <= 100)%Q /\ (sc == 100)%Q.
Proof.
  destruct (results_of (handleSubmitQuiz (1 # 2) (state answered_page)))
    as [res |] eqn:E; [| discriminate E].
  destruct (quiz_score_is_between_0_and_100 (1 # 2) (state answered_page)
              two_questions res eq_refl eq_refl) as (sc & H1 & _ & _ & H2 & H3 & _).
  - discriminate.
  - reflexivity.
  - exact E.
  - exists res, sc. split; [reflexivity |]. split; [exact H1 |]. split; [exact H2 |].
    apply H3. intros i Hi. do 2 (destruct i as [| i]; [reflexivity |]). simpl in Hi. lia.
Defined.

Lemma filter_length_all {A : Type} (f : A -> bool) (l : list A) :
  length (List.filter f l) = length l -> forall x, In x l -> f x = true.
Proof.
  induction l as [| a l IH]; simpl; [contradiction |].
  pose proof (List.filter_length_le f l) as Hle.
  destruct (f a) eqn:Ea; simpl; intros H x [<- | Hx]; try lia; auto.
Qed.

(** X4.  A quiz can be submitted only when it is complete: on a well-formed
    page the button that submits is enabled only if every question has an
    answer that is not the empty string. *)
Theorem submit_needs_every_answer (p : Page) (qd : QuizData) :
  well_formed p ->
  quizData (state p) = Some qd ->
  submit_enabled p = true ->
  forall i, (i < length (questions qd))%nat ->
    exists a, userAnswers (state p) !! i = Some a /\ a <> "".
Proof.
  intros Hp Hqd He i Hi. destruct (Hp qd Hqd) as [Hl _].
  unfold submit_enabled, answered in He. rewrite Hqd in He.
  apply Nat.eqb_eq in He. rewrite <- Hl in He, Hi.
  destruct (lookup_lt_is_Some_2 _ _ Hi) as [a Ha].
  exists a. split; [exact Ha |].
  pose proof (filter_length_all _ _ He a) as H.
  assert (Hin : In a (userAnswers (state p))).
  { apply list_elem_of_In. apply list_elem_of_lookup. eauto. }
  specialize (H Hin). apply negb_true_iff in H. apply String.eqb_neq in H. exact H.
Qed.

Lemma submit_needs_every_answer_witness :
  exists a, userAnswers (state answered_page) !! 1%nat = Some a /\ a <> "".
Proof.
  apply (submit_needs_every_answer answered_page two_questions).
  - intros qd H. injection H as <-. simpl. split; [reflexivity | left; lia].
  - reflexivity.
  - reflexivity.
  - simpl. lia.
Defined.

Lemma act_keeps_count (a : Action) (p p' : Page) :
  is_submit a = false -> act a p = Some p' ->
  quizCount (state p') = quizCount (state p).
Proof.
  intros Hs. destruct a as [reply | k | | | random | random clicked |]; simpl;
    try discriminate.
  - intros H. injection H as <-. unfold generateQuiz. destruct reply; reflexivity.
  - unfold handleAnswerSelect. destruct (_ <? _)%nat; [| discriminate].
    intros H. injection H as <-. reflexivity.
  - intros H. injection H as <-. unfold handleNextQuestion.
    destruct (quizData (state p)); [| reflexivity]. destruct (_ <? _)%nat; reflexivity.
  - intros H. injection H as <-. unfold handlePreviousQuestion.
    destruct (_ <? _)%nat; reflexivity.
  - intros H. injection H as <-. reflexivity.
Qed.

Lemma run_keeps_count (actions : list Action) :
  forall p p',
    forallb (fun a => negb (is_submit a)) actions = true ->
    run actions p = Some p' ->
    quizCount (state p') = quizCount (state p).
Proof.
  induction actions as [| a rest IH]; intros p p' Hall; simpl.
  - intros H. injection H as <-. reflexivity.
  - simpl in Hall. apply andb_true_iff in Hall as [Ha Hrest].
    apply negb_true_iff in Ha.
    destruct (act a p) as [p1 |] eqn:E; [| discriminate].
    intros H. rewrite (IH p1 p' Hrest H). exact (act_keeps_count a p p1 Ha E).
Qed.

Lemma submission_records_the_count (random : Q) (st : State) (row : QuizRow) (st' : State) :
  handleSubmitQuiz random st = Submitted row st' ->
  quiz_index row = quizCount st /\ quizCount st' = (quizCount st + 1)%nat.
Proof.
  unfold handleSubmitQuiz.
  destruct (sessionId st) as [sid |]; [| discriminate].
  destruct (quizData st) as [qd |]; [| discriminate].
  destruct (negb (String.eqb sid "")); [| discriminate].
  intros H. injection H as <- <-. simpl. auto.
Qed.

(** X5.  The quizzes of a session are numbered one after the other, as
    long as a submission has settled before the next is started.  A
    submission records as [quiz_index] the count the page has at the
    click, and sets the count to one more when its insertion has settled;
    nothing else the learner does changes the count.  So a submission
    started after the first has settled, whatever was done in between,
    records the next index and leaves the count one above it; and a
    submission started while the insertion of the first is pending records
    the index of the first again. *)
Theorem quiz_indices_are_consecutive
    (random1 random2 : Q) (p pending p2 : Page) (before_ after_ : list Action)
    (row1 row2 : QuizRow) (st1 st2 : State) :
  handleSubmitQuiz random1 (state p) = Submitted row1 st1 ->
  forallb (fun a => negb (is_submit a)) before_ = true ->
  run before_ p = Some pending ->
  forallb (fun a => negb (is_submit a)) after_ = true ->
  run (Settles random1 (state p) :: after_) pending = Some p2 ->
  handleSubmitQuiz random2 (state p2) = Submitted row2 st2 ->
  quiz_index row1 = quizCount (state p)
  /\ quiz_index row2 = (quiz_index row1 + 1)%nat
  /\ quizCount st2 = (quiz_index row2 + 1)%nat
  /\ forall random' row' st'',
       handleSubmitQuiz random' (state pending) = Submitted row' st'' ->
       quiz_index row' = quiz_index row1.
Proof.
  intros H1 Hb Hrunb Ha Hrun H2.
  pose proof (run_keeps_count before_ _ _ Hb Hrunb) as Hpending.
  simpl in Hrun. rewrite H1 in Hrun.
  pose proof (run_keeps_count after_ _ _ Ha Hrun) as Hcount. simpl in Hcount.
  destruct (submission_records_the_count _ _ _ _ H1) as [Hi1 Hc1].
  destruct (submission_records_the_count _ _ _ _ H2) as [Hi2 Hc2].
  split; [exact Hi1 |]. split; [lia |]. split; [lia |].
  intros random' row' st'' H'.
  destruct (submission_records_the_count _ _ _ _ H') as [Hi' _]. lia.
Qed.

Lemma quiz_indices_are_consecutive_witness :
  exists p2 row1 row2 row' st1 st2 st'',
    run [Settles (1 # 2) (state answered_page); Another; Generate (Some two_questions)]
        answered_page = Some p2
    /\ handleSubmitQuiz (1 # 2) (state answered_page) = Submitted row1 st1
    /\ handleSubmitQuiz (1 # 4) (state p2) = Submitted row2 st2
    /\ handleSubmitQuiz (3 # 4) (state answered_page) = Submitted row' st''
    /\ quiz_index row1 = 3%nat /\ quiz_index row2 = 4%nat /\ quiz_index row' = 3%nat.
Proof.
  destruct (run [Settles (1 # 2) (state answered_page); Another;
                 Generate (Some two_questions)] answered_page)
    as [p2 |] eqn:Er; [| discriminate Er].
  destruct (handleSubmitQuiz (1 # 2) (state answered_page)) as [| row1 st1] eqn:E1;
    [discriminate E1 |].
  destruct (handleSubmitQuiz (3 # 4) (state answered_page)) as [| row' st''] eqn:E';
    [discriminate E' |].
  destruct (handleSubmitQuiz (1 # 4) (state p2)) as [| row2 st2] eqn:E2.
  { injection Er as <-. discriminate E2. }
  exists p2, row1, row2, row', st1, st2, st''.
  split; [reflexivity |]. split; [reflexivity |]. split; [exact E2 |].
  split; [reflexivity |].
  destruct (quiz_indices_are_consecutive (1 # 2) (1 # 4) answered_page answered_page p2
              [] [Another; Generate (Some two_questions)] row1 row2 st1 st2
              E1 eq_refl eq_refl eq_refl Er E2) as (Ha & Hb & _ & Hd).
  split; [exact Ha |]. split; [rewrite Hb, Ha; reflexivity |].
  rewrite (Hd _ _ _ E'). exact Ha.
Defined.

End QuizPageNavFacts.

Module QuizPageInitFacts.
Import JS JSNumber QuizPage QuizPageNav QuizPageInit.

Lemma fold_max_ge (l : list nat) : forall a : nat,
  (a <= fold_left Nat.max l a)%nat
  /\ forall x, In x l -> (x <= fold_left Nat.max l a)%nat.
Proof.
  induction l as [| y l IH]; intros a; simpl.
  - split; [lia | tauto].
  - destruct (IH (Nat.max a y)) as [H1 H2]. split; [lia |].
    intros x [<- | Hx]; [lia | exact (H2 x Hx)].
Qed.

Lemma latest_quiz_index_highest (sid : string) (quizzes : list QuizRow) (row : QuizRow) :
  In row quizzes -> session_id row = sid ->
  exists latest, latest_quiz_index sid quizzes = [latest]
                 /\ (quiz_index row <= latest)%nat.
Proof.
  intros Hin Hsid. unfold latest_quiz_index.
  assert (In (quiz_index row)
             (map quiz_index
                  (List.filter (fun r => String.eqb (session_id r) sid) quizzes))) as H.
  { apply in_map. apply filter_In. split; [exact Hin |].
    rewrite Hsid. apply String.eqb_refl. }
  destruct (map quiz_index _) as [| i rest]; [destruct H |].
  eexists. split; [reflexivity |].
  destruct (fold_max_ge rest i) as [H1 H2].
  destruct H as [<- | H]; [exact H1 | exact (H2 _ H)].
Qed.

Lemma act_keeps_sessionId (a : Action) (p p' : Page) (sid : string) :
  is_submit a = false -> act a p = Some p' ->
  sessionId (state p) = Some sid -> sid <> "" ->
  sessionId (state p') = Some sid.
Proof.
  intros Hs Hact Hsid Hne.
  destruct a as [reply | k | | | random | random clicked |]; simpl in *;
    try discriminate.
  - injection Hact as <-. unfold generateQuiz. rewrite Hsid.
    rewrite (ChatStoreProofs.truthy_str_Some sid Hne). destruct reply; reflexivity.
  - unfold handleAnswerSelect in Hact. destruct (_ <? _)%nat; [| discriminate].
    injection Hact as <-. exact Hsid.
  - injection Hact as <-. unfold handleNextQuestion.
    destruct (quizData (state p)); [| exact Hsid]. destruct (_ <? _)%nat; exact Hsid.
  - injection Hact as <-. unfold handlePreviousQuestion.
    destruct (_ <? _)%nat; exact Hsid.
  - injection Hact as <-. exact Hsid.
Qed.

Lemma run_keeps_sessionId (actions : list Action) :
  forall (p p' : Page) (sid : string),
    forallb (fun a => negb (is_submit a)) actions = true ->
    run actions p = Some p' ->
    sessionId (state p) = Some sid -> sid <> "" ->
    sessionId (state p') = Some sid.
Proof.
  induction actions as [| a rest IH]; intros p p' sid Hall; simpl.
  - intros H. injection H as <-. auto.
  - simpl in Hall. apply andb_true_iff in Hall as [Ha Hrest].
    apply negb_true_iff in Ha.
    destruct (act a p) as [p1 |] eqn:E; [| discriminate].
    intros H Hsid Hne. apply (IH p1 p' sid Hrest H); [| exact Hne].
    exact (act_keeps_sessionId a p p1 sid Ha E Hsid Hne).
Qed.

Lemma initial_session_id (urlSessionId : option string) :
  default fixedSessionId (or_else urlSessionId (Some fixedSessionId)) <> "".
Proof.
  unfold or_else. destruct urlSessionId as [s |]; simpl; [| discriminate].
  destruct (String.eqb_spec s ""); simpl; [discriminate | assumption].
Qed.

(** X22.  A quiz page opened again goes on numbering where the session
    stopped.  When the query of [initializeQuiz] answers, the page starts
    with a count above every index recorded for its session (that of the
    address, or the fixed one), and whatever the learner does before
    submitting, the row of the first submission is of that session and has
    an index above all of them: no index recorded for the session is used
    again. *)
Theorem reopened_quiz_page_uses_a_fresh_index
    (quizzes : list QuizRow) (urlSessionId : option string) (actions : list Action)
    (random : Q) (p : Page) (row : QuizRow) (st' : State) :
  let sid := default fixedSessionId (or_else urlSessionId (Some fixedSessionId)) in
  forallb (fun a => negb (is_submit a)) actions = true ->
  run actions (initializeQuiz urlSessionId (Some (latest_quiz_index sid quizzes))) = Some p ->
  handleSubmitQuiz random (state p) = Submitted row st' ->
  session_id row = sid
  /\ (forall r, In r quizzes -> session_id r = sid -> (quiz_index r < quiz_index row)%nat)
  /\ forall r, In r (insert_row true row quizzes) -> session_id r = sid ->
               (quiz_index r < quizCount st')%nat.
Proof.
  intros sid Hall Hrun Hsub.
  pose proof (QuizPageNavFacts.run_keeps_count actions _ _ Hall Hrun) as Hcount.
  pose proof (run_keeps_sessionId actions _ _ sid Hall Hrun eq_refl
                (initial_session_id urlSessionId)) as Hsid.
  unfold handleSubmitQuiz in Hsub. rewrite Hsid in Hsub.
  destruct (quizData (state p)) as [qd |]; [| discriminate].
  destruct (negb (String.eqb sid "")); [| discriminate].
  injection Hsub as <- <-. simpl.
  assert (forall r, In r quizzes -> session_id r = sid ->
                    (quiz_index r < quizCount (state p))%nat) as Hfresh.
  { intros r Hin Hr. rewrite Hcount. simpl. fold sid.
    destruct (latest_quiz_index_highest sid quizzes r Hin Hr) as (latest & -> & Hle).
    lia. }
  split; [reflexivity |]. split; [exact Hfresh |].
  intros r Hin Hr. unfold insert_row in Hin. apply in_app_iff in Hin as [Hin | [<- | []]].
  - specialize (Hfresh r Hin Hr). lia.
  - simpl. lia.
Qed.

Lemma reopened_quiz_page_uses_a_fresh_index_witness :
  exists row st',
    handleSubmitQuiz (1 # 2)
      (state (generateQuiz (Some two_questions)
                (initializeQuiz (Some "s-1") (Some (latest_quiz_index "s-1" table)))))
    = Submitted row st'
    /\ quiz_index row = 2%nat.
Proof.
  destruct (handleSubmitQuiz (1 # 2)
              (state (generateQuiz (Some two_questions)
                        (initializeQuiz (Some "s-1")
                           (Some (latest_quiz_index "s-1" table))))))
    as [| row st'] eqn:E; [discriminate E |].
  exists row, st'. split; [reflexivity |].
  destruct (reopened_quiz_page_uses_a_fresh_index table (Some "s-1")
              [Generate (Some two_questions)] (1 # 2)
              (generateQuiz (Some two_questions)
                 (initializeQuiz (Some "s-1") (Some (latest_quiz_index "s-1" table))))
              row st' eq_refl eq_refl E) as (_ & H & _).
  injection E as <- _. reflexivity.
Defined.

End QuizPageInitFacts.

Module QuizRouteShapeFacts.
Import JS QuizRoute QuizRouteShape.

Lemma check_question_number (i : nat) (opts cas : list jsval) (items : list jsval) (c : Q) :
  opts !! i = Some (JArr items) -> length items = 4%nat ->
  cas !! i = Some (JNum c) ->
  exists c' lg, check_question i opts cas = (inr (<[i := JNum c']> cas), lg).
Proof.
  intros Ho Hfour Hc. unfold check_question. rewrite Ho, Hfour, Hc. simpl.
  destruct (QuizRouteProofs.correction_cases i c) as [[R E] | [[R E] | [[R E] | [R E]]]];
    rewrite E; unfold final_validation.
  - assert (H0 : Qlt_bool (c - 1) 0 = false) by (apply QuizRouteProofs.Qlt_bool_false; lra).
    assert (H3 : Qlt_bool 3 (c - 1) = false) by (apply QuizRouteProofs.Qlt_bool_false; lra).
    rewrite H0, H3. simpl. eauto.
  - simpl. eauto.
  - simpl. eauto.
  - assert (H0 : Qlt_bool c 0 = false) by (apply QuizRouteProofs.Qlt_bool_false; lra).
    assert (H3 : Qlt_bool 3 c = false) by (apply QuizRouteProofs.Qlt_bool_false; lra).
    rewrite H0, H3. simpl. exists c, [].
    rewrite list_insert_id by exact Hc. reflexivity.
Qed.

(** The loop goes through when every row is an array of 4 and every index
    a number. *)
Lemma validate_from_numbers (n : nat) :
  forall (i : nat) (opts cas : list jsval),
    (forall j, (i <= j < i + n)%nat ->
       (exists items, opts !! j = Some (JArr items) /\ length items = 4%nat)
       /\ exists c, cas !! j = Some (JNum c)) ->
    exists cas' lg, validate_from n i opts cas = (inr cas', lg).
Proof.
  induction n as [| n IH]; intros i opts cas H; simpl; [eauto |].
  destruct (H i) as [(items & Ho & Hfour) (c & Hc)]; [lia |].
  destruct (check_question_number i opts cas items c Ho Hfour Hc) as (c' & lg & ->).
  destruct (IH (S i) opts (<[i := JNum c']> cas)) as (cas' & lg' & ->).
  - intros j Hj. destruct (H j) as [Hrow (d & Hd)]; [lia |].
    split; [exact Hrow |]. exists d. rewrite list_lookup_insert_ne by lia. exact Hd.
  - eauto.
Qed.

Lemma array_of_length_intro (l : list jsval) (questionCount : jsval) :
  strict_eq_num questionCount (of_nat (length l)) = true ->
  array_of_length (JArr l) questionCount = Some l.
Proof. intros H. simpl. rewrite H. reflexivity. Qed.

Lemma acceptable_returns (env : Env) (topic_ : string) (difficulty_ questionCount : jsval)
    (raw : Quiz) :
  truthy_str (GROQ_API_KEY env) = true ->
  groq env topic_ difficulty_ questionCount = Parsed raw ->
  acceptable raw questionCount ->
  exists cas',
    value (generateQuizWithGroq env topic_ difficulty_ questionCount)
    = inr (mkQuiz (topic raw) (difficulty raw) (questions raw) (options raw)
                  (JArr cas') (explanations raw)).
Proof.
  intros Hkey Hraw (n & qs & opts & cas & exps & Hn & Hq & Hlq & Ho & Hlo & Hc & Hlc
                    & He & Hle & Hrows & Hnums).
  unfold generateQuizWithGroq. rewrite Hkey, Hraw. unfold handle_reply, validate_quiz.
  rewrite Hq, Ho, Hc, He.
  rewrite !array_of_length_intro by congruence.
  destruct (validate_from_numbers (length qs) 0 opts cas) as (cas' & lg & ->).
  - intros j Hj. split.
    + destruct (lookup_lt_is_Some_2 opts j) as [row Hrow]; [lia |].
      destruct (Hrows j row Hrow) as (items & -> & Hfour). eauto.
    + destruct (lookup_lt_is_Some_2 cas j) as [v Hv]; [lia |].
      destruct (Hnums j v Hv) as (c & ->). eauto.
  - exists cas'. reflexivity.
Qed.

Lemma returns_acceptable (env : Env) (topic_ : string) (difficulty_ questionCount : jsval)
    (raw quiz : Quiz) :
  groq env topic_ difficulty_ questionCount = Parsed raw ->
  value (generateQuizWithGroq env topic_ difficulty_ questionCount) = inr quiz ->
  acceptable raw questionCount.
Proof.
  intros Hraw H.
  apply QuizRouteProofs.generateQuizWithGroq_inr in H as (raw' & lg & Hraw' & Hv & _).
  assert (raw' = raw) as -> by congruence.
  apply QuizRouteProofs.validate_quiz_inr in Hv
    as (qs & opts & cas & exps & cas' & lg0 & Hq & Ho & Hc & He & Hloop & _ & _).
  apply QuizRouteProofs.array_of_length_Some in Hq as [Hq Hnq], Ho as [Ho Hno],
      Hc as [Hc Hnc], He as [He Hne].
  pose proof (QuizRouteProofs.strict_eq_num_length _ _ _ Hnq Hno) as Hlo.
  pose proof (QuizRouteProofs.strict_eq_num_length _ _ _ Hnq Hnc) as Hlc.
  pose proof (QuizRouteProofs.strict_eq_num_length _ _ _ Hnq Hne) as Hle.
  apply QuizRouteProofs.validate_from_inr in Hloop as [_ Hall].
  exists (length qs), qs, opts, cas, exps.
  repeat (split; [first [assumption | reflexivity | lia] |]). split.
  - intros i row Hi. pose proof (lookup_lt_Some _ _ _ Hi) as Hlt.
    destruct (Hall i) as [_ Hin]. destruct Hin as [(items & Hrow & Hfour) _]; [lia |].
    exists items. split; [congruence | exact Hfour].
  - intros i v Hi. pose proof (lookup_lt_Some _ _ _ Hi) as Hlt.
    destruct (Hall i) as [_ Hin]. destruct Hin as [_ (c & c' & Hc0 & _)]; [lia |].
    exists c. congruence.
Qed.

(** X6.  What [generateQuizWithGroq] accepts.  With a key set and a reply
    that parses, it returns exactly when the count is the number of
    entries of each of the four arrays, every row of options is an array
    of 4 and every answer index is a number; no numeric index, whatever
    its value, makes it throw.  What it returns has the topic, difficulty,
    questions, options and explanations of the reply: only the answer
    indices are rewritten. *)
Theorem generateQuizWithGroq_returns_iff_acceptable
    (env : Env) (topic_ : string) (difficulty_ questionCount : jsval) (raw : Quiz) :
  truthy_str (GROQ_API_KEY env) = true ->
  groq env topic_ difficulty_ questionCount = Parsed raw ->
  (acceptable raw questionCount <->
   exists quiz, value (generateQuizWithGroq env topic_ difficulty_ questionCount) = inr quiz)
  /\ (forall quiz,
        value (generateQuizWithGroq env topic_ difficulty_ questionCount) = inr quiz ->
        topic quiz = topic raw /\ difficulty quiz = difficulty raw
        /\ questions quiz = questions raw /\ options quiz = options raw
        /\ explanations quiz = explanations raw).
Proof.
  intros Hkey Hraw. split; [split |].
  - intros Ha. destruct (acceptable_returns _ _ _ _ _ Hkey Hraw Ha) as (cas' & H). eauto.
  - intros [quiz H]. exact (returns_acceptable _ _ _ _ _ _ Hraw H).
  - intros quiz H.
    pose proof (returns_acceptable _ _ _ _ _ _ Hraw H) as Ha.
    destruct (acceptable_returns _ _ _ _ _ Hkey Hraw Ha) as (cas' & H').
    rewrite H in H'. injection H' as ->. simpl. auto.
Qed.

Lemma generateQuizWithGroq_returns_iff_acceptable_witness :
  exists quiz,
    value (generateQuizWithGroq zero_based_env "Photosynthesis" (JStr "medium") (JNum 2))
    = inr quiz.
Proof.
  apply (proj1 (generateQuizWithGroq_returns_iff_acceptable zero_based_env
                  "Photosynthesis" (JStr "medium") (JNum 2) zero_based_reply
                  eq_refl eq_refl)).
  exists 2%nat, [JStr "q1"; JStr "q2"], [four; four], [JNum 0; JNum 0],
         [JStr "e1"; JStr "e2"].
  repeat (split; [reflexivity |]). split.
  - intros i row Hi. do 2 (destruct i as [| i]; [injection Hi as <-; eexists; split; reflexivity |]).
    discriminate Hi.
  - intros i v Hi. do 2 (destruct i as [| i]; [injection Hi as <-; eexists; reflexivity |]).
    discriminate Hi.
Defined.

Lemma generateQuizWithGroq_fetches_at_most_once env topic_ difficulty_ questionCount :
  (fetches (generateQuizWithGroq env topic_ difficulty_ questionCount) <= 1)%nat.
Proof.
  unfold generateQuizWithGroq. destruct (truthy_str (GROQ_API_KEY env)); [| simpl; lia].
  destruct (handle_reply _ _) as [[e | q] lg]; simpl; lia.
Qed.

(** X7.  The responses of [POST].  Whatever the request, the generator is
    asked at most once.  A response of status 200 carries the quiz that
    [generateQuizWithGroq] returned for the trimmed topic.  An error is of
    status 400, sent before the generator is asked and with one of the
    three messages of the validation, or of status 500 with one fixed
    message: what the generator or the validation of its reply reported is
    logged, and never sent to the client. *)
Theorem POST_responses
    (StringNumericValue : string -> Q) (CompositeToNumber : jsval -> option Q)
    (env : Env) (body : option Body) :
  let handled := POST StringNumericValue CompositeToNumber env body in
  (model_calls handled <= 1)%nat
  /\ (forall quiz, response handled = Json200 quiz ->
        exists b s, body = Some b /\ body_topic b = JStr s
                    /\ value (generateQuizWithGroq env (trim s) (body_difficulty b)
                                                   (body_questionCount b)) = inr quiz)
  /\ (forall status message, response handled = JsonError status message ->
        (status = 400%nat /\ model_calls handled = 0%nat /\ In message rejection_messages)
        \/ (status = 500%nat /\ message = generic_failure)).
Proof.
  intros handled. subst handled. unfold POST, failed.
  destruct body as [b |]; simpl.
  2: { split; [lia |]. split; [discriminate |]. intros s m H. injection H as <- <-. auto. }
  destruct (truthy (body_topic b)); simpl.
  2: { split; [lia |]. split; [discriminate |]. intros s m H. injection H as <- <-.
       left. simpl. auto. }
  destruct (body_topic b) as [| | tb | tq | s | |] eqn:Et; simpl;
    try (split; [lia |]; split; [discriminate |]; intros st m H; injection H as <- <-; auto).
  destruct (String.eqb (trim s) ""); simpl.
  { split; [lia |]. split; [discriminate |]. intros st m H. injection H as <- <-.
    left. simpl. auto. }
  destruct (negb _); simpl.
  { split; [lia |]. split; [discriminate |]. intros st m H. injection H as <- <-.
    left. simpl. auto. }
  destruct (_ || _); simpl.
  { split; [lia |]. split; [discriminate |]. intros st m H. injection H as <- <-.
    left. simpl. auto 6. }
  pose proof (generateQuizWithGroq_fetches_at_most_once env (trim s) (body_difficulty b)
                (body_questionCount b)) as Hf.
  destruct (value (generateQuizWithGroq env (trim s) (body_difficulty b)
                                        (body_questionCount b))) as [e | q] eqn:Ev; simpl.
  - split; [exact Hf |]. split; [discriminate |].
    intros st m H. injection H as <- <-. auto.
  - split; [exact Hf |]. split; [| discriminate].
    intros quiz H. injection H as <-. exists b, s. auto.
Qed.

End QuizRouteShapeFacts.

Module ChatStoreActionsFacts.
Import JS ChatStore ChatStoreActions.

(** *** Messages *)

Lemma isDuplicate_false_id (message : ChatMessage) (cs : ChatSession) :
  isDuplicate message cs = false -> ~ In (id message) (map id (messages cs)).
Proof.
  unfold isDuplicate. intros H Hin. apply in_map_iff in Hin as (msg & Hid & Hmsg).
  assert (existsb (duplicates message) (messages cs) = true) as Ht.
  { apply existsb_exists. exists msg. split; [exact Hmsg |].
    unfold duplicates. rewrite Hid, String.eqb_refl. reflexivity. }
  congruence.
Qed.

Lemma map_replace_length (f : ChatSession -> ChatSession) (l : list ChatSession) :
  length (map f l) = length l.
Proof. apply length_map. Qed.

(** One call: the current session keeps its id and title, and its
    messages are the old ones, with the message after them or not. *)
Lemma addMessage_step (message : ChatMessage) (st : ChatState) (cs : ChatSession) :
  currentSession st = Some cs ->
  NoDup (map id (messages cs)) ->
  exists cs',
    currentSession (fst (addMessage message st)) = Some cs'
    /\ session_id cs' = session_id cs /\ title cs' = title cs
    /\ NoDup (map id (messages cs'))
    /\ (exists added, messages cs' = messages cs ++ added /\ sublist added [message])
    /\ length (sessions (fst (addMessage message st))) = length (sessions st)
    /\ forall i s, sessions st !! i = Some s -> session_id s <> session_id cs ->
                   sessions (fst (addMessage message st)) !! i = Some s.
Proof.
  intros Hcs Hnd. unfold addMessage. rewrite Hcs.
  destruct (isDuplicate message cs) eqn:Hdup; simpl.
  - exists cs. repeat split; auto.
    exists []. rewrite app_nil_r. split; [reflexivity | apply sublist_nil_l].
  - eexists. split; [reflexivity |]. simpl. repeat split.
    + rewrite map_app. simpl. apply NoDup_app. repeat split.
      * exact Hnd.
      * intros x Hx Hin. apply list_elem_of_In in Hx.
        apply list_elem_of_singleton in Hin. subst x.
        exact (isDuplicate_false_id _ _ Hdup Hx).
      * apply NoDup_singleton.
    + exists [message]. split; [reflexivity | reflexivity].
    + apply length_map.
    + intros i s Hi Hne. rewrite list_lookup_fmap, Hi. simpl.
      destruct (String.eqb_spec (session_id s) (session_id cs)); [contradiction | reflexivity].
Qed.

(** X8.  Messages of a session keep distinct ids.  Whatever messages are
    passed to [addMessage], one call after the other, the current session
    keeps its id and title, the messages it had stay where they were,
    those added come after them in the order of the calls, and if the ids
    of its messages were distinct they still are: a message with an id
    the session already has is never stored twice.  The sessions of the
    store with another id are left as they were. *)
Theorem addMessage_keeps_ids_distinct (ms : list ChatMessage) (st : ChatState)
    (cs : ChatSession) :
  currentSession st = Some cs ->
  NoDup (map id (messages cs)) ->
  exists cs',
    currentSession (addMessages ms st) = Some cs'
    /\ session_id cs' = session_id cs /\ title cs' = title cs
    /\ NoDup (map id (messages cs'))
    /\ (exists added, messages cs' = messages cs ++ added /\ sublist added ms)
    /\ length (sessions (addMessages ms st)) = length (sessions st)
    /\ forall i s, sessions st !! i = Some s -> session_id s <> session_id cs ->
                   sessions (addMessages ms st) !! i = Some s.
Proof.
  revert st cs. induction ms as [| m ms IH]; intros st cs Hcs Hnd.
  - exists cs. simpl. repeat split; auto.
    exists []. rewrite app_nil_r. split; [reflexivity | apply sublist_nil_l].
  - destruct (addMessage_step m st cs Hcs Hnd)
      as (cs1 & Hcs1 & Hid1 & Ht1 & Hnd1 & (a1 & Ha1 & Hs1) & Hl1 & Ho1).
    destruct (IH (fst (addMessage m st)) cs1 Hcs1 Hnd1)
      as (cs2 & Hcs2 & Hid2 & Ht2 & Hnd2 & (a2 & Ha2 & Hs2) & Hl2 & Ho2).
    exists cs2. unfold addMessages in *. simpl. repeat split.
    + exact Hcs2.
    + congruence.
    + congruence.
    + exact Hnd2.
    + exists (a1 ++ a2). split.
      * rewrite Ha2, Ha1, app_assoc. reflexivity.
      * change (m :: ms) with ([m] ++ ms). apply sublist_app; assumption.
    + congruence.
    + intros i s Hi Hne. apply Ho2; [apply Ho1; assumption | congruence].
Qed.

Lemma addMessage_keeps_ids_distinct_witness :
  exists cs',
    currentSession (addMessages [hello_again; hello] one_message_store) = Some cs'
    /\ messages cs' = [hello].
Proof.
  destruct (addMessage_keeps_ids_distinct [hello_again; hello] one_message_store
              one_message_session eq_refl) as (cs' & Hcs' & _).
  - simpl. apply NoDup_singleton.
  - exists cs'. split; [exact Hcs' |].
    vm_compute in Hcs'. injection Hcs' as <-. reflexivity.
Defined.

(** *** The two explanation side bars *)

Lemma click_exclusive (c : Click) (st : ChatState) :
  isVoiceSidebarOpen st && isImageSidebarOpen st = false ->
  isVoiceSidebarOpen (click c st) && isImageSidebarOpen (click c st) = false.
Proof.
  destruct c; unfold click, handleClose, toggleVoiceSidebar, toggleImageSidebar;
    destruct (isVoiceSidebarOpen st) eqn:Ev, (isImageSidebarOpen st) eqn:Ei; simpl;
    rewrite ?Ev, ?Ei; simpl; intros; congruence.
Qed.

Lemma clicks_exclusive (cs : list Click) : forall st : ChatState,
  isVoiceSidebarOpen st && isImageSidebarOpen st = false ->
  isVoiceSidebarOpen (clicks cs st) && isImageSidebarOpen (clicks cs st) = false.
Proof.
  induction cs as [| c cs IH]; intros st H; [exact H |].
  apply (IH (click c st)). apply click_exclusive. exact H.
Qed.

Lemma clicks_app (cs1 cs2 : list Click) (st : ChatState) :
  clicks (cs1 ++ cs2) st = clicks cs2 (clicks cs1 st).
Proof. unfold clicks. apply fold_left_app. Qed.

Lemma click_frame (c : Click) (st : ChatState) :
  currentSession (click c st) = currentSession st
  /\ sessions (click c st) = sessions st
  /\ language (click c st) = language st
  /\ isSidebarMinimized (click c st) = isSidebarMinimized st
  /\ currentPlayingAudio (click c st) = currentPlayingAudio st
  /\ isCreatingSession (click c st) = isCreatingSession st.
Proof.
  destruct c; unfold click, handleClose, toggleVoiceSidebar, toggleImageSidebar;
    destruct (isVoiceSidebarOpen st), (isImageSidebarOpen st); simpl; auto 10.
Qed.

(** X9.  At most one explanation side bar is open.  From a store in which
    the voice and the image side bar are not both open (the store starts
    with both closed), no sequence of clicks on the voice, image and close
    buttons opens both.  After a click on the voice button the voice side
    bar is open exactly when it was closed before, after a click on the
    image button likewise for the image side bar, and after a click on
    the close button both are closed.  The clicks change nothing else of
    the store. *)
Theorem at_most_one_sidebar_is_open (cs : list Click) (c : Click) (st : ChatState) :
  isVoiceSidebarOpen st && isImageSidebarOpen st = false ->
  let before := clicks cs st in
  let after := clicks (cs ++ [c]) st in
  isVoiceSidebarOpen after && isImageSidebarOpen after = false
  /\ match c with
     | VoiceButton => isVoiceSidebarOpen after = negb (isVoiceSidebarOpen before)
                      /\ isImageSidebarOpen after = false
     | ImageButton => isImageSidebarOpen after = negb (isImageSidebarOpen before)
                      /\ isVoiceSidebarOpen after = false
     | CloseButton => isVoiceSidebarOpen after = false /\ isImageSidebarOpen after = false
     end
  /\ currentSession after = currentSession before
  /\ sessions after = sessions before
  /\ isSidebarMinimized after = isSidebarMinimized before.
Proof.
  intros H before after. subst before after. rewrite clicks_app.
  pose proof (clicks_exclusive cs st H) as Hb.
  change (clicks [c] (clicks cs st)) with (click c (clicks cs st)).
  split; [apply click_exclusive; exact Hb |].
  split.
  - destruct c; unfold click, handleClose, toggleVoiceSidebar, toggleImageSidebar;
      destruct (isVoiceSidebarOpen (clicks cs st)) eqn:Ev,
               (isImageSidebarOpen (clicks cs st)) eqn:Ei;
      simpl in *; rewrite ?Ev, ?Ei; simpl; auto; discriminate.
  - destruct (click_frame c (clicks cs st)) as (H1 & H2 & _ & H4 & _). auto.
Qed.

Lemma at_most_one_sidebar_is_open_witness :
  isVoiceSidebarOpen (clicks [VoiceButton; ImageButton; CloseButton] fresh_store) = false
  /\ isImageSidebarOpen (clicks [VoiceButton; ImageButton; CloseButton] fresh_store) = false.
Proof.
  destruct (at_most_one_sidebar_is_open [VoiceButton; ImageButton] CloseButton fresh_store
              eq_refl) as (_ & H & _).
  exact H.
Defined.

(** *** The width of the list of chats *)

Lemma toggleSidebar_agrees (st : ChatState) (ls : Storage) :
  isSidebarMinimized (initial_store true (snd (toggleSidebar true st ls)))
  = isSidebarMinimized (fst (toggleSidebar true st ls)).
Proof.
  unfold toggleSidebar, initial_store. cbn [fst snd isSidebarMinimized set_minimized].
  unfold Storage in *. rewrite lookup_insert_eq.
  destruct (isSidebarMinimized st); reflexivity.
Qed.

Lemma toggles_S (n : nat) (st : ChatState) (ls : Storage) :
  toggles (S n) st ls
  = toggleSidebar true (fst (toggles n st ls)) (snd (toggles n st ls)).
Proof.
  revert st ls. induction n as [| n IH]; intros st ls.
  - reflexivity.
  - change (toggles (S (S n)) st ls)
      with (toggles (S n) (fst (toggleSidebar true st ls)) (snd (toggleSidebar true st ls))).
    rewrite IH. reflexivity.
Qed.

(** X10.  The width chosen for the list of chats survives a reload.  In a
    browser, after any number of calls of [toggleSidebar] on a store
    created from the local storage, a store created anew from the local
    storage as the calls left it starts with the flag [isSidebarMinimized]
    of the store that was toggled; that flag is the initial one after an
    even number of calls, and its negation after an odd number. *)
Theorem sidebar_width_survives_reload (n : nat) (ls : Storage) :
  let start := initial_store true ls in
  let st' := fst (toggles n start ls) in
  let ls' := snd (toggles n start ls) in
  isSidebarMinimized (initial_store true ls') = isSidebarMinimized st'
  /\ isSidebarMinimized st'
     = (if Nat.even n then isSidebarMinimized start else negb (isSidebarMinimized start)).
Proof.
  cbv zeta. induction n as [| n [IH1 IH2]].
  - split; reflexivity.
  - rewrite toggles_S. split; [apply toggleSidebar_agrees |].
    unfold toggleSidebar at 1. cbn [fst isSidebarMinimized set_minimized].
    rewrite IH2. rewrite Nat.even_succ, <- Nat.negb_even.
    destruct (Nat.even n); simpl; [reflexivity | apply negb_involutive].
Qed.

(** *** Sessions *)

(** X11.  At most one creation of a session is in flight.  A call of
    [createNewSession] on a store that is not creating a session puts a
    new session, titled New Chat and without messages, at the head of the
    sessions and makes it the current one; with a non-empty id it starts
    one request and raises the flag [isCreatingSession].  While the flag
    is raised a further call changes nothing and starts no request.  When
    the request settles, in whatever way and whatever the store has become,
    the flag is lowered and the number of sessions is unchanged; if the
    back end answered with an id and the new session is still the current
    one, the current session and its entry in the list both carry the id
    of the back end. *)
Theorem one_session_creation_in_flight (uuid : string) (now : Z) (st : ChatState) :
  isCreatingSession st = false -> uuid <> "" ->
  let st1 := fst (createNewSession uuid now st) in
  let newSession := mkSession uuid "New Chat" [] (Some now) in
  snd (createNewSession uuid now st) = true
  /\ currentSession st1 = Some newSession
  /\ sessions st1 = newSession :: sessions st
  /\ isCreatingSession st1 = true
  /\ (forall uuid' now', createNewSession uuid' now' st1 = (st1, false))
  /\ (forall response later,
        isCreatingSession (createSessionInDB uuid response later) = false
        /\ length (sessions (createSessionInDB uuid response later))
           = length (sessions later))
  /\ (forall backend_id, backend_id <> "" ->
        let st2 := createSessionInDB uuid (Fulfilled (Some backend_id)) st1 in
        currentSession st2 = Some (with_id backend_id newSession)
        /\ sessions st2 !! 0%nat = Some (with_id backend_id newSession)).
Proof.
  intros Hflag Huuid. cbv zeta. unfold createNewSession. rewrite Hflag.
  destruct (String.eqb_spec uuid "") as [-> | _]; [contradiction |]. simpl.
  repeat split.
  - unfold createSessionInDB. destruct response as [| sid]; [reflexivity |].
    destruct (truthy_str sid); unfold set_creating, set_sessions; simpl;
      [rewrite length_map |]; reflexivity.
  - unfold createSessionInDB. simpl.
    destruct (String.eqb_spec backend_id "") as [-> | _]; [contradiction | reflexivity].
  - unfold createSessionInDB. simpl.
    destruct (String.eqb_spec backend_id "") as [-> | _]; [contradiction |]. simpl.
    rewrite String.eqb_refl. reflexivity.
Qed.

Lemma one_session_creation_in_flight_witness :
  createNewSession "u2" 1700000000500%Z
    (fst (createNewSession "u1" 1700000000000%Z fresh_store))
  = (fst (createNewSession "u1" 1700000000000%Z fresh_store), false).
Proof.
  destruct (one_session_creation_in_flight "u1" 1700000000000%Z fresh_store eq_refl)
    as (_ & _ & _ & _ & H & _).
  - discriminate.
  - apply H.
Defined.

Lemma filter_sublist (f : ChatSession -> bool) (l : list ChatSession) :
  sublist (List.filter f l) l.
Proof.
  induction l as [| x l IH]; simpl; [constructor |].
  destruct (f x); [apply sublist_skip | apply sublist_cons]; exact IH.
Qed.

(** X12.  Deleting a chat.  When the back end has deleted the chat,
    [deleteSession] leaves in the store the sessions with another id, in
    the order they were in, and no session with that id; the current
    session is kept unless it is the deleted one, in which case there is
    none; nothing is thrown.  Deleting the same chat once more changes
    nothing.  When the back end fails, the store is left as it was and
    the error is thrown again. *)
Theorem deleteSession_removes_that_session (sessionId : string) (st : ChatState) :
  let st' := fst (deleteSession sessionId (Fulfilled tt) st) in
  snd (deleteSession sessionId (Fulfilled tt) st) = false
  /\ (forall s, In s (sessions st') <-> In s (sessions st) /\ session_id s <> sessionId)
  /\ sublist (sessions st') (sessions st)
  /\ (forall cs, currentSession st' = Some cs
                 <-> currentSession st = Some cs /\ session_id cs <> sessionId)
  /\ fst (deleteSession sessionId (Fulfilled tt) st') = st'
  /\ deleteSession sessionId Rejected st = (st, true).
Proof.
  cbv zeta. simpl. repeat split.
  - apply filter_In in H. tauto.
  - apply filter_In in H as [_ H]. intros E. rewrite E, String.eqb_refl in H. discriminate.
  - intros [Hin Hne]. apply filter_In. split; [exact Hin |].
    destruct (String.eqb_spec (session_id s) sessionId); [contradiction | reflexivity].
  - apply filter_sublist.
  - destruct (currentSession st) as [c |]; [| discriminate].
    destruct (String.eqb_spec (session_id c) sessionId); [discriminate | assumption].
  - destruct (currentSession st) as [c |]; [| discriminate].
    destruct (String.eqb_spec (session_id c) sessionId); [discriminate |].
    injection H as <-. assumption.
  - intros [-> Hne].
    destruct (String.eqb_spec (session_id cs) sessionId); [contradiction | reflexivity].
  - unfold set_sessions. simpl. f_equal.
    + destruct (currentSession st) as [c |]; [| reflexivity].
      destruct (String.eqb_spec (session_id c) sessionId) as [| Hne]; [reflexivity |].
      destruct (String.eqb_spec (session_id c) sessionId); [contradiction | reflexivity].
    + induction (sessions st) as [| x l IH]; [reflexivity |]. simpl.
      destruct (negb (session_id x =? sessionId)) eqn:E; simpl; rewrite ?E, IH; reflexivity.
Qed.

(** *** The title of a new chat *)

Lemma length_substring_le (n m : nat) (s : string) :
  (String.length (substring n m s) <= m)%nat.
Proof.
  revert n m. induction s as [| c s IH]; intros n m.
  - destruct n, m; simpl; lia.
  - destruct n as [| n]; [destruct m as [| m] |]; simpl.
    + lia.
    + specialize (IH 0%nat m). lia.
    + apply IH.
Qed.

(** X13.  The title set for a new chat.  The request [sendToBackend] makes to
    set the title names the session the message was added to, and a title
    of at most 53 characters: the content of the message when that has at
    most 50, else its first 50 followed by three dots.  It is made only
    for a session titled New Chat that held exactly one message before
    this one was added: for the first message of a session no title is
    asked for, whatever the back end answers. *)
Theorem title_request_of_a_new_chat (message : ChatMessage) (st st' : ChatState)
    (cs : ChatSession) (job : BackendJob) (response : option TextResponse) :
  currentSession st = Some cs ->
  addMessage message st = (st', Some job) ->
  (messages cs = [] -> titleRequest job response = None)
  /\ (forall sid t, titleRequest job response = Some (sid, t) ->
        sid = session_id cs /\ title cs = "New Chat" /\ length (messages cs) = 1%nat
        /\ (String.length t <= 53)%nat
        /\ ((String.length (content message) <= 50)%nat -> t = content message)
        /\ ((50 < String.length (content message))%nat ->
            t = substring 0 50 (content message) +:+ "...")).
Proof.
  intros Hcs Hadd. unfold addMessage in Hadd. rewrite Hcs in Hadd.
  destruct (isDuplicate message cs); [discriminate |].
  injection Hadd as _ Hjob.
  destruct (_ && _) in Hjob; [| discriminate]. injection Hjob as <-.
  unfold titleRequest. simpl. split.
  - intros ->. destruct response as [r |]; [| reflexivity].
    destruct (truthy_str (text_query_id r)); [| reflexivity].
    rewrite andb_false_r. reflexivity.
  - intros sid t H. destruct response as [r |]; [| discriminate].
    destruct (truthy_str (text_query_id r)); [| discriminate].
    destruct (String.eqb_spec (title cs) "New Chat") as [Ht |]; [| discriminate].
    destruct (Nat.eqb_spec (length (messages cs)) 1) as [Hl |]; [| discriminate].
    simpl in H. injection H as <- <-. repeat split; try assumption.
    + destruct (Nat.ltb_spec 50 (String.length (content message))).
      * rewrite StringFacts.length_append. pose proof (length_substring_le 0 50 (content message)).
        simpl. lia.
      * lia.
    + intros Hle. destruct (Nat.ltb_spec 50 (String.length (content message))); [lia | reflexivity].
    + intros Hlt. destruct (Nat.ltb_spec 50 (String.length (content message))); [reflexivity | lia].
Qed.

Lemma title_request_of_a_new_chat_witness :
  titleRequest
    (mkJob hello (mkSession "u1" "New Chat" [] (Some 1700000000000%Z)))
    (Some (mkText (Some "q-1") (Some "NEUTRAL") None))
  = None.
Proof.
  apply (proj1 (title_request_of_a_new_chat hello
                  (fst (createNewSession "u1" 1700000000000%Z fresh_store))
                  (fst (addMessage hello (fst (createNewSession "u1" 1700000000000%Z fresh_store))))
                  (mkSession "u1" "New Chat" [] (Some 1700000000000%Z))
                  (mkJob hello (mkSession "u1" "New Chat" [] (Some 1700000000000%Z)))
                  (Some (mkText (Some "q-1") (Some "NEUTRAL") None))
                  eq_refl eq_refl)).
  reflexivity.
Defined.

(** *** The answer to a question *)

(** X21.  The answer goes to the chat that is open when it arrives.  The
    requests [sendToBackend] makes for a message name the session the
    message was added to.  The answer is added by [addMessage] to the
    current session of the store as it is when the answer arrives: when
    the learner has moved to another session meanwhile, the answer is
    appended to that one, and the entries of the session the question was
    asked in are left without it. *)
Theorem answer_goes_to_the_session_open_on_arrival
    (message : ChatMessage) (st st' : ChatState) (cs : ChatSession) (job : BackendJob)
    (response : TextResponse) (language1 language2 : string)
    (r : AskResponse) (now : Z) (uuid : string) (m : ChatMessage)
    (later : ChatState) (other : ChatSession) :
  currentSession st = Some cs ->
  addMessage message st = (st', Some job) ->
  truthy_str (text_query_id response) = true ->
  assistantMessage r now uuid = Some m ->
  currentSession later = Some other ->
  isDuplicate m other = false ->
  sendTextMessage_call job language1
  = SendTextMessage (content message) (session_id cs) language1
  /\ (exists label score_,
        askQuestion_call job (Some response) language2
        = Some (AskQuestion (content message) (session_id cs) (session_id cs)
                            label score_ "text" language2))
  /\ currentSession (receive_answer r now uuid later)
     = Some (mkSession (session_id other) (title other) (messages other ++ [m])
                       (createdAt other))
  /\ (session_id other <> session_id cs ->
      forall i s, sessions later !! i = Some s -> session_id s = session_id cs ->
                  sessions (receive_answer r now uuid later) !! i = Some s).
Proof.
  intros Hcs Hadd Hq Hm Hother Hdup.
  unfold addMessage in Hadd. rewrite Hcs in Hadd.
  destruct (isDuplicate message cs); [discriminate |].
  injection Hadd as _ Hjob.
  destruct (_ && _) in Hjob; [| discriminate]. injection Hjob as <-.
  split; [reflexivity |]. split.
  - unfold askQuestion_call. rewrite Hq. simpl. eauto.
  - unfold receive_answer. rewrite Hm. unfold addMessage. rewrite Hother, Hdup.
    split; [reflexivity |]. simpl.
    intros Hne i s Hi Hs. rewrite list_lookup_fmap, Hi. simpl.
    destruct (String.eqb_spec (session_id s) (session_id other)); [congruence | reflexivity].
Qed.

Lemma answer_goes_to_the_session_open_on_arrival_witness :
  exists m,
    assistantMessage negative_answer 1700000012000%Z "u7" = Some m
    /\ option_map messages (currentSession
                              (receive_answer negative_answer 1700000012000%Z "u7"
                                              moved_store))
       = Some [m]
    /\ sessions (receive_answer negative_answer 1700000012000%Z "u7" moved_store)
       !! 0%nat = Some one_message_session.
Proof.
  destruct (assistantMessage negative_answer 1700000012000%Z "u7") as [m |] eqn:Em;
    [| discriminate Em].
  exists m. split; [reflexivity |].
  destruct (answer_goes_to_the_session_open_on_arrival second_question one_message_store
              (fst (addMessage second_question one_message_store))
              one_message_session (mkJob second_question one_message_session)
              (mkText (Some "q-18") (Some "NEGATIVE") (Some (-(1 # 2))%Q)) "en" "en"
              negative_answer 1700000012000%Z "u7" m moved_store
              (mkSession "s2" "Older" [] (Some 1600000000000%Z))
              eq_refl eq_refl eq_refl Em eq_refl)
    as (_ & _ & Hcur & Hold).
  - injection Em as <-. reflexivity.
  - split.
    + rewrite Hcur. reflexivity.
    + apply Hold; [discriminate | reflexivity | reflexivity].
Defined.

End ChatStoreActionsFacts.

(** ** The text of an answer *)

Module CleanMarkdownFacts.
Import JS ChatStore MessageView StringFacts.

Lemma no_triple_weaken (s : string) : forall r r' : nat,
  (r' <= r)%nat -> no_triple r s = true -> no_triple r' s = true.
Proof.
  induction s as [| c s IH]; intros r r' Hle; simpl; [reflexivity |].
  destruct (Ascii.eqb c newline); [| auto].
  intros H. apply andb_true_iff in H as [H1 H2].
  apply Nat.ltb_lt in H1. apply andb_true_iff. split.
  - apply Nat.ltb_lt. lia.
  - apply (IH (S r)); [lia | exact H2].
Qed.

Lemma no_triple_tail (c : ascii) (s : string) (r : nat) :
  no_triple r (String c s) = true -> no_triple 0 s = true.
Proof.
  simpl. destruct (Ascii.eqb c newline); [| auto].
  intros H. apply andb_true_iff in H as [_ H].
  apply (no_triple_weaken s (S r)); [lia | exact H].
Qed.

Lemma no_triple_suffix (a s : string) : forall r : nat,
  no_triple r (a +:+ s) = true -> no_triple 0 s = true.
Proof.
  induction a as [| c a IH]; intros r; sapp.
  - apply no_triple_weaken. lia.
  - intros H. apply no_triple_tail in H. exact (IH 0%nat H).
Qed.

Lemma no_triple_prefix (s b : string) : forall r : nat,
  no_triple r (s +:+ b) = true -> no_triple r s = true.
Proof.
  induction s as [| c s IH]; intros r; sapp; simpl; [reflexivity |].
  destruct (Ascii.eqb c newline).
  - intros H. apply andb_true_iff in H as [H1 H2]. rewrite H1. exact (IH _ H2).
  - apply IH.
Qed.

Lemma no_triple_three (b : string) (r : nat) : no_triple r (three_newlines +:+ b) = false.
Proof.
  unfold three_newlines. sapp. simpl.
  destruct r as [| [| r]]; reflexivity.
Qed.

(** What [no_triple] says, in words. *)
Lemma no_triple_spec (s : string) :
  no_triple 0 s = true -> forall a b, s <> a +:+ three_newlines +:+ b.
Proof.
  intros H a b E. rewrite E in H. apply no_triple_suffix in H.
  rewrite no_triple_three in H. discriminate.
Qed.

Lemma collapse_no_triple (s : string) : forall run : nat,
  no_triple (Nat.min run 2) (collapse_newlines run s) = true.
Proof.
  induction s as [| c s IH]; intros run; simpl; [reflexivity |].
  destruct (Ascii.eqb c newline) eqn:Ec.
  - destruct (Nat.ltb_spec run 2) as [Hlt | Hge].
    + simpl. rewrite Ec. apply andb_true_iff. split.
      * apply Nat.ltb_lt. lia.
      * specialize (IH (S run)).
        replace (Nat.min (S run) 2) with (S (Nat.min run 2)) in IH by lia. exact IH.
    + specialize (IH (S run)).
      replace (Nat.min (S run) 2) with (Nat.min run 2) in IH by lia. exact IH.
  - simpl. rewrite Ec. exact (IH 0%nat).
Qed.

Lemma collapse_fixed (s : string) : forall run : nat,
  no_triple run s = true -> collapse_newlines run s = s.
Proof.
  induction s as [| c s IH]; intros run; simpl; [reflexivity |].
  destruct (Ascii.eqb c newline).
  - intros H. apply andb_true_iff in H as [H1 H2]. rewrite H1, (IH _ H2). reflexivity.
  - intros H. rewrite (IH _ H). reflexivity.
Qed.

Lemma trim_no_triple (s : string) : no_triple 0 s = true -> no_triple 0 (trim s) = true.
Proof.
  intros H. destruct (trim_inside s) as (a & b & E). rewrite E in H.
  apply no_triple_suffix in H. exact (no_triple_prefix _ _ _ H).
Qed.

Lemma cleanMarkdown_no_triple (text : string) : no_triple 0 (cleanMarkdown text) = true.
Proof.
  unfold cleanMarkdown. destruct (String.eqb text ""); [reflexivity |].
  apply trim_no_triple. exact (collapse_no_triple text 0).
Qed.

(** X14.  The text kept of an answer.  Whatever the text, [cleanMarkdown]
    gives a text with no three line feeds in a row, that neither starts
    nor ends with white space, and that [cleanMarkdown] leaves as it is;
    so the main, simplified and detailed responses a message of the
    assistant is stored with are in that form. *)
Theorem cleanMarkdown_normal_form (text : string) :
  let cleaned := cleanMarkdown text in
  (forall a b, cleaned <> a +:+ three_newlines +:+ b)
  /\ (forall c rest, cleaned = String c rest -> is_ws c = false)
  /\ (forall a c, cleaned = a +:+ String c "" -> is_ws c = false)
  /\ cleanMarkdown cleaned = cleaned.
Proof.
  cbv zeta. split; [| split; [| split]].
  - apply no_triple_spec, cleanMarkdown_no_triple.
  - unfold cleanMarkdown. destruct (String.eqb text ""); [discriminate |].
    intros c rest. apply trim_head.
  - unfold cleanMarkdown. destruct (String.eqb text "").
    + intros a c H. destruct a; discriminate.
    + intros a c. apply trim_last.
  - pose proof (cleanMarkdown_no_triple text) as H.
    unfold cleanMarkdown at 1.
    destruct (String.eqb_spec (cleanMarkdown text) "") as [E | _]; [congruence |].
    rewrite (collapse_fixed _ _ H).
    unfold cleanMarkdown. destruct (String.eqb text ""); [reflexivity |].
    apply trim_idempotent.
Qed.

End CleanMarkdownFacts.

Module MessageViewFacts.
Import JS ChatStore MessageView.

Lemma showDetailed_needs_the_toggle (n : nat) (message : ChatMessage) :
  showDetailed_after n message = true -> toggle_rendered message = true.
Proof.
  induction n as [| n IH]; simpl; [discriminate |].
  unfold clickToggle. destruct (toggle_rendered message); [reflexivity | exact IH].
Qed.

Lemma default_or_else_empty (o : option string) :
  default "" (or_else o (Some "")) = default "" o.
Proof.
  unfold or_else. destruct o as [s |]; simpl; [| reflexivity].
  destruct (String.eqb_spec s ""); simpl; congruence.
Qed.

(** X15.  What is copied is what is shown.  For a message with a main or a
    simplified response, after any number of clicks on the toggle of the
    detailed view, the text [handleCopy] writes to the clipboard is the
    text the view renders (before it tidies the markdown): the detailed
    response when the view shows it, else the first of the main and the
    simplified response. *)
Theorem copied_text_is_the_text_shown (n : nat) (message : ChatMessage) :
  truthy_str (or_else (main_response message) (simplified_response message)) = true ->
  textToCopy message (showDetailed_after n message)
  = contentToRender message (showDetailed_after n message).
Proof.
  intros Hmain.
  pose proof (showDetailed_needs_the_toggle n message) as Hshow.
  unfold textToCopy, contentToRender. fold (toggle_rendered message).
  destruct (showDetailed_after n message).
  - rewrite (Hshow eq_refl).
    assert (truthy_str (detailed_response message) = true) as Hd.
    { specialize (Hshow eq_refl). unfold toggle_rendered, hasDetailedResponse in Hshow.
      destruct (truthy_str (detailed_response message)); [reflexivity |].
      destruct (MessageType_eqb (type message) assistant); simpl in Hshow; discriminate. }
    rewrite Hd. simpl. rewrite (ChatStoreProofs.or_else_truthy _ _ Hd). reflexivity.
  - simpl. destruct (toggle_rendered message).
    + rewrite !(ChatStoreProofs.or_else_truthy _ _ Hmain). reflexivity.
    + rewrite default_or_else_empty. reflexivity.
Qed.

Lemma copied_text_is_the_text_shown_witness :
  textToCopy VoiceSidebar.answered (showDetailed_after 3 VoiceSidebar.answered) = "One. Two."
  /\ contentToRender VoiceSidebar.answered (showDetailed_after 3 VoiceSidebar.answered)
     = "One. Two.".
Proof.
  split; [reflexivity |].
  rewrite <- (copied_text_is_the_text_shown 3 VoiceSidebar.answered eq_refl).
  reflexivity.
Defined.

End MessageViewFacts.

Module VoicePlaybackFacts.
Import JS JSNumber JSDouble ChatStore VoiceSidebar VoicePlayback StringFacts.

(** *** The sentences *)

Lemma split_dot_not_nil (s : string) : split_dot s <> [].
Proof.
  induction s as [| c s IH]; simpl; [discriminate |].
  destruct (split_dot s) as [| h t]; [discriminate |].
  destruct (Ascii.eqb c "."); discriminate.
Qed.

Lemma split_dot_without (s : string) :
  forall p, In p (split_dot s) -> without "." p = true.
Proof.
  induction s as [| c s IH]; simpl.
  - intros p [<- | []]. reflexivity.
  - destruct (split_dot s) as [| h t] eqn:E.
    + exfalso. exact (split_dot_not_nil s E).
    + destruct (Ascii.eqb c ".") eqn:Ec.
      * intros p [<- | Hp]; [reflexivity | exact (IH p Hp)].
      * intros p [<- | Hp].
        -- simpl. rewrite Ec. simpl. apply IH. left. reflexivity.
        -- apply IH. right. exact Hp.
Qed.

(** The first piece starts the string. *)
Lemma split_dot_head (s : string) (h : string) (t : list string) :
  split_dot s = h :: t -> exists b, s = h +:+ b.
Proof.
  revert h t. induction s as [| c s IH]; simpl; intros h t.
  - intros H. injection H as <- <-. exists "". reflexivity.
  - destruct (split_dot s) as [| h' t'] eqn:E.
    + exfalso. exact (split_dot_not_nil s E).
    + destruct (IH h' t' eq_refl) as [b Hb].
      destruct (Ascii.eqb c "."); intros H; injection H as <- <-.
      * exists (String c s). reflexivity.
      * exists b. sapp. rewrite <- Hb. reflexivity.
Qed.

Lemma split_dot_inside (s : string) :
  forall p, In p (split_dot s) -> exists a b, s = a +:+ p +:+ b.
Proof.
  induction s as [| c s IH]; simpl.
  - intros p [<- | []]. exists "", "". reflexivity.
  - destruct (split_dot s) as [| h t] eqn:E.
    + exfalso. exact (split_dot_not_nil s E).
    + assert (forall p, In p (h :: t) -> exists a b, String c s = a +:+ p +:+ b) as Hin.
      { intros p Hp. destruct (IH p Hp) as (a & b & Hs).
        exists (String c a), b. sapp. rewrite <- Hs. reflexivity. }
      destruct (Ascii.eqb c ".").
      * intros p [<- | Hp]; [| exact (Hin p Hp)].
        exists "", (String c s). reflexivity.
      * intros p [<- | Hp]; [| apply Hin; right; exact Hp].
        destruct (split_dot_head s h t E) as [b Hb].
        exists "", b. sapp. rewrite <- Hb. reflexivity.
Qed.

Lemma without_app (c : ascii) (a b : string) :
  without c (a +:+ b) = without c a && without c b.
Proof.
  induction a as [| d a IH]; sapp; simpl; [reflexivity |].
  rewrite IH, andb_assoc. reflexivity.
Qed.

Lemma trim_without (c : ascii) (s : string) :
  without c s = true -> without c (trim s) = true.
Proof.
  intros H. destruct (trim_inside s) as (a & b & E). rewrite E in H.
  rewrite !without_app in H.
  apply andb_true_iff in H as [_ H]. apply andb_true_iff in H as [H _]. exact H.
Qed.

Lemma inside_trans (s p q : string) :
  (exists a b, s = a +:+ p +:+ b) -> (exists a b, p = a +:+ q +:+ b) ->
  exists a b, s = a +:+ q +:+ b.
Proof.
  intros (a & b & ->) (a' & b' & ->).
  exists (a +:+ a'), (b' +:+ b). rewrite !append_assoc. reflexivity.
Qed.

(** X16.  The sentences shown with the audio.  Every sentence of
    [sentences_of] is a piece of the text between two dots (or an end of
    the text), without the white space around it, followed by a dot: it
    has no other dot, is not blank, and lies inside the text. *)
Theorem sentences_are_pieces_of_the_text (textToVoice sentence : string) :
  In sentence (sentences_of textToVoice) ->
  exists body,
    sentence = body +:+ "."
    /\ body <> ""
    /\ trim body = body
    /\ without "." body = true
    /\ exists a b, textToVoice = a +:+ body +:+ b.
Proof.
  unfold sentences_of. intros H.
  apply in_map_iff in H as (piece & <- & H).
  apply filter_In in H as [Hin Hlen].
  exists (trim piece). split; [reflexivity |]. split; [| split; [| split]].
  - intros E. rewrite E in Hlen. discriminate.
  - apply trim_idempotent.
  - apply trim_without. exact (split_dot_without _ _ Hin).
  - apply (inside_trans _ piece); [exact (split_dot_inside _ _ Hin) | apply trim_inside].
Qed.

Lemma sentences_are_pieces_of_the_text_witness :
  exists body, "Two." = body +:+ "." /\ body <> "".
Proof.
  destruct (sentences_are_pieces_of_the_text "One. Two." "Two.") as (body & H1 & H2 & _).
  - simpl. right. left. reflexivity.
  - exists body. split; assumption.
Defined.

(** *** The line being read *)

Lemma find_index_first {A : Type} (p : A -> bool) (l : list A) :
  forall (i : nat) (x : A),
    l !! i = Some x -> p x = true ->
    (forall j y, (j < i)%nat -> l !! j = Some y -> p y = false) ->
    find_index p l = Some i.
Proof.
  induction l as [| z l IH]; intros i x Hi Hp Hbefore; [discriminate |].
  simpl. destruct i as [| i].
  - injection Hi as ->. rewrite Hp. reflexivity.
  - rewrite (Hbefore 0%nat z); [| lia | reflexivity].
    rewrite (IH i x Hi Hp); [reflexivity |].
    intros j y Hj Hy. apply (Hbefore (S j) y); [lia | exact Hy].
Qed.

Lemma find_index_none {A : Type} (p : A -> bool) (l : list A) :
  (forall x, In x l -> p x = false) -> find_index p l = None.
Proof.
  induction l as [| z l IH]; intros H; [reflexivity |].
  simpl. rewrite (H z) by (left; reflexivity).
  rewrite IH; [reflexivity |]. intros x Hx. apply H. right. exact Hx.
Qed.

Lemma holds_iff (time : Q) (timing : Timing) :
  holds time timing = true <-> (t_start timing <= time /\ time < t_end timing)%Q.
Proof.
  unfold holds. rewrite andb_true_iff, Qle_bool_iff, QuizRouteProofs.Qlt_bool_iff.
  reflexivity.
Qed.

Lemma holds_false_after (time : Q) (timing : Timing) :
  (t_end timing <= time)%Q -> holds time timing = false.
Proof.
  intros H. destruct (holds time timing) eqn:E; [| reflexivity].
  apply holds_iff in E. lra.
Qed.

(** The entries of the estimate start one after the other. *)
Lemma estimate_timings_sorted (sentences : list string) :
  forall (startTime : Q) (i j : nat) (a b : Timing),
    is_double startTime -> (0 <= startTime)%Q ->
    (i < j)%nat ->
    estimate_timings startTime sentences !! i = Some a ->
    estimate_timings startTime sentences !! j = Some b ->
    (t_end a <= t_start b)%Q.
Proof.
  intros startTime i j a b Hd H0 Hij Ha Hb.
  revert b Hb. induction j as [| j IH]; intros b Hb; [lia |].
  destruct (lookup_lt_is_Some_2 (estimate_timings startTime sentences) j) as [c Hc].
  { apply lookup_lt_Some in Hb. lia. }
  pose proof (VoiceSidebarProofs.estimate_timings_contiguous _ _ _ _ _ Hc Hb) as Hcb.
  destruct (decide (i = j)) as [-> | Hne].
  - assert (a = c) as -> by congruence. rewrite Hcb. lra.
  - assert (t_end a <= t_start c)%Q as H1 by (apply IH; [lia | exact Hc]).
    destruct (VoiceSidebarProofs.estimate_timings_forward _ _ _ _ Hd H0 Hc)
      as (_ & _ & Hfw).
    rewrite <- Hcb. lra.
Qed.

Lemma map_end_cons (timing : Timing) (tm : list Timing) :
  tm <> [] -> map_end (timing :: tm) = map_end tm.
Proof.
  intros H. unfold map_end. destruct tm as [| x tm]; [congruence |].
  simpl. rewrite Nat.sub_0_r. reflexivity.
Qed.

(** A position before the end of the estimate is held by an entry. *)
Lemma estimate_timings_covers (sentences : list string) :
  forall (startTime time : Q),
    (0 <= startTime)%Q ->
    (startTime <= time)%Q ->
    (time < map_end (estimate_timings startTime sentences))%Q ->
    exists i timing,
      estimate_timings startTime sentences !! i = Some timing
      /\ (t_start timing <= time)%Q /\ (time < t_end timing)%Q.
Proof.
  induction sentences as [| s rest IH]; intros startTime time H0 Hle Hlt.
  - change (map_end (estimate_timings startTime [])) with 0%Q in Hlt. lra.
  - simpl estimate_timings in *.
    set (e1 := fadd startTime (fmul (of_nat (String.length s)) (fl (5 # 100)))) in *.
    destruct (Qlt_le_dec time e1) as [Hin | Hout].
    + exists 0%nat. eexists. split; [reflexivity |]. simpl. split; assumption.
    + destruct rest as [| s2 rest].
      { change (map_end _) with e1 in Hlt. lra. }
      rewrite map_end_cons in Hlt by (simpl; discriminate).
      destruct (IH e1 time) as (i & timing & Hi & H1 & H2).
      * subst e1. unfold fadd. apply JSDoubleFacts.fl_nonneg.
        pose proof (VoiceSidebarProofs.duration_nonneg (String.length s)). lra.
      * exact Hout.
      * exact Hlt.
      * exists (S i), timing. auto.
Qed.

(** No entry of the estimate ends after the last. *)
Lemma estimate_timings_end (sentences : list string) :
  forall (startTime : Q) (timing : Timing),
    is_double startTime -> (0 <= startTime)%Q ->
    In timing (estimate_timings startTime sentences) ->
    (t_end timing <= map_end (estimate_timings startTime sentences))%Q.
Proof.
  intros startTime timing Hd H0 Hin.
  apply list_elem_of_In in Hin. apply list_elem_of_lookup in Hin as [i Hi].
  pose proof (lookup_lt_Some _ _ _ Hi) as Hlen.
  unfold map_end.
  destruct (lookup_lt_is_Some_2 (estimate_timings startTime sentences)
              (length (estimate_timings startTime sentences) - 1)) as [b Hb]; [lia |].
  rewrite Hb. cbv beta iota.
  destruct (decide (i = length (estimate_timings startTime sentences) - 1)%nat)
    as [E | E].
  - rewrite <- E in Hb. assert (timing = b) as -> by congruence. lra.
  - assert (Hij : (i < length (estimate_timings startTime sentences) - 1)%nat) by lia.
    pose proof (estimate_timings_sorted sentences startTime i _ timing b Hd H0
                  Hij Hi Hb) as H1.
    destruct (VoiceSidebarProofs.estimate_timings_forward _ _ _ _ Hd H0 Hb)
      as (_ & _ & Hfw).
    lra.
Qed.

(** X17.  The line highlighted while the audio plays.  With the timing map
    estimated from the text, [updateTime] sets the current line to the
    one entry whose interval holds the position of the audio: an entry
    that holds the position is the one highlighted, and its text is the
    sentence of that index; at every position from 0 up to the end of the
    last entry, which is a sum of doubles, there is such an entry.  At a
    position at or past the end of the last entry the line is left where
    it was. *)
Theorem highlighted_line_holds_the_position
    (response : VoiceResponse) (textToVoice url : string) (time : Q) (p : Player) :
  non_empty (tts_timings response) = None ->
  non_empty (response_timings response) = None ->
  let tm := timings_of response textToVoice in
  let total := map_end tm in
  let p' := updateTime (Some (mkVoice textToVoice tm url)) time p in
  (forall i timing,
     tm !! i = Some timing -> (t_start timing <= time)%Q -> (time < t_end timing)%Q ->
     currentLine p' = i /\ sentences_of textToVoice !! i = Some (t_text timing))
  /\ ((0 <= time)%Q -> (time < total)%Q ->
      exists timing, tm !! currentLine p' = Some timing
                     /\ (t_start timing <= time)%Q /\ (time < t_end timing)%Q)
  /\ ((total <= time)%Q -> currentLine p' = currentLine p)
  /\ currentTime p' = time.
Proof.
  intros H1 H2. cbv zeta. unfold timings_of. rewrite H1, H2.
  set (tm := estimate_timings 0 (sentences_of textToVoice)).
  pose proof JSDoubleFacts.is_double_0 as Hd0.
  assert (H00 : (0 <= 0)%Q) by lra.
  assert (forall i timing,
            tm !! i = Some timing -> (t_start timing <= time)%Q -> (time < t_end timing)%Q ->
            find_index (holds time) tm = Some i) as Hfind.
  { intros i timing Hi Hs He. apply (find_index_first _ _ i timing Hi).
    - apply holds_iff. split; assumption.
    - intros j y Hj Hy. apply holds_false_after.
      pose proof (estimate_timings_sorted _ _ _ _ _ _ Hd0 H00 Hj Hy Hi). lra. }
  split; [| split; [| split]].
  - intros i timing Hi Hs He. unfold updateTime. simpl.
    rewrite (Hfind i timing Hi Hs He). simpl. split; [reflexivity |].
    clear Hfind. subst tm. revert i Hi. generalize 0%Q.
    induction (sentences_of textToVoice) as [| s rest IH]; intros q i; simpl;
      [discriminate |].
    destruct i as [| i]; simpl.
    + intros H. injection H as <-. reflexivity.
    + apply IH.
  - intros H0 Ht.
    destruct (estimate_timings_covers (sentences_of textToVoice) 0 time H00 H0 Ht)
      as (i & timing & Hi & Hs & He).
    unfold updateTime. simpl. fold tm. rewrite (Hfind i timing Hi Hs He). simpl.
    exists timing. auto.
  - intros Ht. unfold updateTime. simpl. fold tm.
    rewrite find_index_none; [reflexivity |].
    intros timing Hin. apply holds_false_after.
    pose proof (estimate_timings_end _ _ _ Hd0 H00 Hin). fold tm in H. lra.
  - unfold updateTime. simpl. destruct (find_index _ _); reflexivity.
Qed.

Lemma highlighted_line_holds_the_position_witness :
  currentLine (updateTime
                 (Some (mkVoice "One. Two." (timings_of silent_response "One. Two.") "u"))
                 (3 # 10) idle) = 1%nat.
Proof.
  destruct (highlighted_line_holds_the_position silent_response "One. Two." "u" (3 # 10)
              idle eq_refl eq_refl) as (H & _).
  apply (H 1%nat
           (mkTiming (fadd 0 (fmul (of_nat 4) (fl (5 # 100))))
                     (fadd (fadd 0 (fmul (of_nat 4) (fl (5 # 100))))
                           (fmul (of_nat 4) (fl (5 # 100)))) "Two.")).
  - reflexivity.
  - vm_compute. discriminate.
  - vm_compute. reflexivity.
Defined.

(** The sums being those of the doubles, the estimate for this text ends
    just after 0.65, and the position 0.65 is in its last line. *)
Lemma position_in_the_last_line :
  let tm := timings_of silent_response "a.b.c. No dot" in
  (13 # 20 < map_end tm)%Q
  /\ currentLine (updateTime (Some (mkVoice "a.b.c. No dot" tm "u")) (13 # 20) idle)
     = 3%nat.
Proof. split; vm_compute; reflexivity. Qed.

End VoicePlaybackFacts.

Module VoiceCacheFacts.
Import JS JSNumber ChatStore VoiceSidebar VoicePlayback StringFacts.

Section Cache.

Variable Backend : Type.
Variable getAudioByQueryId :
  string -> option string -> Backend -> (string + option VoiceResponse) * Backend.
Variable generateVoice :
  string -> string -> string -> option string -> string -> Backend
  -> ApiResult * Backend.
Variable origin port : string.

Local Abbreviation run_of :=
  (generateVoiceExplanation Backend getAudioByQueryId generateVoice origin port).

Lemma cached_miss (message : ChatMessage) (sb : Sidebar) (k : string) :
  cached message sb = None -> cacheKey message = Some k -> k <> "" ->
  cachedExplanations sb !! k = None.
Proof.
  unfold cached. intros H E Hk. rewrite E in H.
  destruct (String.eqb_spec k "") as [E' | _]; [contradiction | exact H].
Qed.

(** A response applied or not, the entries of the cache stay. *)
Lemma apply_response_keeps response textToVoice message sessionIdAtStart sessionNow sb
    (k : string) (ve : VoiceExplanation) :
  cached message sb = None ->
  cachedExplanations sb !! k = Some ve ->
  cachedExplanations
    (fst (apply_response origin port response textToVoice message sessionIdAtStart
            sessionNow (mkSidebar (voiceExplanation sb) (cachedExplanations sb) true None)))
  !! k = Some ve.
Proof.
  intros Hmiss Hk. unfold apply_response.
  destruct (truthy_str (response_error response)); [exact Hk |].
  destruct (negb (truthy_str (audio_url response))); [exact Hk |].
  destruct (same_session sessionNow sessionIdAtStart); [| exact Hk].
  simpl. destruct (cacheKey message) as [k' |] eqn:Ek; [| exact Hk].
  destruct (String.eqb_spec k' "") as [E | NE]; [exact Hk |]. simpl.
  rewrite lookup_insert_ne; [exact Hk |].
  intros ->. rewrite (cached_miss message sb k Hmiss Ek NE) in Hk. discriminate.
Qed.

Lemma run_keeps_cache (currentSession sessionNow : option ChatSession) (freshId : string)
    (sb : Sidebar) (b : Backend) (k : string) (ve : VoiceExplanation) :
  cachedExplanations sb !! k = Some ve ->
  cachedExplanations (sidebar (run_of currentSession sessionNow freshId sb b)) !! k
  = Some ve.
Proof.
  intros Hk. unfold generateVoiceExplanation.
  destruct currentSession as [cs |]; [| exact Hk].
  destruct (messages cs) as [| m0 ms]; [exact Hk |].
  destruct (lastAssistantMessage cs) as [message |]; [| exact Hk].
  destruct (negb (truthy_str (detailed_response message))); [exact Hk |].
  destruct (cached message sb) as [ve0 |] eqn:Hc; [exact Hk |].
  destruct (request_audio _ _ _ _ _ _ _ _) as [[[msg | response] b'] sent];
    [exact Hk |].
  pose proof (apply_response_keeps response (default "" (detailed_response message))
                message (session_id cs) sessionNow sb k ve Hc Hk) as H.
  destruct (apply_response _ _ _ _ _ _ _ _) as [sb' ve']. exact H.
Qed.

(** What a run applied is what the cache holds for the message. *)
Lemma applied_is_cached (cs : ChatSession) (sessionNow : option ChatSession)
    (freshId : string) (sb : Sidebar) (b : Backend) (ve : VoiceExplanation)
    (message : ChatMessage) :
  applied (run_of (Some cs) sessionNow freshId sb b) = Some ve ->
  lastAssistantMessage cs = Some message ->
  id message <> "" ->
  cached message (sidebar (run_of (Some cs) sessionNow freshId sb b)) = Some ve.
Proof.
  unfold generateVoiceExplanation.
  destruct (messages cs) as [| m0 ms]; [discriminate |].
  intros Happ Hlast Hid. rewrite Hlast in *.
  destruct (negb (truthy_str (detailed_response message))); [discriminate |].
  destruct (cached message sb) as [ve0 |] eqn:Hc.
  - simpl in *. injection Happ as <-. exact Hc.
  - destruct (request_audio _ _ _ _ _ _ _ _) as [[[msg | response] b'] sent];
      [discriminate |].
    unfold apply_response in *.
    destruct (truthy_str (response_error response)); [discriminate |].
    destruct (negb (truthy_str (audio_url response))); [discriminate |].
    destruct (same_session sessionNow (session_id cs)); [| discriminate].
    simpl in *. injection Happ as <-.
    unfold cached. simpl. unfold cacheKey, or_else.
    destruct (truthy_str (query_id message)) eqn:Hq.
    + destruct (query_id message) as [q |]; [| discriminate]. simpl in Hq.
      rewrite Hq. apply lookup_insert_eq.
    + destruct (String.eqb_spec (id message) "") as [E | _]; [contradiction |].
      simpl. apply lookup_insert_eq.
Qed.

Lemma onSessionChange_cached (cs : ChatSession) (message : ChatMessage) (sb : Sidebar)
    (ve : VoiceExplanation) :
  lastAssistantMessage cs = Some message ->
  cached message sb = Some ve ->
  voiceExplanation (fst (onSessionChange (Some cs) sb)) = Some ve.
Proof.
  intros Hlast Hc. unfold onSessionChange.
  destruct (messages cs) as [| m0 ms] eqn:Hm.
  - unfold lastAssistantMessage in Hlast. rewrite Hm in Hlast. discriminate.
  - rewrite Hlast, Hc. reflexivity.
Qed.

Lemma cached_kept (message : ChatMessage) (sb sb' : Sidebar) (ve : VoiceExplanation) :
  (forall k, cachedExplanations sb !! k = Some ve ->
             cachedExplanations sb' !! k = Some ve) ->
  cached message sb = Some ve -> cached message sb' = Some ve.
Proof.
  unfold cached. intros H. destruct (cacheKey message) as [k |]; [| discriminate].
  destruct (negb (String.eqb k "")); [apply H | discriminate].
Qed.

(** X18.  An explanation applied once is shown again without a request.
    Whatever the back end, a run of [generateVoiceExplanation] leaves every
    entry of the cache as it was.  So when a run has applied an explanation
    for the last answer of a session (with a non-empty id), then, after any
    further run for any session, the effect that runs when that session
    becomes the current one again sets that explanation from the cache,
    for the auto-generation then to find one and send nothing; the effect
    also puts the player back at the start, stopped. *)
Theorem applied_explanation_is_restored
    (cs : ChatSession) (sessionNow : option ChatSession) (freshId : string)
    (sb : Sidebar) (b : Backend) (ve : VoiceExplanation) (message : ChatMessage) :
  applied (run_of (Some cs) sessionNow freshId sb b) = Some ve ->
  lastAssistantMessage cs = Some message ->
  id message <> "" ->
  let after := sidebar (run_of (Some cs) sessionNow freshId sb b) in
  (forall k ve0, cachedExplanations sb !! k = Some ve0 ->
                 cachedExplanations after !! k = Some ve0)
  /\ onSessionChange (Some cs) after
     = (mkSidebar (Some ve) (cachedExplanations after) false None,
        mkPlayer false 0 (Some 0%Q) 0)
  /\ forall other otherNow freshId' b',
       let later := sidebar (run_of other otherNow freshId' after b') in
       voiceExplanation (fst (onSessionChange (Some cs) later)) = Some ve.
Proof.
  intros Happ Hlast Hid after.
  pose proof (applied_is_cached cs sessionNow freshId sb b ve message Happ Hlast Hid)
    as Hc. fold after in Hc.
  split; [| split].
  - intros k ve0. apply run_keeps_cache.
  - unfold onSessionChange.
    destruct (messages cs) as [| m0 ms] eqn:Hm.
    + unfold lastAssistantMessage in Hlast. rewrite Hm in Hlast. discriminate.
    + rewrite Hlast, Hc. reflexivity.
  - intros other otherNow freshId' b' later.
    apply (onSessionChange_cached cs message later ve Hlast).
    apply (cached_kept message after later ve); [| exact Hc].
    intros k. apply run_keeps_cache.
Qed.

End Cache.

Lemma applied_explanation_is_restored_witness :
  voiceExplanation
    (fst (onSessionChange (Some voice_session)
            (sidebar (generateVoiceExplanation unit nothing_stored generates
                        "http://localhost:3000" "3000"
                        (Some voice_session) (Some voice_session) "msg_1"
                        fresh_sidebar tt))))
  = Some (mkVoice "One. Two."
                  (timings_of silent_response "One. Two.")
                  "http://localhost:8000/api/audio/q-17.mp3").
Proof.
  destruct (applied_explanation_is_restored unit nothing_stored generates
              "http://localhost:3000" "3000"
              voice_session (Some voice_session) "msg_1" fresh_sidebar tt
              (mkVoice "One. Two." (timings_of silent_response "One. Two.")
                       "http://localhost:8000/api/audio/q-17.mp3")
              answered) as (_ & H & _).
  - reflexivity.
  - reflexivity.
  - discriminate.
  - rewrite H. reflexivity.
Defined.

End VoiceCacheFacts.

Module VoiceUrlFacts.
Import JS JSNumber ChatStore VoiceSidebar VoicePlayback StringFacts.

Ltac snorm :=
  repeat first [rewrite append_assoc | rewrite append_cons | rewrite append_nil_l].

Lemma replace_first_eq (pat rep s : string) :
  replace_first pat rep s
  = if String.prefix pat s then
      rep +:+ String.substring (String.length pat) (String.length s - String.length pat) s
    else
      match s with
      | EmptyString => EmptyString
      | String c s' => String c (replace_first pat rep s')
      end.
Proof. destruct s; reflexivity. Qed.

Lemma prefix_append (pat b : string) : String.prefix pat (pat +:+ b) = true.
Proof.
  induction pat as [| c pat IH]; sapp; simpl; [destruct b; reflexivity |].
  destruct (ascii_dec c c); [exact IH | contradiction].
Qed.

Lemma substring_all (s : string) : substring 0 (String.length s) s = s.
Proof. induction s as [| c s IH]; simpl; [reflexivity | rewrite IH; reflexivity]. Qed.

Lemma substring_skip (pat b : string) :
  substring (String.length pat) (String.length b) (pat +:+ b) = b.
Proof.
  induction pat as [| c pat IH]; sapp; simpl; [apply substring_all | exact IH].
Qed.

Lemma replace_first_here (pat rep b : string) :
  replace_first pat rep (pat +:+ b) = rep +:+ b.
Proof.
  rewrite replace_first_eq, prefix_append, length_append.
  replace (String.length pat + String.length b - String.length pat)%nat
    with (String.length b) by lia.
  rewrite substring_skip. reflexivity.
Qed.

Lemma replace_first_self (pat rep : string) : replace_first pat rep pat = rep.
Proof.
  pose proof (replace_first_here pat rep "") as H.
  rewrite !append_nil_r in H. exact H.
Qed.

Lemma prefix_other (c d : ascii) (p s : string) :
  d <> c -> String.prefix (String c p) (String d s) = false.
Proof. intros H. simpl. destruct (ascii_dec c d); [congruence | reflexivity]. Qed.

(** Nothing is replaced before the first colon. *)
Lemma replace_first_without (a b p rep : string) :
  without ":" a = true ->
  replace_first (String ":" p) rep (a +:+ b) = a +:+ replace_first (String ":" p) rep b.
Proof.
  induction a as [| d a IH]; sapp; [reflexivity |]. cbn [without].
  intros H. apply andb_true_iff in H as [Hd Ha].
  rewrite replace_first_eq, prefix_other.
  - rewrite (IH Ha). reflexivity.
  - intros ->. discriminate.
Qed.

Lemma startsWith_truthy (url : string) :
  startsWith url "/api/" = true -> negb (String.eqb url "") = true.
Proof. destruct url; [discriminate | reflexivity]. Qed.

(** X19.  The address the audio is fetched from.  An address that starts with
    /api/ is put after the origin of the page with its port replaced by
    8000: for a page at scheme://host:port, with a port that is written in
    the origin, the audio is fetched from scheme://host:8000.  For a page
    served on the default port of its scheme the origin has no port and
    [window.location.port] is empty: what is replaced then is the first
    colon of the origin, the one after the scheme, and what comes out is
    scheme:8000//host followed by the address.  Any other address is left
    as it is. *)
Theorem convertToBackendURL_port
    (scheme host port url : string) :
  without ":" scheme = true ->
  without ":" host = true ->
  startsWith url "/api/" = true ->
  (forall rest, port <> String "/" rest) ->
  (port <> "" ->
   convertToBackendURL (scheme +:+ "://" +:+ host +:+ ":" +:+ port) port url
   = scheme +:+ "://" +:+ host +:+ ":8000" +:+ url)
  /\ convertToBackendURL (scheme +:+ "://" +:+ host) "" url
     = scheme +:+ ":8000//" +:+ host +:+ url
  /\ forall origin other,
       startsWith other "/api/" = false ->
       convertToBackendURL origin port other = other.
Proof.
  intros Hscheme Hhost Hurl Hport. split; [| split].
  - intros Hne. unfold convertToBackendURL.
    rewrite (startsWith_truthy url Hurl), Hurl. simpl andb. cbv iota.
    change (":" +:+ port) with (String ":" port).
    rewrite (replace_first_without scheme _ port ":8000" Hscheme).
    change ("://" +:+ host +:+ String ":" port)
      with (String ":" (("//" +:+ host) +:+ String ":" port)).
    rewrite replace_first_eq.
    assert (String.prefix (String ":" port)
              (String ":" (("//" +:+ host) +:+ String ":" port)) = false) as ->.
    { simpl. destruct port as [| d port']; [contradiction |].
      sapp. simpl. destruct (ascii_dec d "/") as [-> | _]; [| reflexivity].
      exfalso. exact (Hport port' eq_refl). }
    rewrite (replace_first_without ("//" +:+ host) _ port ":8000").
    + rewrite replace_first_self. snorm. reflexivity.
    + exact Hhost.
  - unfold convertToBackendURL.
    rewrite (startsWith_truthy url Hurl), Hurl. simpl andb. cbv iota.
    change (":" +:+ "") with (String ":" "").
    rewrite (replace_first_without scheme _ "" ":8000" Hscheme).
    change ("://" +:+ host) with (String ":" "" +:+ ("//" +:+ host)).
    rewrite replace_first_here. snorm. reflexivity.
  - intros origin other H. unfold convertToBackendURL. rewrite H, andb_false_r.
    reflexivity.
Qed.

Lemma convertToBackendURL_port_witness :
  convertToBackendURL "http://localhost:3000" "3000" "/api/audio/q-17.mp3"
  = "http://localhost:8000/api/audio/q-17.mp3"
  /\ convertToBackendURL "https://learn.example.org" "" "/api/audio/q-17.mp3"
     = "https:8000//learn.example.org/api/audio/q-17.mp3".
Proof.
  split.
  - apply (proj1 (convertToBackendURL_port "http" "localhost" "3000" "/api/audio/q-17.mp3"
                    eq_refl eq_refl eq_refl ltac:(discriminate))).
    discriminate.
  - apply (proj1 (proj2 (convertToBackendURL_port "https" "learn.example.org" "3000"
                           "/api/audio/q-17.mp3" eq_refl eq_refl eq_refl
                           ltac:(discriminate)))).
Defined.

End VoiceUrlFacts.

Module FormatTimeFacts.
Import JS JSNumber ChatStore VoiceSidebar VoicePlayback StringFacts.

Lemma nat_toString_small (n : nat) :
  (n < 10)%nat -> String.length (nat_toString n) = 1%nat.
Proof.
  intros H. unfold nat_toString. rewrite JSNumberFacts.digits_of_S.
  rewrite (Nat.div_small n 10 H). reflexivity.
Qed.

Lemma nat_toString_two (n : nat) :
  (10 <= n < 100)%nat -> String.length (nat_toString n) = 2%nat.
Proof.
  intros H. unfold nat_toString. destruct n as [| n]; [lia |].
  rewrite JSNumberFacts.digits_of_S.
  destruct (Nat.eqb_spec (S n / 10) 0) as [E | _].
  - apply Nat.div_small_iff in E; lia.
  - rewrite JSNumberFacts.digits_of_S.
    assert (S n / 10 / 10 = 0)%nat as ->.
    { rewrite Nat.Div0.div_div. apply Nat.div_small. lia. }
    reflexivity.
Qed.

Lemma padStart2_length (n : nat) :
  (n < 100)%nat -> String.length (padStart2 (nat_toString n)) = 2%nat.
Proof.
  intros H. unfold padStart2.
  destruct (Nat.lt_ge_cases n 10) as [Hs | Hl].
  - rewrite (nat_toString_small n Hs).
    rewrite StringFacts.length_append, (nat_toString_small n Hs). reflexivity.
  - rewrite (nat_toString_two n) by lia. apply nat_toString_two. lia.
Qed.

Lemma Qfloor_shift (x : Q) (z : Z) : Qfloor (x - inject_Z z) = (Qfloor x - z)%Z.
Proof.
  assert (inject_Z (Qfloor x - z) <= x - inject_Z z)%Q as Hlo.
  { unfold Z.sub. rewrite inject_Z_plus, inject_Z_opp. pose proof (Qfloor_le x). lra. }
  assert (x - inject_Z z < inject_Z (Qfloor x - z + 1))%Q as Hhi.
  { pose proof (Qlt_floor x) as H. unfold Z.sub. rewrite !inject_Z_plus in *.
    rewrite inject_Z_opp. lra. }
  pose proof (Qfloor_le (x - inject_Z z)) as H1.
  pose proof (Qlt_floor (x - inject_Z z)) as H2.
  assert (inject_Z (Qfloor x - z) < inject_Z (Qfloor (x - inject_Z z) + 1))%Q as A by lra.
  assert (inject_Z (Qfloor (x - inject_Z z)) < inject_Z (Qfloor x - z + 1))%Q as B by lra.
  rewrite <- Zlt_Qlt in A, B. lia.
Qed.

(** X20.  The times shown under the audio.  For a time that is not negative,
    [formatTime] gives the whole minutes, a colon, and the seconds on two
    digits: the seconds are below 60, and 60 times the minutes plus the
    seconds is the time rounded down to the second. *)
Theorem formatTime_minutes_and_seconds (time : Q) :
  (0 <= time)%Q ->
  exists minutes seconds : nat,
    formatTime time = nat_toString minutes +:+ ":" +:+ padStart2 (nat_toString seconds)
    /\ (seconds < 60)%nat
    /\ Z.of_nat (60 * minutes + seconds) = Qfloor time
    /\ String.length (padStart2 (nat_toString seconds)) = 2%nat
    /\ parseInt (nat_toString minutes) = Some (Z.of_nat minutes).
Proof.
  intros H0.
  assert (0 <= time / 60)%Q as Hq.
  { apply Qle_shift_div_l; lra. }
  assert (0 <= Qfloor (time / 60))%Z as Hm.
  { change 0%Z with (Qfloor 0). apply Qfloor_resp_le. exact Hq. }
  assert (js_rem time 60 == time - inject_Z (60 * Qfloor (time / 60)))%Q as Hrem.
  { unfold js_rem, Qtrunc.
    assert (Qle_bool 0 (time / 60) = true) as -> by (apply Qle_bool_iff; exact Hq).
    rewrite inject_Z_mult. reflexivity. }
  assert (Qfloor (js_rem time 60) = Qfloor time - 60 * Qfloor (time / 60))%Z as Hs.
  { rewrite (Qfloor_comp _ _ Hrem). apply Qfloor_shift. }
  pose proof (Qfloor_le (time / 60)) as Hlo.
  pose proof (Qlt_floor (time / 60)) as Hhi.
  assert (inject_Z (60 * Qfloor (time / 60)) <= time)%Q as Hlo'.
  { rewrite inject_Z_mult.
    assert (time == 60 * (time / 60))%Q as E by (field).
    rewrite E at 2. change (inject_Z 60) with 60%Q. lra. }
  assert (time < inject_Z (60 * Qfloor (time / 60) + 60))%Q as Hhi'.
  { rewrite inject_Z_plus, inject_Z_mult. rewrite inject_Z_plus in Hhi.
    assert (time == 60 * (time / 60))%Q as E by (field).
    rewrite E at 1. change (inject_Z 60) with 60%Q. change (inject_Z 1) with 1%Q in Hhi.
    lra. }
  assert (60 * Qfloor (time / 60) <= Qfloor time)%Z as Hz1.
  { rewrite <- (Qfloor_Z (60 * Qfloor (time / 60))). apply Qfloor_resp_le. exact Hlo'. }
  assert (Qfloor time < 60 * Qfloor (time / 60) + 60)%Z as Hz2.
  { pose proof (Qfloor_le time) as Hf.
    assert (inject_Z (Qfloor time) < inject_Z (60 * Qfloor (time / 60) + 60))%Q as A by lra.
    rewrite <- Zlt_Qlt in A. exact A. }
  exists (Z.to_nat (Qfloor (time / 60))), (Z.to_nat (Qfloor (js_rem time 60))).
  assert (Z.to_nat (Qfloor (js_rem time 60)) < 60)%nat as Hsec by (rewrite Hs; lia).
  split; [| split; [| split; [| split]]].
  - unfold formatTime, toString.
    destruct (Z.ltb_spec (Qfloor (time / 60)) 0); [lia |].
    destruct (Z.ltb_spec (Qfloor (js_rem time 60)) 0); [lia |]. reflexivity.
  - exact Hsec.
  - rewrite Hs. lia.
  - apply padStart2_length. lia.
  - apply JSNumberFacts.parseInt_nat_toString.
Qed.

Lemma formatTime_minutes_and_seconds_witness :
  formatTime (754 # 10) = "1:15".
Proof.
  destruct (formatTime_minutes_and_seconds (754 # 10)) as (m & s & H & _).
  - vm_compute. discriminate.
  - vm_compute. reflexivity.
Defined.

End FormatTimeFacts.

